(** * ShopAlarm: the relay trigger scheduling engine

    A shallow embedding of the cloud service's relay engine
    ([calculateAndBroadcastRelayStates]) and of the command handlers that
    drive it (order webhook, dashboard settings, test-relay, deactivate),
    of the login and page routes, and of the settings file as
    [saveSettings] writes it and [loadSettings] reads it, followed by the
    properties of the specification that concern them and by further
    properties of the code.

    Modelling conventions.
    - The state model holds times and durations as whole milliseconds
      ([Z]); [Date.now()] is a parameter of every function that reads the
      clock.  JavaScript's [%] is the truncated remainder, [Z.rem].  The
      settings command also accepts durations that are not whole numbers:
      module [F64] gives the arithmetic of doubles and module [Dbl] the
      main block of the evaluation on any doubles; on whole milliseconds
      the two computations coincide.
    - A plain JavaScript object used as a map is an association list in
      property enumeration order (integer-like keys first, ascending, then
      the other keys in creation order), so that the comparison of two
      [JSON.stringify] outputs is equality of lists.
    - The relay configuration objects live in a heap of cells addressed by
      references, so that sharing between the live configuration and a
      trigger's snapshot can be expressed.
    - [saveSettings] and [broadcastSettings] are recorded as a list of
      effects returned next to the new state. *)

From Stdlib Require Import Ascii QArith Qround.
From stdpp Require Import base numbers list strings gmap pretty.

Local Open Scope Z_scope.

(* ================================================================== *)
(** * JavaScript objects as ordered association lists *)
(* ================================================================== *)

Abbreviation obj A := (list (string * A)).

(** The decimal digits of a canonical array index. *)
Definition digitValue (c : ascii) : option N :=
  let n := N_of_ascii c in
  if (48 <=? n)%N && (n <=? 57)%N then Some (n - 48)%N else None.

Fixpoint digitsValue (s : string) (acc : N) : option N :=
  match s with
  | EmptyString => Some acc
  | String c s' =>
      match digitValue c with
      | Some d => digitsValue s' (10 * acc + d)%N
      | None => None
      end
  end.

(** [arrayIndex k] is the number [k] spells when [k] is a canonical numeric
    string below 2^32 - 1; such keys are enumerated first, in ascending
    order, by [for ... in], [Object.keys] and [JSON.stringify]. *)
Definition arrayIndex (k : string) : option N :=
  match k with
  | EmptyString => None
  | String c s' =>
      if bool_decide (c = "0"%char) && negb (bool_decide (s' = EmptyString))
      then None
      else
        match digitsValue k 0 with
        | Some n => if (n <? 4294967295)%N then Some n else None
        | None => None
        end
  end.

Section JsObject.
Context {A : Type}.

(** [o[k]], [None] standing for [undefined]. *)
Fixpoint jsGet (k : string) (o : obj A) : option A :=
  match o with
  | [] => None
  | (k', v) :: o' => if bool_decide (k = k') then Some v else jsGet k o'
  end.

Definition jsKeys (o : obj A) : list string := map fst o.

(** Assignment to a property that exists keeps its position. *)
Fixpoint jsReplace (k : string) (v : A) (o : obj A) : obj A :=
  match o with
  | [] => []
  | (k', v') :: o' =>
      if bool_decide (k = k') then (k', v) :: o'
      else (k', v') :: jsReplace k v o'
  end.

(** A new integer-like key goes before the first key that is not an
    index or is a larger index. *)
Fixpoint jsInsertIndex (n : N) (k : string) (v : A) (o : obj A) : obj A :=
  match o with
  | [] => [(k, v)]
  | (k', v') :: o' =>
      match arrayIndex k' with
      | Some m =>
          if (m <? n)%N then (k', v') :: jsInsertIndex n k v o'
          else (k, v) :: o
      | None => (k, v) :: o
      end
  end.

(** [o[k] = v], for a name [k] that an assignment creates as an own
    property (every name but [__proto__], which is not told apart
    here). *)
Definition jsSet (k : string) (v : A) (o : obj A) : obj A :=
  match jsGet k o with
  | Some _ => jsReplace k v o
  | None =>
      match arrayIndex k with
      | Some n => jsInsertIndex n k v o
      | None => o ++ [(k, v)]
      end
  end.
End JsObject.

(** A property that is absent reads as [undefined], which is falsy. *)
Definition stateOf (k : string) (st : obj bool) : bool :=
  match jsGet k st with
  | Some b => b
  | None => false
  end.

(* ================================================================== *)
(** * Data model *)
(* ================================================================== *)

(** One relay's configuration, [{ onTimeMs, delayMs, pulseMs, enabled }],
    with durations that are whole milliseconds ([Dbl.Relay.t] has any
    doubles). *)
Module Relay.
Record t := mk {
  onTimeMs : Z;
  delayMs : Z;
  pulseMs : Z;
  enabled : bool
}.
End Relay.

Inductive Source := order | test.

(** [activeTrigger]: [{ source, timestamp, relayConfig }]; [relayConfig] is
    a reference to the trigger's own relays object. *)
Module Trigger.
Record t := mk {
  source : Source;
  timestamp : Z;
  relayConfig : nat
}.
End Trigger.

(** [testRelay]: [{ id, onTimeMs, pulseMs, timestamp }], [id] being a
    number or [null]. *)
Module Test.
Record t := mk {
  id : option Z;
  onTimeMs : Z;
  pulseMs : Z;
  timestamp : Z
}.

(** The literal [{ id: null, onTimeMs: 0, pulseMs: 0, timestamp: 0 }]. *)
Definition cleared : t := mk None 0 0 0.
End Test.

(** The module-level [alarmSettings] object; [relays] is a reference. *)
Record AlarmSettings := mkSettings {
  alarmEnabled : bool;
  relays : nat;
  activeTrigger : option Trigger.t;
  testRelay : Test.t;
  currentRelayStates : obj bool;
  triggerActive : bool
}.

(** What [broadcastSettings] serialises for the clients. *)
Module Payload.
Record t := mk {
  alarmEnabled : bool;
  triggerActive : bool;
  relays : obj bool;
  testRelay : Test.t
}.
End Payload.

(** The two outward effects of the engine: a [saveSettings()] call, with
    the settings it writes, and a [broadcastSettings()] call, with the
    message it sends. *)
Inductive Effect :=
  | Saved (s : AlarmSettings)
  | Broadcast (p : Payload.t).

(** Heap cells: a relays object maps relay ids to references to relay
    configuration objects. *)
Inductive cell :=
  | CRelays (props : obj nat)
  | CConfig (c : Relay.t).

(** The whole program state: [alarmSettings], [intervalId], the heap and
    the set of interval timers that [setInterval] created and
    [clearInterval] has not cancelled. *)
Record World := mkWorld {
  alarmSettings : AlarmSettings;
  intervalId : option nat;
  heap : gmap nat cell;
  timers : gset nat
}.

(* ================================================================== *)
(** * The heap of relay configuration objects *)
(* ================================================================== *)

Definition readConfig (h : gmap nat cell) (l : nat) : option Relay.t :=
  match h !! l with
  | Some (CConfig c) => Some c
  | _ => None
  end.

Definition readProps (h : gmap nat cell) (ps : obj nat) : obj Relay.t :=
  omap (fun p => match readConfig h p.2 with
                 | Some c => Some (p.1, c)
                 | None => None
                 end) ps.

(** The relays object at [l], read through to its configurations.  (A
    reference always leads to an object of the right kind in the program;
    here a reference that does not contributes nothing.) *)
Definition readRelays (h : gmap nat cell) (l : nat) : obj Relay.t :=
  match h !! l with
  | Some (CRelays ps) => readProps h ps
  | _ => []
  end.

(** Allocation of one fresh configuration object per relay. *)
Fixpoint allocConfigs (cs : obj Relay.t) (h : gmap nat cell)
  : obj nat * gmap nat cell :=
  match cs with
  | [] => ([], h)
  | (k, c) :: cs' =>
      let l := fresh (dom h) in
      let '(ps, h') := allocConfigs cs' (<[l := CConfig c]> h) in
      ((k, l) :: ps, h')
  end.

(** Allocation of a fresh relays object holding fresh configurations. *)
Definition allocRelays (cs : obj Relay.t) (h : gmap nat cell)
  : nat * gmap nat cell :=
  let '(ps, h1) := allocConfigs cs h in
  let l := fresh (dom h1) in
  (l, <[l := CRelays ps]> h1).

(** [JSON.parse(JSON.stringify(relays))]: the object is written out and
    parsed back into new objects. *)
Definition deepCopy (h : gmap nat cell) (l : nat) : nat * gmap nat cell :=
  allocRelays (readRelays h l) h.

(* ================================================================== *)
(** * calculateAndBroadcastRelayStates *)
(* ================================================================== *)

(** The literal [{ '1': false, '2': false, '3': false, '4': false }]. *)
Definition allOff : obj bool :=
  [("1", false); ("2", false); ("3", false); ("4", false)].

(** The body of the [for ... in] loop for one relay: the value assigned
    to [updatedRelayStates[relayId]].  On whole milliseconds the code's
    double arithmetic is exact, and is written here on [Z]
    ([Dbl.relayState] is the loop body on any doubles). *)
Definition relayState (now ts : Z) (config : Relay.t) : bool :=
  if negb (Relay.enabled config) then false
  else
    let elapsed := now - ts in
    let effectiveEndTime := Relay.delayMs config + Relay.onTimeMs config in
    if (elapsed >=? Relay.delayMs config) && (elapsed <? effectiveEndTime) then
      if Relay.pulseMs config >? 0 then
        let pulseCycleTime := Relay.pulseMs config * 2 in
        let timeInWindow := elapsed - Relay.delayMs config in
        if Z.rem timeInWindow pulseCycleTime <? Relay.pulseMs config
        then true else false
      else true
    else false.

(** The loop over the snapshot's relay ids.  (The loop also maintains a
    local [allRelaysFinished], which nothing reads afterwards.) *)
Definition relayLoop (now ts : Z) (cfg : obj Relay.t) (st : obj bool)
  : obj bool :=
  foldl (fun st relayId =>
           match jsGet relayId cfg with
           | Some config => jsSet relayId (relayState now ts config) st
           | None => st
           end) st (jsKeys cfg).

(** The callback of [Object.keys(...).every], on whole milliseconds
    ([Dbl.relayFinished] is the callback on any doubles, where the sum
    is rounded). *)
Definition relayFinished (now ts : Z) (config : Relay.t) : bool :=
  if negb (Relay.enabled config) then true
  else now >=? ts + Relay.delayMs config + Relay.onTimeMs config.

Definition allEnabledTriggerRelaysFinished (now ts : Z) (cfg : obj Relay.t)
  : bool :=
  forallb (fun relayId =>
             match jsGet relayId cfg with
             | Some config => relayFinished now ts config
             | None => true
             end) (jsKeys cfg).

Definition setActiveTrigger (s : AlarmSettings) (tr : option Trigger.t)
  : AlarmSettings :=
  mkSettings (alarmEnabled s) (relays s) tr (testRelay s)
             (currentRelayStates s) (triggerActive s).

Definition setTestRelay (s : AlarmSettings) (t : Test.t) : AlarmSettings :=
  mkSettings (alarmEnabled s) (relays s) (activeTrigger s) t
             (currentRelayStates s) (triggerActive s).

Definition setLive (s : AlarmSettings) (st : obj bool) (ta : bool)
  : AlarmSettings :=
  mkSettings (alarmEnabled s) (relays s) (activeTrigger s) (testRelay s)
             st ta.

(** "Handle the main active trigger": the values of [updatedRelayStates]
    and [newTriggerActive] after the first block, and the settings with
    the trigger cleared when it has completed. *)
Definition mainTrigger (now : Z) (h : gmap nat cell) (s : AlarmSettings)
  : obj bool * bool * AlarmSettings :=
  match activeTrigger s with
  | Some tr =>
      if alarmEnabled s then
        let cfg := readRelays h (Trigger.relayConfig tr) in
        let updatedRelayStates :=
          relayLoop now (Trigger.timestamp tr) cfg allOff in
        if allEnabledTriggerRelaysFinished now (Trigger.timestamp tr) cfg
        then (allOff, false, setActiveTrigger s None)
        else (updatedRelayStates, true, s)
      else (allOff, false, s)
  | None => (allOff, false, s)
  end.

(** The guard [testRelay.id !== null && testRelay.onTimeMs > 0]. *)
Definition testPending (t : Test.t) : bool :=
  match Test.id t with
  | Some _ => Test.onTimeMs t >? 0
  | None => false
  end.

(** "Handle test relay commands": layered on the result of the first
    block. *)
Definition testOverride (now : Z) (st : obj bool) (newTriggerActive : bool)
    (s : AlarmSettings) : obj bool * bool * AlarmSettings * list Effect :=
  match Test.id (testRelay s) with
  | Some i =>
      if Test.onTimeMs (testRelay s) >? 0 then
        let testRelayId := pretty i in
        let elapsedTest := now - Test.timestamp (testRelay s) in
        let testEndTime := Test.onTimeMs (testRelay s) in
        let testPulseMs := Test.pulseMs (testRelay s) in
        if elapsedTest <? testEndTime then
          let st' :=
            if testPulseMs >? 0 then
              let pulseCycleTime := testPulseMs * 2 in
              if Z.rem elapsedTest pulseCycleTime <? testPulseMs
              then jsSet testRelayId true st
              else jsSet testRelayId false st
            else jsSet testRelayId true st in
          (st', true, s, [])
        else
          let s' := setTestRelay s Test.cleared in
          let st' :=
            match activeTrigger s' with
            | None => jsSet testRelayId false st
            | Some _ => st
            end in
          (st', newTriggerActive, s', [Saved s'])
      else (st, newTriggerActive, s, [])
  | None => (st, newTriggerActive, s, [])
  end.

(** JavaScript truthiness of [testRelay.id]. *)
Definition truthyId (i : option Z) : bool :=
  match i with
  | Some z => negb (z =? 0)
  | None => false
  end.

Definition payloadOf (s : AlarmSettings) : Payload.t :=
  Payload.mk (alarmEnabled s) (triggerActive s) (currentRelayStates s)
             (testRelay s).

(** "Check if states have actually changed before broadcasting". *)
Definition publish (st : obj bool) (newTriggerActive : bool)
    (s : AlarmSettings) : AlarmSettings * list Effect :=
  let relayStatesChanged := negb (bool_decide (st = currentRelayStates s)) in
  let triggerActiveChanged :=
    negb (bool_decide (newTriggerActive = triggerActive s)) in
  if relayStatesChanged || triggerActiveChanged || testPending (testRelay s)
  then
    let s' := setLive s st newTriggerActive in
    let saved :=
      if negb (bool_decide (is_Some (activeTrigger s')))
         && negb newTriggerActive && negb (truthyId (Test.id (testRelay s')))
      then [Saved s'] else [] in
    (s', saved ++ [Broadcast (payloadOf s')])
  else (s, []).

(** "Manage the interval: start if needed, stop if idle". *)
Definition manageInterval (s : AlarmSettings) (iv : option nat)
    (ts : gset nat) : option nat * gset nat :=
  match activeTrigger s, Test.id (testRelay s), iv with
  | None, None, Some h => (None, ts ∖ {[h]})
  | None, None, None => (None, ts)
  | _, _, None => let h := fresh ts in (Some h, {[h]} ∪ ts)
  | _, _, Some h => (Some h, ts)
  end.

(** The pure part: the relay states and [newTriggerActive] that one
    evaluation at [now] computes. *)
Definition evaluate (now : Z) (h : gmap nat cell) (s : AlarmSettings)
  : obj bool * bool :=
  let '(st1, ta1, s1) := mainTrigger now h s in
  let '(st2, ta2, _, _) := testOverride now st1 ta1 s1 in
  (st2, ta2).

Definition calculateAndBroadcastRelayStates (now : Z) (w : World)
  : World * list Effect :=
  let '(st1, ta1, s1) := mainTrigger now (heap w) (alarmSettings w) in
  let '(st2, ta2, s2, e2) := testOverride now st1 ta1 s1 in
  let '(s3, e3) := publish st2 ta2 s2 in
  let '(iv, ts) := manageInterval s3 (intervalId w) (timers w) in
  (mkWorld s3 iv (heap w) ts, e2 ++ e3).

(* ================================================================== *)
(** * Request bodies *)
(* ================================================================== *)

(** A value parsed from a JSON request body ([undefined] for a field the
    body does not have).  Numbers are the integers (a request with a
    fractional number, which the handlers treat like any other number, is
    outside this type); the properties of an
    object are listed in enumeration order, under distinct names. *)
#[warnings="-register-all"]
Inductive jsval :=
  | JUndefined
  | JNull
  | JBool (b : bool)
  | JNum (n : Z)
  | JStr (s : string)
  | JArr (items : list jsval)
  | JObj (props : obj jsval).

Inductive jstype := TUndefined | TObject | TBoolean | TNumber | TString.

Definition typeof (v : jsval) : jstype :=
  match v with
  | JUndefined => TUndefined
  | JNull | JArr _ | JObj _ => TObject
  | JBool _ => TBoolean
  | JNum _ => TNumber
  | JStr _ => TString
  end.

(** [Object.keys(v)] and the ids [for (id in v)] visits, for a value whose
    [typeof] is ['object']; [None] is the [TypeError] that [null] raises.
    (The handler does not reach this with a primitive.) *)
Definition ownKeys (v : jsval) : option (list string) :=
  match v with
  | JObj ps => Some (jsKeys ps)
  | JArr xs => Some (imap (fun i _ => pretty i) xs)
  | JNull | JUndefined => None
  | _ => Some []
  end.

(** [v[k]] for the relay ids and for the four field names the handler
    reads; [None] is the [TypeError] of reading a property of [null] or
    [undefined].  Primitives have none of these properties, and an array
    has only its indices among them. *)
Definition getProp (v : jsval) (k : string) : option jsval :=
  match v with
  | JUndefined | JNull => None
  | JObj ps => Some (default JUndefined (jsGet k ps))
  | JArr xs =>
      match arrayIndex k with
      | Some n => Some (default JUndefined (xs !! N.to_nat n))
      | None => Some JUndefined
      end
  | _ => Some JUndefined
  end.

(* ================================================================== *)
(** * Command handlers *)
(* ================================================================== *)

Inductive Rejection :=
  | InvalidAlarmEnabled
  | InvalidRelays
  | InvalidOnTimeMs (id : string)
  | InvalidDelayMs (id : string)
  | InvalidPulseMs (id : string)
  | InvalidEnabled (id : string)
  | InvalidRelayId
  | RelayDisabled (id : string).

Inductive Message :=
  | AlarmTriggered
  | TriggerIgnored
  | SettingsUpdated
  | TestSent
  | AlarmCleared
  | NothingToDeactivate.

(** What the caller gets back: a 200, a 400 with its reason, the 401 of the
    webhook, or the error response to an exception the handler let
    escape. *)
Inductive Response :=
  | Status200 (m : Message)
  | Status400 (why : Rejection)
  | Status401
  | UncaughtTypeError.

(** [typeof v !== 'number' || v < lo || v > hi], negated: the number that
    passes. *)
Definition numberWithin (v : jsval) (lo hi : Z) : option Z :=
  match v with
  | JNum n => if (n <? lo) || (n >? hi) then None else Some n
  | _ => None
  end.

(** The body of the validation loop for the relay [id]. *)
Definition checkRelay (id : string) (relay : jsval) : Response + Relay.t :=
  match getProp relay "onTimeMs", getProp relay "delayMs",
        getProp relay "pulseMs", getProp relay "enabled" with
  | Some vOn, Some vDelay, Some vPulse, Some vEnabled =>
      match numberWithin vOn 100 600000 with
      | None => inl (Status400 (InvalidOnTimeMs id))
      | Some onT =>
          match numberWithin vDelay 0 600000 with
          | None => inl (Status400 (InvalidDelayMs id))
          | Some del =>
              match numberWithin vPulse 0 5000 with
              | None => inl (Status400 (InvalidPulseMs id))
              | Some pul =>
                  match vEnabled with
                  | JBool en => inr (Relay.mk onT del pul en)
                  | _ => inl (Status400 (InvalidEnabled id))
                  end
              end
          end
      end
  | _, _, _, _ => inl UncaughtTypeError
  end.

(** [for (const id in relays) { const relay = relays[id]; ... }], which
    returns at the first violation; on success, the configuration the
    object holds. *)
Fixpoint validateRelays (relays : jsval) (ids : list string)
  : Response + obj Relay.t :=
  match ids with
  | [] => inr []
  | id :: ids' =>
      match getProp relays id with
      | None => inl UncaughtTypeError
      | Some relay =>
          match checkRelay id relay with
          | inl r => inl r
          | inr c =>
              match validateRelays relays ids' with
              | inl r => inl r
              | inr cs => inr ((id, c) :: cs)
              end
          end
      end
  end.

(** The two assignments [alarmSettings.alarmEnabled = alarmEnabled] and
    [alarmSettings.relays = relays], the accepted body object being a new
    object that holds the configuration [cfgs]. *)
Definition replaceConfig (b : bool) (cfgs : obj Relay.t) (w : World) : World :=
  let '(l, h') := allocRelays cfgs (heap w) in
  let s := alarmSettings w in
  mkWorld (mkSettings b l (activeTrigger s) (testRelay s)
                      (currentRelayStates s) (triggerActive s))
          (intervalId w) h' (timers w).

(** [POST /api/dashboard/settings] with body [{ alarmEnabled, relays }];
    [now] is the clock reading of the evaluation it ends with. *)
Definition postSettings (bAlarmEnabled bRelays : jsval) (now : Z) (w : World)
  : World * list Effect * Response :=
  match bAlarmEnabled with
  | JBool b =>
      match typeof bRelays with
      | TObject =>
          match ownKeys bRelays with
          | None => (w, [], UncaughtTypeError)
          | Some ids =>
              if negb (bool_decide (length ids = 4%nat))
              then (w, [], Status400 InvalidRelays)
              else
                match validateRelays bRelays ids with
                | inl r => (w, [], r)
                | inr cfgs =>
                    let w1 := replaceConfig b cfgs w in
                    let '(w2, es) := calculateAndBroadcastRelayStates now w1 in
                    (w2, Saved (alarmSettings w1) :: es,
                     Status200 SettingsUpdated)
                end
          end
      | _ => (w, [], Status400 InvalidRelays)
      end
  | _ => (w, [], Status400 InvalidAlarmEnabled)
  end.

(** The assignment of a new [activeTrigger] with a deep copy of the live
    configuration. *)
Definition armTrigger (src : Source) (t : Z) (w : World) : World :=
  let s := alarmSettings w in
  let '(l, h') := deepCopy (heap w) (relays s) in
  mkWorld (setActiveTrigger s (Some (Trigger.mk src t l)))
          (intervalId w) h' (timers w).

(** [POST /webhook/order]; [secretOk] is the outcome of the comparison of
    the query secret, [t] the clock reading stored as the trigger's
    timestamp and [now] the later reading of the evaluation. *)
Definition webhookOrder (secretOk : bool) (t now : Z) (w : World)
  : World * list Effect * Response :=
  if negb secretOk then (w, [], Status401)
  else
    let s := alarmSettings w in
    if alarmEnabled s then
      let '(w2, es) :=
        calculateAndBroadcastRelayStates now (armTrigger order t w) in
      (w2, es, Status200 AlarmTriggered)
    else (w, [], Status200 TriggerIgnored).

(** The longest prefix of decimal digits of a string. *)
Fixpoint leadingDigits (s : string) (acc : option N) : option N :=
  match s with
  | EmptyString => acc
  | String c s' =>
      match digitValue c with
      | Some d => leadingDigits s' (Some (10 * default 0%N acc + d)%N)
      | None => acc
      end
  end.

(** [parseInt(s, 10)] on a string that starts with a digit or is empty;
    [None] where the result is [NaN].  (Leading white space and a sign are
    not treated: the one caller passes an id that is one of ['1'] to
    ['4'].) *)
Definition parseInt10 (s : string) : option Z :=
  Z.of_N <$> leadingDigits s None.

(** The assignment of a new [testRelay] for the relay [relayId], whose
    live configuration is [config]. *)
Definition armTest (relayId : string) (config : Relay.t) (t : Z) (w : World)
  : World :=
  mkWorld (setTestRelay (alarmSettings w)
             (Test.mk (parseInt10 relayId) 500 (Relay.pulseMs config) t))
          (intervalId w) (heap w) (timers w).

(** [POST /api/dashboard/commands/test-relay/:id]. *)
Definition testRelayCommand (relayId : string) (t now : Z) (w : World)
  : World * list Effect * Response :=
  if negb (bool_decide (relayId ∈ ["1"; "2"; "3"; "4"]))
  then (w, [], Status400 InvalidRelayId)
  else
    let s := alarmSettings w in
    match jsGet relayId (readRelays (heap w) (relays s)) with
    | None => (w, [], UncaughtTypeError)
    | Some currentRelayConfig =>
        if negb (Relay.enabled currentRelayConfig)
        then (w, [], Status400 (RelayDisabled relayId))
        else
          let '(w2, es) :=
            calculateAndBroadcastRelayStates now
              (armTest relayId currentRelayConfig t w) in
          (w2, es, Status200 TestSent)
    end.

(** The two assignments that clear the trigger and the test. *)
Definition disarm (w : World) : World :=
  mkWorld (setTestRelay (setActiveTrigger (alarmSettings w) None) Test.cleared)
          (intervalId w) (heap w) (timers w).

(** [POST /api/dashboard/commands/deactivate-alarm]. *)
Definition deactivateAlarm (now : Z) (w : World)
  : World * list Effect * Response :=
  let s := alarmSettings w in
  if bool_decide (is_Some (activeTrigger s))
     || bool_decide (is_Some (Test.id (testRelay s)))
     || triggerActive s
  then
    let '(w2, es) := calculateAndBroadcastRelayStates now (disarm w) in
    (w2, es, Status200 AlarmCleared)
  else (w, [], Status200 NothingToDeactivate).

(** The initial [alarmSettings] literal, before anything is loaded, with
    [intervalId = null]. *)
Definition defaultRelays : obj Relay.t :=
  [("1", Relay.mk 5000 0 0 true); ("2", Relay.mk 5000 1000 0 true);
   ("3", Relay.mk 5000 2000 0 true); ("4", Relay.mk 5000 3000 0 true)].

Definition initialWorld : World :=
  let '(l, h) := allocRelays defaultRelays ∅ in
  mkWorld (mkSettings true l None Test.cleared allOff false) None h ∅.

(* ================================================================== *)
(** * Vocabulary of the specification *)
(* ================================================================== *)

(** The active window [[delayMs, delayMs + onTimeMs)] of a relay. *)
Definition inWindow (elapsed : Z) (c : Relay.t) : Prop :=
  Relay.delayMs c ≤ elapsed < Relay.delayMs c + Relay.onTimeMs c.

(** A relay is driven on by the main trigger at [elapsed]: inside its
    window and, when it pulses with [p > 0], in the first half of the
    period [2p] counted from the start of the window. *)
Definition mainOn (elapsed : Z) (c : Relay.t) : Prop :=
  inWindow elapsed c ∧
  (0 < Relay.pulseMs c →
   (elapsed - Relay.delayMs c) `mod` (2 * Relay.pulseMs c) < Relay.pulseMs c).

(** The state of the override's relay at [elapsed] inside its window:
    solid when [p = 0], the square wave of period [2p] otherwise. *)
Definition overrideOn (p elapsed : Z) : bool :=
  if 0 <? p then elapsed `mod` (2 * p) <? p else true.

(** The relay states after the first block alone. *)
Definition mainStates (now : Z) (h : gmap nat cell) (s : AlarmSettings)
  : obj bool :=
  (mainTrigger now h s).1.1.

(** A test override is in flight at [now]: it exists and its duration has
    not elapsed. *)
Definition testInFlight (now : Z) (t : Test.t) : Prop :=
  is_Some (Test.id t) ∧ 0 < Test.onTimeMs t ∧
  now - Test.timestamp t < Test.onTimeMs t.

(** The last-broadcast pair [(RelayState, triggerActive)]. *)
Definition snapshot (s : AlarmSettings) : obj bool * bool :=
  (currentRelayStates s, triggerActive s).

Definition broadcasts (es : list Effect) : Prop :=
  ∃ p, Broadcast p ∈ es.

Definition persists (es : list Effect) : Prop :=
  ∃ s, Saved s ∈ es.

(** The evaluation at [now] is the one that clears the trigger, or the
    test override. *)
Definition triggerJustFinished (now : Z) (w : World) : Prop :=
  is_Some (activeTrigger (alarmSettings w)) ∧
  activeTrigger (alarmSettings (calculateAndBroadcastRelayStates now w).1)
  = None.

Definition overrideJustFinished (now : Z) (w : World) : Prop :=
  is_Some (Test.id (testRelay (alarmSettings w))) ∧
  Test.id (testRelay (alarmSettings (calculateAndBroadcastRelayStates now w).1))
  = None.

(** Nothing is left to do after an evaluation: the condition under which
    the gate also saves. *)
Definition idle (s : AlarmSettings) : Prop :=
  activeTrigger s = None ∧ triggerActive s = false ∧
  truthyId (Test.id (testRelay s)) = false.

(** The id of a test override is one of the four relays. *)
Definition testIdOk (t : Test.t) : Prop :=
  match Test.id t with
  | Some i => pretty i ∈ jsKeys allOff
  | None => True
  end.

(** A relay of a request is within the bounds: [onTimeMs] in
    [[100, 600000]], [delayMs] in [[0, 600000]], [pulseMs] in [[0, 5000]],
    [enabled] a boolean. *)
Definition relayInBounds (relay : jsval) : Prop :=
  (∃ n, getProp relay "onTimeMs" = Some (JNum n) ∧ 100 ≤ n ≤ 600000)
  ∧ (∃ n, getProp relay "delayMs" = Some (JNum n) ∧ 0 ≤ n ≤ 600000)
  ∧ (∃ n, getProp relay "pulseMs" = Some (JNum n) ∧ 0 ≤ n ≤ 5000)
  ∧ (∃ b, getProp relay "enabled" = Some (JBool b)).

(** The request the specification accepts: [alarmEnabled] is a boolean,
    the relay map has exactly the ids 1 to 4, and every relay is within
    the bounds. *)
Definition requestValid (bAlarmEnabled bRelays : jsval) : Prop :=
  (∃ b, bAlarmEnabled = JBool b)
  ∧ ∃ ps, bRelays = JObj ps
          ∧ jsKeys ps ≡ₚ ["1"; "2"; "3"; "4"]
          ∧ ∀ id relay, jsGet id ps = Some relay → relayInBounds relay.

(** The request the handler accepts: for the relay map, only the number
    of ids counts. *)
Definition requestAccepted (bAlarmEnabled bRelays : jsval) : Prop :=
  (∃ b, bAlarmEnabled = JBool b)
  ∧ typeof bRelays = TObject
  ∧ ∃ ids, ownKeys bRelays = Some ids
           ∧ length ids = 4%nat
           ∧ ∀ id, id ∈ ids →
                   ∃ relay, getProp bRelays id = Some relay
                            ∧ relayInBounds relay.

(** The configuration values are within the bounds. *)
Definition configInBounds (c : Relay.t) : Prop :=
  100 ≤ Relay.onTimeMs c ≤ 600000 ∧ 0 ≤ Relay.delayMs c ≤ 600000
  ∧ 0 ≤ Relay.pulseMs c ≤ 5000.

(** The relays object at [l] is complete in [h]: it exists, and so does
    the configuration object of each of its relays. *)
Definition snapshotOk (h : gmap nat cell) (l : nat) : Prop :=
  ∃ ps, h !! l = Some (CRelays ps) ∧
        Forall (fun p : string * nat => is_Some (readConfig h (snd p))) ps.

(** Exactly the interval timer that [intervalId] names is live. *)
Definition timerInv (w : World) : Prop :=
  timers w = match intervalId w with
             | Some h => {[h]}
             | None => ∅
             end.

(** One step of the service: a tick of the interval, or a request. *)
Inductive step : World → World → Prop :=
  | step_tick w now :
      step w (calculateAndBroadcastRelayStates now w).1
  | step_order w ok t now :
      step w (webhookOrder ok t now w).1.1
  | step_settings w a r now :
      step w (postSettings a r now w).1.1
  | step_test w id t now :
      step w (testRelayCommand id t now w).1.1
  | step_deactivate w now :
      step w (deactivateAlarm now w).1.1.

(** The worlds the service can be in: it starts with no timer, whatever
    settings were loaded, and then makes steps. *)
Inductive reachable : World → Prop :=
  | reach_start w :
      intervalId w = None → timers w = ∅ → reachable w
  | reach_step w w' :
      reachable w → step w w' → reachable w'.

(* ================================================================== *)
(** * Sample runs *)
(* ================================================================== *)

(** A request body for the settings handler. *)
Definition relayBody (onT del pul : Z) (en : bool) : jsval :=
  JObj [("onTimeMs", JNum onT); ("delayMs", JNum del);
        ("pulseMs", JNum pul); ("enabled", JBool en)].

(** The default configuration, as a body. *)
Definition defaultBody : jsval :=
  JObj [("1", relayBody 5000 0 0 true); ("2", relayBody 5000 1000 0 true);
        ("3", relayBody 5000 2000 0 true); ("4", relayBody 5000 3000 0 true)].

(** An order arrives at time 0 in the initial state. *)
Definition orderedWorld : World := (webhookOrder true 0 0 initialWorld).1.1.

(** ... and the alarm is then switched off from the dashboard at 100. *)
Definition disarmedWorld : World :=
  (postSettings (JBool false) defaultBody 100 orderedWorld).1.1.

(** ... or relay 3 is tested at 7900, 100 ms before the last relay of
    the order ends. *)
Definition testedWorld : World :=
  (testRelayCommand "3" 7900 7900 orderedWorld).1.1.

(** Relay 1 is tested at time 0 in the initial state. *)
Definition testStartedWorld : World :=
  (testRelayCommand "1" 0 0 initialWorld).1.1.

(** Every relay is disabled from the dashboard, and an order then arrives
    at 10: the state the order handler evaluates. *)
Definition disabledBody : jsval :=
  JObj [("1", relayBody 5000 0 0 false); ("2", relayBody 5000 1000 0 false);
        ("3", relayBody 5000 2000 0 false); ("4", relayBody 5000 3000 0 false)].

Definition allDisabledWorld : World :=
  (postSettings (JBool true) disabledBody 0 initialWorld).1.1.

Definition idleOrderWorld : World := armTrigger order 10 allDisabledWorld.

(** The alarm is switched off from the dashboard in the initial state. *)
Definition quietWorld : World :=
  (postSettings (JBool false) defaultBody 0 initialWorld).1.1.

(** A body that changes the duration of relay 1. *)
Definition retimedBody : jsval :=
  JObj [("1", relayBody 100 0 0 true); ("2", relayBody 5000 1000 0 true);
        ("3", relayBody 5000 2000 0 true); ("4", relayBody 5000 3000 0 true)].

(** A body with four relays, in bounds, under ids that are not relays. *)
Definition foreignBody : jsval :=
  JObj [("5", relayBody 5000 0 0 true); ("6", relayBody 5000 1000 0 true);
        ("7", relayBody 5000 2000 0 true); ("8", relayBody 5000 3000 0 true)].

(** A state as it could be loaded from a settings file written by hand:
    a test of a relay 7, which the test-relay command never creates. *)
Definition strayTestWorld : World :=
  mkWorld (setTestRelay (alarmSettings initialWorld) (Test.mk (Some 7) 500 0 0))
          None (heap initialWorld) ∅.

(** Every relay of a configuration is within the bounds. *)
Definition allInBounds (cfg : obj Relay.t) : Prop :=
  Forall (fun kc : string * Relay.t => configInBounds (snd kc)) cfg.

(** The configurations a world holds are complete objects within the
    bounds: the live one, and the snapshot of the trigger if there is
    one. *)
Definition configOk (w : World) : Prop :=
  snapshotOk (heap w) (relays (alarmSettings w))
  ∧ allInBounds (readRelays (heap w) (relays (alarmSettings w)))
  ∧ ∀ tr, activeTrigger (alarmSettings w) = Some tr →
          snapshotOk (heap w) (Trigger.relayConfig tr)
          ∧ allInBounds (readRelays (heap w) (Trigger.relayConfig tr)).

(* ================================================================== *)
(** * Users and login *)
(* ================================================================== *)

(** JavaScript truthiness of a parsed value. *)
Definition truthy (v : jsval) : bool :=
  match v with
  | JUndefined | JNull => false
  | JBool b => b
  | JNum n => negb (n =? 0)
  | JStr s => negb (bool_decide (s = EmptyString))
  | JArr _ | JObj _ => true
  end.

(** [a === b] for two values that were parsed separately (a field of a
    user of the users file and a field of a request body): primitives
    are compared by value, and two objects or arrays are never the same
    object. *)
Definition strictEq (a b : jsval) : bool :=
  match a, b with
  | JUndefined, JUndefined => true
  | JNull, JNull => true
  | JBool x, JBool y => bool_decide (x = y)
  | JNum x, JNum y => bool_decide (x = y)
  | JStr x, JStr y => bool_decide (x = y)
  | _, _ => false
  end.

(** What [loadUsers] finds on disk: no file, a file whose reading or
    parsing raises, or a parsed value. *)
Inductive UsersFile :=
  | UsersMissing
  | UsersUnreadable
  | UsersParsed (v : jsval).

(** [u => u.username] applied to every element, as [users.map] does
    inside the log line; [false] when it raises. *)
Definition usernamesReadable (xs : list jsval) : bool :=
  forallb (fun u => bool_decide (is_Some (getProp u "username"))) xs.

(** [loadUsers]: the value of [users] it leaves.  The log line
    [users.map(u => u.username)] sits inside the [try]: when the parsed
    value is not an array, or has a [null] element, it raises and the
    handler resets [users] to the empty array. *)
Definition loadUsers (file : UsersFile) : list jsval :=
  match file with
  | UsersParsed (JArr xs) => if usernamesReadable xs then xs else []
  | _ => []
  end.

(** [users.find(u => u.username === username)]: [None] when the callback
    raises, [Some None] for [undefined]. *)
Fixpoint findUser (users : list jsval) (username : jsval)
  : option (option jsval) :=
  match users with
  | [] => Some None
  | u :: users' =>
      match getProp u "username" with
      | None => None
      | Some v =>
          if strictEq v username then Some (Some u)
          else findUser users' username
      end
  end.

Inductive LoginResult :=
  | LoginRedirectRoot
  | LoginRedirectError
  | LoginRaised.

(** [POST /login] with body [{ username, password }]; [session] is
    [req.session.isAuthenticated].  The result is the flag afterwards and
    the response. *)
Definition postLogin (users : list jsval) (username password : jsval)
    (session : bool) : bool * LoginResult :=
  match findUser users username with
  | None => (session, LoginRaised)
  | Some None => (session, LoginRedirectError)
  | Some (Some user) =>
      if truthy user then
        match getProp user "password" with
        | None => (session, LoginRaised)
        | Some pw =>
            if strictEq pw password then (true, LoginRedirectRoot)
            else (session, LoginRedirectError)
        end
      else (session, LoginRedirectError)
  end.

Inductive Route := RouteRoot | RouteDashboard | RouteLogin.

Inductive View := DashboardHtml | LoginHtml.

Inductive PageResult :=
  | RedirectTo (to : Route)
  | SendFile (v : View).

(** [GET /], [GET /dashboard] and [GET /login]. *)
Definition getPage (route : Route) (session : bool) : PageResult :=
  match route with
  | RouteRoot =>
      if session then RedirectTo RouteDashboard else RedirectTo RouteLogin
  | RouteDashboard =>
      if negb session then RedirectTo RouteLogin else SendFile DashboardHtml
  | RouteLogin =>
      if session then RedirectTo RouteDashboard else SendFile LoginHtml
  end.

(** The middleware [isAuthenticated] in front of a dashboard command:
    [None] is the redirection to the login page, without the handler
    being run. *)
Definition isAuthenticated {A} (session : bool) (next : A) : option A :=
  if session then Some next else None.

(* ================================================================== *)
(** * The settings file *)
(* ================================================================== *)

(** A value in memory while the settings are loaded: what [JSON.parse]
    returns (no [undefined], arrays without named properties, objects
    with their properties in enumeration order), and what the loader's
    assignments can make of it (an array can be given named
    properties).  Numbers are the integers, as everywhere else. *)
#[warnings="-register-all"]
Inductive jv :=
  | VUndefined
  | VNull
  | VBool (b : bool)
  | VNum (n : Z)
  | VStr (s : string)
  | VArr (items : list jv) (named : obj jv)
  | VObj (props : obj jv).

Definition vTruthy (v : jv) : bool :=
  match v with
  | VUndefined | VNull => false
  | VBool b => b
  | VNum n => negb (n =? 0)
  | VStr s => negb (bool_decide (s = EmptyString))
  | VArr _ _ | VObj _ => true
  end.

(** [a || b]. *)
Definition vOr (a b : jv) : jv := if vTruthy a then a else b.

(** [v !== undefined ? v : d]. *)
Definition vDefined (v d : jv) : jv :=
  match v with
  | VUndefined => d
  | _ => v
  end.

(** The character of [s] at [n], as a string of length one. *)
Definition charAt (s : string) (n : nat) : jv :=
  match String.get n s with
  | Some c => VStr (String c EmptyString)
  | None => VUndefined
  end.

(** [v[k]] and [v.k] for the names the loader reads ([relays], the relay
    ids, [pulseMs], [enabled], [testRelay], [id], [onTimeMs],
    [timestamp]; none is a property of a prototype); [None] is the
    [TypeError] of reading a property of [null] or [undefined]. *)
Definition vMember (v : jv) (k : string) : option jv :=
  match v with
  | VUndefined | VNull => None
  | VObj ps => Some (default VUndefined (jsGet k ps))
  | VArr xs named =>
      match arrayIndex k with
      | Some n => Some (default VUndefined (xs !! N.to_nat n))
      | None =>
          if bool_decide (k = "length") then Some (VNum (Z.of_nat (length xs)))
          else Some (default VUndefined (jsGet k named))
      end
  | VStr s =>
      match arrayIndex k with
      | Some n => Some (charAt s (N.to_nat n))
      | None =>
          if bool_decide (k = "length")
          then Some (VNum (Z.of_nat (String.length s)))
          else Some VUndefined
      end
  | VBool _ | VNum _ => Some VUndefined
  end.

(** The object [e] after [e.k = x], for [k] one of [pulseMs] and
    [enabled]: an object or an array takes the property; on a primitive
    the assignment has no effect (the module is not in strict mode);
    [None] is the [TypeError] on [null] and [undefined]. *)
Definition vAssign (e : jv) (k : string) (x : jv) : option jv :=
  match e with
  | VUndefined | VNull => None
  | VObj ps => Some (VObj (jsSet k x ps))
  | VArr xs named => Some (VArr xs (jsSet k x named))
  | _ => Some e
  end.

(** The value [rel] once the object it holds under [key] has become
    [e']: the loader changes that object in place. *)
Definition vUpdated (rel : jv) (key : string) (e' : jv) : jv :=
  match rel with
  | VObj ps => VObj (jsReplace key e' ps)
  | VArr xs named =>
      match arrayIndex key with
      | Some n => VArr (<[N.to_nat n := e']> xs) named
      | None => VArr xs (jsReplace key e' named)
      end
  | _ => rel
  end.

(** The own enumerable properties, as a spread copies them (a string
    gives one property per character; the characters here are bytes,
    JavaScript's are UTF-16 code units). *)
Definition vOwnProps (v : jv) : obj jv :=
  match v with
  | VObj ps => ps
  | VArr xs named => imap (fun i x => (pretty i, x)) xs ++ named
  | VStr s =>
      imap (fun i c => (pretty i, VStr (String c EmptyString)))
           (String.list_ascii_of_string s)
  | _ => []
  end.

(** [{ ...a, ...b }] for an object [a]. *)
Definition vSpread (a : obj jv) (b : jv) : obj jv :=
  foldl (fun acc p => jsSet (fst p) (snd p) acc) a (vOwnProps b).

(** The initial [alarmSettings] literal as a value. *)
Definition relayValue (onT del pul : Z) (en : bool) : jv :=
  VObj [("onTimeMs", VNum onT); ("delayMs", VNum del);
        ("pulseMs", VNum pul); ("enabled", VBool en)].

Definition clearedTestValue : jv :=
  VObj [("id", VNull); ("onTimeMs", VNum 0); ("pulseMs", VNum 0);
        ("timestamp", VNum 0)].

Definition initialSettingsValue : obj jv :=
  [("alarmEnabled", VBool true);
   ("relays",
    VObj [("1", relayValue 5000 0 0 true); ("2", relayValue 5000 1000 0 true);
          ("3", relayValue 5000 2000 0 true);
          ("4", relayValue 5000 3000 0 true)]);
   ("activeTrigger", VNull);
   ("testRelay", clearedTestValue);
   ("currentRelayStates",
    VObj [("1", VBool false); ("2", VBool false); ("3", VBool false);
          ("4", VBool false)]);
   ("triggerActive", VBool false)].

(** One turn of the loop [for (const key in alarmSettings.relays)]:
    [loaded] afterwards, [None] when the turn raises. *)
Definition defaultRelayFields (loaded : jv) (key : string) : option jv :=
  match vMember loaded "relays" with
  | None => None
  | Some rel =>
      if vTruthy rel then
        match vMember rel key with
        | None => None
        | Some e =>
            if vTruthy e then
              match vMember e "pulseMs" with
              | None => None
              | Some p =>
                  match vAssign e "pulseMs" (vDefined p (VNum 0)) with
                  | None => None
                  | Some e1 =>
                      match vMember e1 "enabled" with
                      | None => None
                      | Some en =>
                          match vAssign e1 "enabled"
                                  (vDefined en (VBool true)) with
                          | None => None
                          | Some e2 =>
                              match loaded with
                              | VObj lps =>
                                  Some (VObj (jsReplace "relays"
                                                (vUpdated rel key e2) lps))
                              | VArr xs named =>
                                  Some (VArr xs
                                          (jsReplace "relays"
                                             (vUpdated rel key e2) named))
                              | _ => Some loaded
                              end
                          end
                      end
                  end
              end
            else Some loaded
        end
      else Some loaded
  end.

Fixpoint defaultRelaysLoop (loaded : jv) (keys : list string) : option jv :=
  match keys with
  | [] => Some loaded
  | key :: keys' =>
      match defaultRelayFields loaded key with
      | None => None
      | Some loaded' => defaultRelaysLoop loaded' keys'
      end
  end.

(** The object literal assigned to [alarmSettings.testRelay]; [None]
    when [alarmSettings.testRelay] is [null] or [undefined]. *)
Definition normalizedTest (t : jv) : option jv :=
  match vMember t "id", vMember t "onTimeMs", vMember t "pulseMs",
        vMember t "timestamp" with
  | Some i, Some o, Some p, Some ts =>
      Some (VObj [("id", vOr i VNull); ("onTimeMs", vOr o (VNum 0));
                  ("pulseMs", vDefined p (VNum 0));
                  ("timestamp", vOr ts (VNum 0))])
  | _, _, _, _ => None
  end.

(** What [loadSettings] finds on disk. *)
Inductive SettingsFile :=
  | SettingsMissing
  | SettingsUnreadable
  | SettingsParsed (loaded : jv).

(** How [loadSettings] ends: without a file it calls [saveSettings] and
    leaves [alarmSettings] alone; an exception before the merge leaves
    it alone too; an exception after the merge leaves the merged object;
    otherwise [alarmSettings] is the merged object with its [testRelay]
    rebuilt. *)
Inductive LoadOutcome :=
  | DefaultsSaved
  | DefaultsKept
  | MergedThenRaised (s : obj jv)
  | Loaded (s : obj jv).

(** [loadSettings], called once, at start-up, when [alarmSettings] is the
    initial literal. *)
Definition loadSettings (file : SettingsFile) : LoadOutcome :=
  match file with
  | SettingsMissing => DefaultsSaved
  | SettingsUnreadable => DefaultsKept
  | SettingsParsed loaded =>
      match vMember (VObj initialSettingsValue) "relays" with
      | Some relays0 =>
          match defaultRelaysLoop loaded (jsKeys (vOwnProps relays0)) with
          | None => DefaultsKept
          | Some loaded' =>
              let merged := vSpread initialSettingsValue loaded' in
              match normalizedTest (default VUndefined
                                      (jsGet "testRelay" merged)) with
              | None => MergedThenRaised merged
              | Some t => Loaded (jsSet "testRelay" t merged)
              end
          end
      | None => DefaultsKept
      end
  end.

(** What [saveSettings] writes, as [JSON.parse] reads it back, for
    settings whose relays are objects of the four fields (a relays
    array, or further properties, that a request left in
    [alarmSettings] would be written as they are). *)
Definition relayJson (c : Relay.t) : jv :=
  relayValue (Relay.onTimeMs c) (Relay.delayMs c) (Relay.pulseMs c)
             (Relay.enabled c).

Definition relaysJson (cfg : obj Relay.t) : jv :=
  VObj (map (fun kc => (fst kc, relayJson (snd kc))) cfg).

Definition sourceJson (src : Source) : jv :=
  match src with
  | order => VStr "order"
  | test => VStr "test"
  end.

Definition triggerJson (h : gmap nat cell) (tr : option Trigger.t) : jv :=
  match tr with
  | None => VNull
  | Some t =>
      VObj [("source", sourceJson (Trigger.source t));
            ("timestamp", VNum (Trigger.timestamp t));
            ("relayConfig", relaysJson (readRelays h (Trigger.relayConfig t)))]
  end.

Definition testJson (t : Test.t) : jv :=
  VObj [("id", match Test.id t with Some i => VNum i | None => VNull end);
        ("onTimeMs", VNum (Test.onTimeMs t));
        ("pulseMs", VNum (Test.pulseMs t));
        ("timestamp", VNum (Test.timestamp t))].

Definition statesJson (st : obj bool) : jv :=
  VObj (map (fun kb => (fst kb, VBool (snd kb))) st).

Definition savedSettings (h : gmap nat cell) (s : AlarmSettings) : obj jv :=
  [("alarmEnabled", VBool (alarmEnabled s));
   ("relays", relaysJson (readRelays h (relays s)));
   ("activeTrigger", triggerJson h (activeTrigger s));
   ("testRelay", testJson (testRelay s));
   ("currentRelayStates", statesJson (currentRelayStates s));
   ("triggerActive", VBool (triggerActive s))].


(** [alarmSettings] once [loadSettings] has returned. *)
Definition loadedSettings (file : SettingsFile) : obj jv :=
  match loadSettings file with
  | Loaded s | MergedThenRaised s => s
  | DefaultsSaved | DefaultsKept => initialSettingsValue
  end.

(** [null] or [undefined]: the values whose properties cannot be read. *)
Definition nullish (v : jv) : Prop := v = VNull ∨ v = VUndefined.

(** A relay entry of the file after the loader's two assignments. *)
Definition withRelayDefaults (e : obj jv) : obj jv :=
  let e1 :=
    jsSet "pulseMs"
      (vDefined (default VUndefined (jsGet "pulseMs" e)) (VNum 0)) e in
  jsSet "enabled"
    (vDefined (default VUndefined (jsGet "enabled" e1)) (VBool true)) e1.

(** A file written before [pulseMs], [enabled] and [testRelay] existed,
    with two of the four relays and an entry under a fifth id. *)
Definition legacyFile : obj jv :=
  [("alarmEnabled", VBool false);
   ("relays",
    VObj [("1", VObj [("onTimeMs", VNum 3000); ("delayMs", VNum 0)]);
          ("2", VObj [("onTimeMs", VNum 3000); ("delayMs", VNum 500);
                      ("enabled", VBool false)]);
          ("5", VObj [("onTimeMs", VNum 1)])])].

(** A file whose [testRelay] is [null], and whose [alarmEnabled] is a
    string. *)
Definition nullTestFile : obj jv :=
  [("alarmEnabled", VStr "no"); ("testRelay", VNull)].

(* ================================================================== *)
(** * JavaScript numbers *)
(* ================================================================== *)

(** A JavaScript number is an IEEE 754 double.  A finite one is
    [m * 2^e] for integers [m] and [e] (several pairs stand for one
    value: every operation below depends on the value only); the sign of
    zero, which no comparison sees, is not kept.  The results of [+], [-]
    and [*] are rounded to the nearest double, ties to even; [%] and the
    comparisons are exact. *)
Module F64.

Inductive t :=
  | NaN
  | Inf (negative : bool)
  | Fin (m e : Z).

(** [m / 2^k] rounded to the nearest integer, ties to the even one
    ([k > 0]). *)
Definition roundShift (m k : Z) : Z :=
  let q := m / 2 ^ k in
  let r := m `mod` 2 ^ k in
  let half := 2 ^ (k - 1) in
  if r <? half then q
  else if half <? r then q + 1
  else if Z.even q then q else q + 1.

(** The double nearest to [m * 2^e]: a significand of at most 53 bits
    over an exponent of at least -1074; a result of magnitude [2^1024] or
    more is an infinity. *)
Definition round (m e : Z) : t :=
  if m =? 0 then Fin 0 0
  else
    let k := Z.max (Z.log2 (Z.abs m) - 52) (- 1074 - e) in
    let m' := if 0 <? k then roundShift m k else m in
    let e' := if 0 <? k then e + k else e in
    if m' =? 0 then Fin 0 0
    else if 1024 <=? Z.log2 (Z.abs m') + e' then Inf (m' <? 0)
    else Fin m' e'.

(** An integer as a number: itself when its magnitude is below [2^53]. *)
Definition ofZ (n : Z) : t := round n 0.

(** The exact value of a finite number. *)
Definition toQ (x : t) : Q :=
  match x with
  | Fin m e =>
      if 0 <=? e then inject_Z (m * 2 ^ e)
      else Qmake m (Z.to_pos (2 ^ (- e)))
  | NaN | Inf _ => 0%Q
  end.

Definition opp (x : t) : t :=
  match x with
  | NaN => NaN
  | Inf s => Inf (negb s)
  | Fin m e => Fin (- m) e
  end.

(** [x + y]. *)
Definition add (x y : t) : t :=
  match x, y with
  | NaN, _ | _, NaN => NaN
  | Inf s, Inf s' => if Bool.eqb s s' then Inf s else NaN
  | Inf s, Fin _ _ | Fin _ _, Inf s => Inf s
  | Fin m1 e1, Fin m2 e2 =>
      let e := Z.min e1 e2 in
      round (m1 * 2 ^ (e1 - e) + m2 * 2 ^ (e2 - e)) e
  end.

(** [x - y]. *)
Definition sub (x y : t) : t := add x (opp y).

(** [x * y]. *)
Definition mul (x y : t) : t :=
  match x, y with
  | NaN, _ | _, NaN => NaN
  | Inf s, Inf s' => Inf (xorb s s')
  | Inf s, Fin m _ | Fin m _, Inf s =>
      if m =? 0 then NaN else Inf (xorb s (m <? 0))
  | Fin m1 e1, Fin m2 e2 => round (m1 * m2) (e1 + e2)
  end.

(** [x % y]: the remainder of the truncated division, with the sign of
    [x]; it is a double, so nothing is rounded. *)
Definition rem (x y : t) : t :=
  match x, y with
  | NaN, _ | _, NaN => NaN
  | Inf _, _ => NaN
  | Fin _ _, Inf _ => x
  | Fin m1 e1, Fin m2 e2 =>
      if m2 =? 0 then NaN
      else
        let e := Z.min e1 e2 in
        Fin (Z.rem (m1 * 2 ^ (e1 - e)) (m2 * 2 ^ (e2 - e))) e
  end.

(** [x < y]; a comparison with [NaN] is false. *)
Definition ltb (x y : t) : bool :=
  match x, y with
  | NaN, _ | _, NaN => false
  | Inf s, Inf s' => s && negb s'
  | Inf s, Fin _ _ => s
  | Fin _ _, Inf s => negb s
  | Fin m1 e1, Fin m2 e2 =>
      let e := Z.min e1 e2 in
      m1 * 2 ^ (e1 - e) <? m2 * 2 ^ (e2 - e)
  end.

(** [x > y]. *)
Definition gtb (x y : t) : bool := ltb y x.

(** [x >= y]. *)
Definition geb (x y : t) : bool :=
  match x, y with
  | NaN, _ | _, NaN => false
  | _, _ => negb (ltb x y)
  end.

End F64.

(* ================================================================== *)
(** * The main block in double arithmetic *)
(* ================================================================== *)

(** "Handle the main active trigger" as the code computes it, on relay
    durations that are any doubles.  The trigger holds its relay
    configuration by value: the block only reads it.  [now] and the
    trigger's [timestamp] are readings of [Date.now()], integers. *)
Module Dbl.

Module Relay.
Record t := mk {
  onTimeMs : F64.t;
  delayMs : F64.t;
  pulseMs : F64.t;
  enabled : bool
}.
End Relay.

Module Trigger.
Record t := mk {
  source : Source;
  timestamp : Z;
  relayConfig : obj Relay.t
}.
End Trigger.

(** The body of the [for ... in] loop for one relay. *)
Definition relayState (now ts : Z) (config : Relay.t) : bool :=
  if negb (Relay.enabled config) then false
  else
    let elapsed := F64.sub (F64.ofZ now) (F64.ofZ ts) in
    let effectiveEndTime :=
      F64.add (Relay.delayMs config) (Relay.onTimeMs config) in
    if F64.geb elapsed (Relay.delayMs config)
       && F64.ltb elapsed effectiveEndTime
    then
      if F64.gtb (Relay.pulseMs config) (F64.ofZ 0) then
        let pulseCycleTime := F64.mul (Relay.pulseMs config) (F64.ofZ 2) in
        let timeInWindow := F64.sub elapsed (Relay.delayMs config) in
        if F64.ltb (F64.rem timeInWindow pulseCycleTime) (Relay.pulseMs config)
        then true else false
      else true
    else false.

Definition relayLoop (now ts : Z) (cfg : obj Relay.t) (st : obj bool)
  : obj bool :=
  foldl (fun st relayId =>
           match jsGet relayId cfg with
           | Some config => jsSet relayId (relayState now ts config) st
           | None => st
           end) st (jsKeys cfg).

(** The callback of [Object.keys(...).every]. *)
Definition relayFinished (now ts : Z) (config : Relay.t) : bool :=
  if negb (Relay.enabled config) then true
  else
    F64.geb (F64.ofZ now)
            (F64.add (F64.add (F64.ofZ ts) (Relay.delayMs config))
                     (Relay.onTimeMs config)).

Definition allEnabledTriggerRelaysFinished (now ts : Z) (cfg : obj Relay.t)
  : bool :=
  forallb (fun relayId =>
             match jsGet relayId cfg with
             | Some config => relayFinished now ts config
             | None => true
             end) (jsKeys cfg).

(** The values of [updatedRelayStates], [newTriggerActive] and
    [alarmSettings.activeTrigger] after the block. *)
Definition mainTrigger (now : Z) (alarmEnabled : bool)
    (activeTrigger : option Trigger.t)
  : obj bool * bool * option Trigger.t :=
  match activeTrigger with
  | Some tr =>
      if alarmEnabled then
        let cfg := Trigger.relayConfig tr in
        let updatedRelayStates :=
          relayLoop now (Trigger.timestamp tr) cfg allOff in
        if allEnabledTriggerRelaysFinished now (Trigger.timestamp tr) cfg
        then (allOff, false, None)
        else (updatedRelayStates, true, activeTrigger)
      else (allOff, false, activeTrigger)
  | None => (allOff, false, None)
  end.

(** The relay states after the block. *)
Definition mainStates (now : Z) (alarmEnabled : bool)
    (activeTrigger : option Trigger.t) : obj bool :=
  (mainTrigger now alarmEnabled activeTrigger).1.1.

End Dbl.

(** A whole-millisecond configuration as the doubles it is. *)
Definition doubleRelay (c : Relay.t) : Dbl.Relay.t :=
  Dbl.Relay.mk (F64.ofZ (Relay.onTimeMs c)) (F64.ofZ (Relay.delayMs c))
               (F64.ofZ (Relay.pulseMs c)) (Relay.enabled c).

Definition doubleRelays (cfg : obj Relay.t) : obj Dbl.Relay.t :=
  map (fun kc => (fst kc, doubleRelay (snd kc))) cfg.

(** A trigger with the relay configuration its reference leads to. *)
Definition doubleTrigger (h : gmap nat cell) (tr : Trigger.t)
  : Dbl.Trigger.t :=
  Dbl.Trigger.mk (Trigger.source tr) (Trigger.timestamp tr)
                 (doubleRelays (readRelays h (Trigger.relayConfig tr))).

(* ================================================================== *)
(** * Whole milliseconds and exact values *)
(* ================================================================== *)

(** A whole number of milliseconds small enough for the sums and
    differences of the main block to be exact in double arithmetic: a
    magnitude of at most [2^51] (the clock passes it in the year
    73326). *)
Definition wholeMs (n : Z) : Prop := - 2 ^ 51 ≤ n ≤ 2 ^ 51.

(** The durations of a relay are such whole numbers.  (The dashboard
    sends whole numbers: its script reads the three fields with
    [parseInt]; the settings command itself accepts any number within
    the bounds.) *)
Definition wholeConfig (c : Relay.t) : Prop :=
  wholeMs (Relay.onTimeMs c) ∧ wholeMs (Relay.delayMs c)
  ∧ wholeMs (Relay.pulseMs c).

Definition wholeRelays (cfg : obj Relay.t) : Prop :=
  ∀ k c, jsGet k cfg = Some c → wholeConfig c.

Definition wholeTrigger (h : gmap nat cell) (tr : Trigger.t) : Prop :=
  wholeMs (Trigger.timestamp tr)
  ∧ wholeRelays (readRelays h (Trigger.relayConfig tr)).

(** The rule of the specification on the exact values of a relay's
    durations (finite doubles): inside the window and, when it pulses,
    in the first half of the period. *)
Definition exactOn (elapsed : Z) (dc : Dbl.Relay.t) : Prop :=
  let d := F64.toQ (Dbl.Relay.delayMs dc) in
  let o := F64.toQ (Dbl.Relay.onTimeMs dc) in
  let p := F64.toQ (Dbl.Relay.pulseMs dc) in
  let x := (inject_Z elapsed - d)%Q in
  (d <= inject_Z elapsed)%Q ∧ (inject_Z elapsed < d + o)%Q ∧
  ((0 < p)%Q → (x - 2 * p * inject_Z (Qfloor (x / (2 * p))) < p)%Q).

(** The relay's end, [startedAt + delayMs + onTimeMs] on the exact
    values, is not after [now]. *)
Definition exactFinished (now ts : Z) (dc : Dbl.Relay.t) : Prop :=
  (inject_Z ts + F64.toQ (Dbl.Relay.delayMs dc)
   + F64.toQ (Dbl.Relay.onTimeMs dc) <= inject_Z now)%Q.

(** Two triggers started at 1762051200000 whose first relay has a
    duration that is not a whole number of milliseconds, the other three
    relays being disabled; the settings command accepts both
    configurations.  In the first, [onTimeMs] is the double nearest to
    100.0001; in the second, [delayMs] is the double nearest to
    5.00000000005, with [pulseMs] 4096. *)
Definition disabledRelay : Dbl.Relay.t :=
  Dbl.Relay.mk (F64.ofZ 5000) (F64.ofZ 0) (F64.ofZ 0) false.

(** The trigger of [orderedWorld], by value. *)
Definition orderedTrigger : Dbl.Trigger.t :=
  Dbl.Trigger.mk order 0 (doubleRelays defaultRelays).

Definition fractionalDurationTrigger : Dbl.Trigger.t :=
  Dbl.Trigger.mk order 1762051200000
    [("1", Dbl.Relay.mk (F64.Fin 3518440727320409 (-45)) (F64.ofZ 0)
                        (F64.ofZ 0) true);
     ("2", disabledRelay); ("3", disabledRelay); ("4", disabledRelay)].

Definition fractionalDelayTrigger : Dbl.Trigger.t :=
  Dbl.Trigger.mk order 1762051200000
    [("1", Dbl.Relay.mk (F64.ofZ 600000) (F64.Fin 5629499534269415 (-50))
                        (F64.ofZ 4096) true);
     ("2", disabledRelay); ("3", disabledRelay); ("4", disabledRelay)].

(* ================================================================== *)
(** * Properties *)
(* ================================================================== *)

(** ** Objects *)

Section JsObjectFacts.
Context {A : Type}.
Implicit Types (o : obj A) (k : string) (v : A).

Lemma jsGet_replace_eq k v o :
  is_Some (jsGet k o) → jsGet k (jsReplace k v o) = Some v.
Proof.
  induction o as [|[k' v'] o IH]; simpl; intros H.
  - by destruct H.
  - case_bool_decide; simpl.
    + by rewrite bool_decide_true.
    + rewrite bool_decide_false; auto.
Qed.

Lemma jsGet_replace_ne k k' v o :
  k ≠ k' → jsGet k' (jsReplace k v o) = jsGet k' o.
Proof.
  intros Hne. induction o as [|[k0 v0] o IH]; simpl; [done|].
  case_bool_decide as Hk; simpl.
  - subst k0. by rewrite !bool_decide_false by congruence.
  - case_bool_decide; [done | apply IH].
Qed.

Lemma jsGet_insertIndex_eq n k v o :
  jsGet k o = None → jsGet k (jsInsertIndex n k v o) = Some v.
Proof.
  induction o as [|[k0 v0] o IH]; simpl.
  - by rewrite bool_decide_true.
  - case_bool_decide as Hk; [done|]. intros Hget.
    destruct (arrayIndex k0) as [m|]; [destruct (m <? n)%N|]; simpl;
      rewrite ?bool_decide_true by done; try done.
    rewrite bool_decide_false by done. auto.
Qed.

Lemma jsGet_insertIndex_ne n k k' v o :
  k ≠ k' → jsGet k' (jsInsertIndex n k v o) = jsGet k' o.
Proof.
  intros Hne. induction o as [|[k0 v0] o IH]; simpl.
  - by rewrite bool_decide_false by congruence.
  - destruct (arrayIndex k0) as [m|]; [destruct (m <? n)%N|]; simpl;
      rewrite ?(bool_decide_false (k' = k)) by congruence; try done.
    case_bool_decide; [done | apply IH].
Qed.

Lemma jsGet_app k o1 o2 :
  jsGet k (o1 ++ o2) =
  match jsGet k o1 with Some v => Some v | None => jsGet k o2 end.
Proof.
  induction o1 as [|[k0 v0] o1 IH]; simpl; [done|].
  by case_bool_decide.
Qed.

Lemma jsGet_set_eq k v o : jsGet k (jsSet k v o) = Some v.
Proof.
  unfold jsSet. destruct (jsGet k o) as [v0|] eqn:Hget.
  - apply jsGet_replace_eq. by rewrite Hget.
  - destruct (arrayIndex k) as [n|].
    + by apply jsGet_insertIndex_eq.
    + rewrite jsGet_app, Hget. simpl. by rewrite bool_decide_true.
Qed.

Lemma jsGet_set_ne k k' v o : k ≠ k' → jsGet k' (jsSet k v o) = jsGet k' o.
Proof.
  intros Hne. unfold jsSet. destruct (jsGet k o) as [v0|] eqn:Hget.
  - by apply jsGet_replace_ne.
  - destruct (arrayIndex k) as [n|].
    + by apply jsGet_insertIndex_ne.
    + rewrite jsGet_app. destruct (jsGet k' o); [done|]. simpl.
      by rewrite bool_decide_false by congruence.
Qed.

Lemma jsReplace_same k v o : jsGet k o = Some v → jsReplace k v o = o.
Proof.
  induction o as [|[k0 v0] o IH]; simpl; [done|].
  case_bool_decide as Hk; intros Hg; [by simplify_eq | by rewrite IH].
Qed.

(** Writing the value a property already has leaves the object as it
    is. *)
Lemma jsSet_same k v o : jsGet k o = Some v → jsSet k v o = o.
Proof. intros H. unfold jsSet. rewrite H. by apply jsReplace_same. Qed.

Lemma jsGet_keys k o : is_Some (jsGet k o) ↔ k ∈ jsKeys o.
Proof.
  unfold jsKeys. induction o as [|[k0 v0] o IH]; simpl.
  - split; [by intros [] | by intros ?%elem_of_nil].
  - rewrite elem_of_cons. case_bool_decide as Hk.
    + split; [by left | by eauto].
    + rewrite IH. split; [by right | by intros [?|?]].
Qed.
End JsObjectFacts.

Example jsSet_order :
  jsSet "0" true (jsSet "b" false (jsSet "7" true [("1", false); ("a", true)]))
  = [("0", true); ("1", false); ("7", true); ("a", true); ("b", false)].
Proof. vm_compute. reflexivity. Qed.

Lemma stateOf_set_eq k v st : stateOf k (jsSet k v st) = v.
Proof. unfold stateOf. by rewrite jsGet_set_eq. Qed.

Lemma stateOf_set_ne k k' v st :
  k ≠ k' → stateOf k' (jsSet k v st) = stateOf k' st.
Proof. intros H. unfold stateOf. by rewrite jsGet_set_ne. Qed.

(** ** The main trigger, relay by relay *)

Lemma relayState_true now ts c :
  relayState now ts c = true ↔
  Relay.enabled c = true ∧ mainOn (now - ts) c.
Proof.
  unfold relayState, mainOn, inWindow.
  destruct (Relay.enabled c); simpl; [|by intuition].
  destruct (Z.geb_spec (now - ts) (Relay.delayMs c)) as [Hlo|Hlo]; simpl;
    [|intuition lia].
  destruct (Z.ltb_spec (now - ts) (Relay.delayMs c + Relay.onTimeMs c))
    as [Hhi|Hhi]; [|intuition lia].
  destruct (Z.gtb_spec (Relay.pulseMs c) 0) as [Hp|Hp]; [|intuition lia].
  rewrite Z.rem_mod_nonneg by lia.
  replace (Relay.pulseMs c * 2) with (2 * Relay.pulseMs c) by lia.
  destruct (Z.ltb_spec ((now - ts - Relay.delayMs c) `mod` (2 * Relay.pulseMs c))
              (Relay.pulseMs c)); intuition lia.
Qed.

Lemma relayState_disabled now ts c :
  Relay.enabled c = false → relayState now ts c = false.
Proof. intros H. unfold relayState. by rewrite H. Qed.

Lemma relayFinished_true now ts c :
  relayFinished now ts c = true ↔
  (Relay.enabled c = true →
   ts + Relay.delayMs c + Relay.onTimeMs c ≤ now).
Proof.
  unfold relayFinished. destruct (Relay.enabled c); simpl.
  - rewrite Z.geb_le. intuition lia.
  - intuition congruence.
Qed.

Lemma relayFinished_off now ts c :
  relayFinished now ts c = true → relayState now ts c = false.
Proof.
  intros Hfin. destruct (relayState now ts c) eqn:Hst; [|done].
  apply relayState_true in Hst as [Hen [Hwin _]].
  apply relayFinished_true in Hfin; [|done].
  unfold inWindow in Hwin. lia.
Qed.

Lemma relayLoop_fold now ts cfg k ks st :
  jsGet k
    (foldl (fun st relayId =>
              match jsGet relayId cfg with
              | Some config => jsSet relayId (relayState now ts config) st
              | None => st
              end) st ks)
  = match jsGet k cfg with
    | Some c => if bool_decide (k ∈ ks) then Some (relayState now ts c)
                else jsGet k st
    | None => jsGet k st
    end.
Proof.
  revert st. induction ks as [|k0 ks IH]; intros st; cbn [foldl].
  - destruct (jsGet k cfg); [|done]. case_bool_decide as Hin; [|done].
    by apply elem_of_nil in Hin.
  - rewrite IH. destruct (jsGet k cfg) as [c|] eqn:Hk.
    + destruct (decide (k = k0)) as [->|Hne].
      * rewrite Hk, jsGet_set_eq.
        rewrite (bool_decide_true (k0 ∈ k0 :: ks)) by (apply elem_of_cons; by left).
        by case_bool_decide.
      * assert (jsGet k (match jsGet k0 cfg with
                         | Some config => jsSet k0 (relayState now ts config) st
                         | None => st
                         end) = jsGet k st) as ->.
        { destruct (jsGet k0 cfg); [|done]. by apply jsGet_set_ne. }
        apply (f_equal (fun b : bool => if b then _ else _)).
        apply bool_decide_ext. rewrite elem_of_cons. intuition congruence.
    + destruct (jsGet k0 cfg) as [c0|] eqn:Hk0; [|done].
      apply jsGet_set_ne. congruence.
Qed.

(** After the loop, a relay of the snapshot holds the value computed for
    it, and any other property is as it was. *)
Lemma relayLoop_get now ts cfg k st :
  jsGet k (relayLoop now ts cfg st)
  = match jsGet k cfg with
    | Some c => Some (relayState now ts c)
    | None => jsGet k st
    end.
Proof.
  unfold relayLoop. rewrite relayLoop_fold.
  destruct (jsGet k cfg) as [c|] eqn:Hk; [|done].
  rewrite bool_decide_true; [done|]. apply jsGet_keys. by rewrite Hk.
Qed.

Lemma allFinished_true now ts cfg :
  allEnabledTriggerRelaysFinished now ts cfg = true ↔
  ∀ k c, jsGet k cfg = Some c → relayFinished now ts c = true.
Proof.
  unfold allEnabledTriggerRelaysFinished. rewrite forallb_forall. split.
  - intros H k c Hk. specialize (H k).
    rewrite Hk in H. apply H. apply list_elem_of_In, jsGet_keys. by rewrite Hk.
  - intros H k _. destruct (jsGet k cfg) eqn:Hk; [by eapply H | done].
Qed.

Lemma stateOf_allOff k : stateOf k allOff = false.
Proof.
  unfold stateOf, allOff. simpl.
  repeat (case_bool_decide; [done|]). done.
Qed.

(** Under an enabled alarm, a relay of the trigger's snapshot has, after
    the first block, the value the loop body computes for it: the
    completion check only turns off relays that are off already. *)
Lemma mainStates_relay now h s tr k c :
  activeTrigger s = Some tr → alarmEnabled s = true →
  jsGet k (readRelays h (Trigger.relayConfig tr)) = Some c →
  stateOf k (mainStates now h s) = relayState now (Trigger.timestamp tr) c.
Proof.
  intros Htr Hen Hk. unfold mainStates, mainTrigger. rewrite Htr, Hen.
  destruct (allEnabledTriggerRelaysFinished _ _ _) eqn:Hfin; simpl.
  - rewrite stateOf_allOff. symmetry. apply relayFinished_off.
    eapply allFinished_true; eauto.
  - unfold stateOf. by rewrite relayLoop_get, Hk.
Qed.

(** A relay that is on after the first block is a relay of the trigger's
    snapshot, enabled and driven on at that instant. *)
Lemma mainStates_on now h s k :
  stateOf k (mainStates now h s) = true →
  ∃ tr c, activeTrigger s = Some tr ∧ alarmEnabled s = true
          ∧ jsGet k (readRelays h (Trigger.relayConfig tr)) = Some c
          ∧ Relay.enabled c = true
          ∧ mainOn (now - Trigger.timestamp tr) c.
Proof.
  unfold mainStates, mainTrigger.
  destruct (activeTrigger s) as [tr|]; [|by rewrite stateOf_allOff].
  destruct (alarmEnabled s); [|by rewrite stateOf_allOff].
  destruct (allEnabledTriggerRelaysFinished _ _ _); simpl;
    [by rewrite stateOf_allOff|].
  unfold stateOf. rewrite relayLoop_get.
  destruct (jsGet k (readRelays h (Trigger.relayConfig tr))) as [c|] eqn:Hk.
  - intros [Hen Hon]%relayState_true. exists tr, c. done.
  - intros Hon. pose proof (stateOf_allOff k) as Hoff.
    unfold stateOf in Hoff. congruence.
Qed.

(** A relay that is on after the first block is an enabled relay of the
    trigger's snapshot for which the loop body computed on. *)
Lemma mainStates_computed now h s k :
  stateOf k (mainStates now h s) = true →
  ∃ tr c, activeTrigger s = Some tr ∧ alarmEnabled s = true
          ∧ jsGet k (readRelays h (Trigger.relayConfig tr)) = Some c
          ∧ Relay.enabled c = true
          ∧ relayState now (Trigger.timestamp tr) c = true.
Proof.
  unfold mainStates, mainTrigger.
  destruct (activeTrigger s) as [tr|]; [|by rewrite stateOf_allOff].
  destruct (alarmEnabled s); [|by rewrite stateOf_allOff].
  destruct (allEnabledTriggerRelaysFinished _ _ _); simpl;
    [by rewrite stateOf_allOff|].
  unfold stateOf. rewrite relayLoop_get.
  destruct (jsGet k (readRelays h (Trigger.relayConfig tr))) as [c|] eqn:Hk.
  - intros Hon. exists tr, c. repeat split; try done.
    destruct (Relay.enabled c) eqn:Hen; [done|].
    by rewrite relayState_disabled in Hon.
  - intros Hon. pose proof (stateOf_allOff k) as Hoff.
    unfold stateOf in Hoff. congruence.
Qed.

Lemma mainStates_idle now h s :
  activeTrigger s = None ∨ alarmEnabled s = false →
  mainStates now h s = allOff.
Proof.
  intros H. unfold mainStates, mainTrigger.
  destruct (activeTrigger s); [|done].
  destruct H as [H|H]; [done | by rewrite H].
Qed.

(** ** The stages of one evaluation *)

(** The value the override writes for its relay while in flight, as the
    code computes it. *)
Lemma testOverride_inflight now st ta s i :
  Test.id (testRelay s) = Some i → testInFlight now (testRelay s) →
  testOverride now st ta s =
  (jsSet (pretty i)
     (if Test.pulseMs (testRelay s) >? 0
      then Z.rem (now - Test.timestamp (testRelay s))
                 (Test.pulseMs (testRelay s) * 2)
           <? Test.pulseMs (testRelay s)
      else true) st,
   true, s, []).
Proof.
  intros Hid (_ & Hpos & Hlt). unfold testOverride. rewrite Hid.
  rewrite (proj2 (Z.gtb_lt _ _)) by lia.
  rewrite (proj2 (Z.ltb_lt _ _)) by lia.
  destruct (Test.pulseMs (testRelay s) >? 0); [|done].
  by destruct (_ <? _).
Qed.

Lemma testOverride_finished now st ta s i :
  Test.id (testRelay s) = Some i → 0 < Test.onTimeMs (testRelay s) →
  Test.onTimeMs (testRelay s) ≤ now - Test.timestamp (testRelay s) →
  testOverride now st ta s =
  (match activeTrigger s with
   | None => jsSet (pretty i) false st
   | Some _ => st
   end,
   ta, setTestRelay s Test.cleared, [Saved (setTestRelay s Test.cleared)]).
Proof.
  intros Hid Hpos Hge. unfold testOverride. rewrite Hid.
  rewrite (proj2 (Z.gtb_lt _ _)) by lia.
  rewrite (proj2 (Z.ltb_ge _ _)) by lia. done.
Qed.

Lemma testOverride_idle now st ta s :
  testPending (testRelay s) = false →
  testOverride now st ta s = (st, ta, s, []).
Proof.
  unfold testPending, testOverride.
  destruct (Test.id (testRelay s)); [|done]. by intros ->.
Qed.

Lemma test_cases now (t : Test.t) :
  testPending t = false
  ∨ (∃ i, Test.id t = Some i ∧ testInFlight now t)
  ∨ (∃ i, Test.id t = Some i ∧ 0 < Test.onTimeMs t ∧
          Test.onTimeMs t ≤ now - Test.timestamp t).
Proof.
  unfold testPending, testInFlight.
  destruct (Test.id t) as [i|]; [|by left].
  destruct (Z.gtb_spec (Test.onTimeMs t) 0); [|by left]. right.
  destruct (decide (now - Test.timestamp t < Test.onTimeMs t)).
  - left. exists i. eauto.
  - right. exists i. repeat split; [done|lia].
Qed.

Lemma testPending_inflight now (t : Test.t) :
  testInFlight now t → testPending t = true.
Proof.
  intros ([i Hi] & Hpos & _). unfold testPending. rewrite Hi.
  apply Z.gtb_lt. lia.
Qed.

(** Inside the override's window the truncated remainder is the
    modulus. *)
Lemma override_value p e :
  0 ≤ e →
  (if p >? 0 then Z.rem e (p * 2) <? p else true) = overrideOn p e.
Proof.
  intros He. unfold overrideOn.
  destruct (Z.gtb_spec p 0), (Z.ltb_spec 0 p); try lia; try done.
  rewrite Z.rem_mod_nonneg by lia. by rewrite (Z.mul_comm p 2).
Qed.

Lemma mainTrigger_frame now h s st ta s1 :
  mainTrigger now h s = (st, ta, s1) →
  alarmEnabled s1 = alarmEnabled s ∧ relays s1 = relays s ∧
  testRelay s1 = testRelay s ∧ snapshot s1 = snapshot s ∧
  (activeTrigger s1 = activeTrigger s ∨ activeTrigger s1 = None).
Proof.
  unfold mainTrigger. intros H.
  destruct (activeTrigger s) as [tr|] eqn:Htr.
  - destruct (alarmEnabled s) eqn:Hen.
    + destruct (allEnabledTriggerRelaysFinished _ _ _);
        simplify_eq; simpl; rewrite ?Htr, ?Hen; auto 10.
    + simplify_eq. rewrite Htr, Hen. auto 10.
  - simplify_eq. rewrite Htr. auto 10.
Qed.

(** With the alarm enabled, the first block clears the trigger exactly
    when the completion check succeeds, and then turns everything off. *)
Lemma mainTrigger_enabled now h s tr :
  activeTrigger s = Some tr → alarmEnabled s = true →
  mainTrigger now h s =
  if allEnabledTriggerRelaysFinished now (Trigger.timestamp tr)
       (readRelays h (Trigger.relayConfig tr))
  then (allOff, false, setActiveTrigger s None)
  else (relayLoop now (Trigger.timestamp tr)
          (readRelays h (Trigger.relayConfig tr)) allOff, true, s).
Proof. intros Htr Hen. unfold mainTrigger. by rewrite Htr, Hen. Qed.

Lemma mainTrigger_idle now h s :
  activeTrigger s = None ∨ alarmEnabled s = false →
  mainTrigger now h s = (allOff, false, s).
Proof.
  intros H. unfold mainTrigger. destruct (activeTrigger s); [|done].
  destruct H as [H|H]; [done | by rewrite H].
Qed.

Lemma testOverride_frame now st ta s st' ta' s' es :
  testOverride now st ta s = (st', ta', s', es) →
  alarmEnabled s' = alarmEnabled s ∧ relays s' = relays s ∧
  activeTrigger s' = activeTrigger s ∧ snapshot s' = snapshot s ∧
  (testRelay s' = testRelay s ∨ testRelay s' = Test.cleared).
Proof.
  intros H. destruct (test_cases now (testRelay s)) as [Hc|[(i&Hi&Hc)|(i&Hi&Hp&Hc)]].
  - rewrite testOverride_idle in H by done. simplify_eq. auto 10.
  - rewrite (testOverride_inflight _ _ _ _ i) in H by done. simplify_eq.
    auto 10.
  - rewrite (testOverride_finished _ _ _ _ i) in H by done. simplify_eq.
    simpl. auto 10.
Qed.

(** After the gate the stored pair is the computed pair, whether or not
    anything was sent. *)
Lemma publish_snapshot st ta s :
  snapshot (publish st ta s).1 = (st, ta).
Proof.
  unfold publish.
  destruct (negb (bool_decide (st = currentRelayStates s))) eqn:H1;
  destruct (negb (bool_decide (ta = triggerActive s))) eqn:H2;
  destruct (testPending (testRelay s)); simpl; try done.
  apply negb_false_iff, bool_decide_eq_true in H1, H2.
  unfold snapshot. by rewrite H1, H2.
Qed.

Lemma publish_frame st ta s :
  alarmEnabled (publish st ta s).1 = alarmEnabled s ∧
  relays (publish st ta s).1 = relays s ∧
  activeTrigger (publish st ta s).1 = activeTrigger s ∧
  testRelay (publish st ta s).1 = testRelay s.
Proof. unfold publish. by destruct (_ || _). Qed.

Lemma gate_true st ta s :
  negb (bool_decide (st = currentRelayStates s))
  || negb (bool_decide (ta = triggerActive s))
  || testPending (testRelay s) = true ↔
  (st, ta) ≠ snapshot s ∨ testPending (testRelay s) = true.
Proof.
  unfold snapshot. rewrite !orb_true_iff, !negb_true_iff, !bool_decide_eq_false.
  split.
  - intros [[H|H]|H]; [left; congruence | left; congruence | by right].
  - intros [H|H]; [|by right]. left.
    destruct (decide (st = currentRelayStates s)) as [->|]; [|by left].
    right. congruence.
Qed.

(** The gate, read off the code: something is broadcast exactly when the
    computed pair differs from the stored one or a test is pending. *)
Lemma publish_broadcasts st ta s :
  broadcasts (publish st ta s).2 ↔
  (st, ta) ≠ snapshot s ∨ testPending (testRelay s) = true.
Proof.
  rewrite <- gate_true. unfold publish, broadcasts.
  destruct (_ || _ || _); simpl.
  - split; [done|]. intros _. eexists. apply elem_of_app. right.
    by apply list_elem_of_singleton.
  - split; [|done]. intros [p Hp]. by apply elem_of_nil in Hp.
Qed.

(** ** One evaluation as a whole *)

Lemma calc_stages now w st1 ta1 s1 st2 ta2 s2 e2 :
  mainTrigger now (heap w) (alarmSettings w) = (st1, ta1, s1) →
  testOverride now st1 ta1 s1 = (st2, ta2, s2, e2) →
  alarmSettings (calculateAndBroadcastRelayStates now w).1
    = (publish st2 ta2 s2).1
  ∧ (calculateAndBroadcastRelayStates now w).2 = e2 ++ (publish st2 ta2 s2).2
  ∧ (intervalId (calculateAndBroadcastRelayStates now w).1,
     timers (calculateAndBroadcastRelayStates now w).1)
    = manageInterval (publish st2 ta2 s2).1 (intervalId w) (timers w).
Proof.
  intros Hm Ht. unfold calculateAndBroadcastRelayStates. rewrite Hm, Ht.
  destruct (publish st2 ta2 s2) as [s3 e3]. simpl.
  by destruct (manageInterval s3 (intervalId w) (timers w)) as [iv ts].
Qed.

Lemma calc_heap now w :
  heap (calculateAndBroadcastRelayStates now w).1 = heap w.
Proof.
  unfold calculateAndBroadcastRelayStates.
  destruct (mainTrigger _ _ _) as [[st1 ta1] s1].
  destruct (testOverride _ _ _ _) as [[[st2 ta2] s2] e2].
  destruct (publish _ _ _) as [s3 e3].
  by destruct (manageInterval _ _ _).
Qed.

(** Every evaluation leaves the computed pair in [currentRelayStates] and
    [triggerActive]. *)
Lemma calc_snapshot now w :
  snapshot (alarmSettings (calculateAndBroadcastRelayStates now w).1)
  = evaluate now (heap w) (alarmSettings w).
Proof.
  unfold evaluate.
  destruct (mainTrigger now (heap w) (alarmSettings w)) as [[st1 ta1] s1] eqn:Hm.
  destruct (testOverride now st1 ta1 s1) as [[[st2 ta2] s2] e2] eqn:Ht.
  destruct (calc_stages _ _ _ _ _ _ _ _ _ Hm Ht) as (-> & _).
  apply publish_snapshot.
Qed.

(** An evaluation changes neither the live configuration nor the alarm
    switch. *)
Lemma calc_config now w :
  alarmEnabled (alarmSettings (calculateAndBroadcastRelayStates now w).1)
    = alarmEnabled (alarmSettings w)
  ∧ relays (alarmSettings (calculateAndBroadcastRelayStates now w).1)
    = relays (alarmSettings w).
Proof.
  destruct (mainTrigger now (heap w) (alarmSettings w)) as [[st1 ta1] s1] eqn:Hm.
  destruct (testOverride now st1 ta1 s1) as [[[st2 ta2] s2] e2] eqn:Ht.
  destruct (calc_stages _ _ _ _ _ _ _ _ _ Hm Ht) as (-> & _).
  destruct (publish_frame st2 ta2 s2) as (-> & -> & _).
  apply testOverride_frame in Ht as (-> & -> & _).
  apply mainTrigger_frame in Hm as (-> & -> & _). done.
Qed.

(** What an evaluation does to the trigger is decided by the first block
    alone. *)
Lemma calc_activeTrigger now w :
  activeTrigger (alarmSettings (calculateAndBroadcastRelayStates now w).1)
  = activeTrigger (mainTrigger now (heap w) (alarmSettings w)).2.
Proof.
  destruct (mainTrigger now (heap w) (alarmSettings w)) as [[st1 ta1] s1] eqn:Hm.
  destruct (testOverride now st1 ta1 s1) as [[[st2 ta2] s2] e2] eqn:Ht.
  destruct (calc_stages _ _ _ _ _ _ _ _ _ Hm Ht) as (-> & _).
  destruct (publish_frame st2 ta2 s2) as (_ & _ & -> & _).
  by apply testOverride_frame in Ht as (_ & _ & -> & _).
Qed.

(** What an evaluation does to the test override is decided by the second
    block alone. *)
Lemma calc_testRelay now w :
  testRelay (alarmSettings (calculateAndBroadcastRelayStates now w).1)
  = testRelay (testOverride now allOff false (alarmSettings w)).1.2.
Proof.
  destruct (mainTrigger now (heap w) (alarmSettings w)) as [[st1 ta1] s1] eqn:Hm.
  destruct (testOverride now st1 ta1 s1) as [[[st2 ta2] s2] e2] eqn:Ht.
  destruct (calc_stages _ _ _ _ _ _ _ _ _ Hm Ht) as (-> & _).
  destruct (publish_frame st2 ta2 s2) as (_ & _ & _ & ->).
  apply mainTrigger_frame in Hm as (_ & _ & Htest & _).
  destruct (test_cases now (testRelay s1)) as [Hc|[(i&Hi&Hc)|(i&Hi&Hp&Hc)]].
  - rewrite testOverride_idle in Ht by done.
    rewrite testOverride_idle by congruence. by simplify_eq.
  - rewrite (testOverride_inflight _ _ _ _ i) in Ht by done.
    rewrite (testOverride_inflight _ _ _ _ i) by congruence. by simplify_eq.
  - rewrite (testOverride_finished _ _ _ _ i) in Ht by done.
    rewrite (testOverride_finished _ _ _ _ i) by congruence. by simplify_eq.
Qed.

(** ** Lifecycle of the active trigger *)

Lemma finished_spec now ts cfg :
  allEnabledTriggerRelaysFinished now ts cfg = true ↔
  ∀ k c, jsGet k cfg = Some c → Relay.enabled c = true →
         ts + Relay.delayMs c + Relay.onTimeMs c ≤ now.
Proof.
  rewrite allFinished_true. split.
  - intros H k c Hk. apply relayFinished_true. eauto.
  - intros H k c Hk. apply relayFinished_true. eauto.
Qed.

(** When nothing is left of a test override after the first block turned
    everything off, everything stays off. *)
Lemma testOverride_all_off now s st ta s' es :
  ¬ testInFlight now (testRelay s) →
  testOverride now allOff false s = (st, ta, s', es) →
  (∀ k, stateOf k st = false) ∧ ta = false.
Proof.
  intros Hnot H.
  destruct (test_cases now (testRelay s)) as [Hc|[(i&Hi&Hc)|(i&Hi&Hp&Hc)]].
  - rewrite testOverride_idle in H by done. simplify_eq.
    split; [apply stateOf_allOff | done].
  - done.
  - rewrite (testOverride_finished _ _ _ _ i) in H by done. simplify_eq.
    split; [|done]. intros k. destruct (activeTrigger s).
    + apply stateOf_allOff.
    + destruct (decide (pretty i = k)) as [<-|Hne].
      * apply stateOf_set_eq.
      * rewrite stateOf_set_ne by done. apply stateOf_allOff.
Qed.

(** In the state model, with the alarm enabled: an evaluation clears the
    trigger exactly when every enabled relay of the snapshot is past its
    end, and otherwise keeps it; when it clears it, the main computation
    turns every relay off, and with no test override in flight every
    relay state is off and [triggerActive] is false. *)
Lemma calc_trigger_lifecycle (now : Z) (w : World) (tr : Trigger.t) :
  activeTrigger (alarmSettings w) = Some tr →
  alarmEnabled (alarmSettings w) = true →
  let w' := (calculateAndBroadcastRelayStates now w).1 in
  (activeTrigger (alarmSettings w') = None ↔
   ∀ k c, jsGet k (readRelays (heap w) (Trigger.relayConfig tr)) = Some c →
          Relay.enabled c = true →
          Trigger.timestamp tr + Relay.delayMs c + Relay.onTimeMs c ≤ now)
  ∧ (activeTrigger (alarmSettings w') ≠ None →
     activeTrigger (alarmSettings w') = Some tr)
  ∧ (activeTrigger (alarmSettings w') = None →
     mainStates now (heap w) (alarmSettings w) = allOff ∧
     (¬ testInFlight now (testRelay (alarmSettings w)) →
      (∀ k, stateOf k (currentRelayStates (alarmSettings w')) = false) ∧
      triggerActive (alarmSettings w') = false)).
Proof.
  intros Htr Hen w'. subst w'.
  pose proof (calc_snapshot now w) as Hsnap. unfold evaluate, mainStates in *.
  rewrite calc_activeTrigger, <- finished_spec.
  rewrite (mainTrigger_enabled now (heap w) _ tr Htr Hen) in *.
  destruct (allEnabledTriggerRelaysFinished _ _ _) eqn:Hfin; simpl in *.
  - split; [done|]. split; [done|]. intros _. split; [done|]. intros Hnot.
    destruct (testOverride now allOff false (setActiveTrigger (alarmSettings w) None))
      as [[[st2 ta2] s2] e2] eqn:Ht.
    apply testOverride_all_off in Ht as [Hst Hta]; [|done].
    unfold snapshot in Hsnap. by simplify_eq.
  - rewrite Htr. split; [split; done|]. split; done.
Qed.

(** C2 as stated fails in three ways.  With the alarm switched off, an
    evaluation does not look at the trigger, which stays although every
    relay of its snapshot is past its end; when a test override is in
    flight at the clearing evaluation, the tested relay is on and
    [triggerActive] is true; and with a duration that is not a whole
    number of milliseconds the sum the code compares with [now] is
    rounded, so that the block, in double arithmetic, clears the trigger
    before the exact end of a relay. *)
Lemma trigger_lifecycle_counterexample :
  ¬ (∀ now w tr,
       activeTrigger (alarmSettings w) = Some tr →
       activeTrigger
         (alarmSettings (calculateAndBroadcastRelayStates now w).1) = None ↔
       ∀ k c, jsGet k (readRelays (heap w) (Trigger.relayConfig tr)) = Some c →
              Relay.enabled c = true →
              Trigger.timestamp tr + Relay.delayMs c + Relay.onTimeMs c ≤ now)
  ∧ ¬ (∀ now w tr,
       activeTrigger (alarmSettings w) = Some tr →
       alarmEnabled (alarmSettings w) = true →
       let w' := (calculateAndBroadcastRelayStates now w).1 in
       activeTrigger (alarmSettings w') = None →
       (∀ k, stateOf k (currentRelayStates (alarmSettings w')) = false) ∧
       triggerActive (alarmSettings w') = false)
  ∧ ¬ (∀ now tr,
         (Dbl.mainTrigger now true (Some tr)).2 = None ↔
         ∀ k dc, jsGet k (Dbl.Trigger.relayConfig tr) = Some dc →
                 Dbl.Relay.enabled dc = true →
                 exactFinished now (Dbl.Trigger.timestamp tr) dc).
Proof.
  split; [|split].
  - intros H.
    specialize (H 10000 disarmedWorld (Trigger.mk order 0 9%nat) eq_refl).
    apply proj2 in H.
    assert (activeTrigger
              (alarmSettings
                 (calculateAndBroadcastRelayStates 10000 disarmedWorld).1)
            = None) as Hcl; [|by vm_compute in Hcl].
    apply H, finished_spec. by vm_compute.
  - intros H.
    specialize (H 8000 testedWorld (Trigger.mk order 0 9%nat)
                  eq_refl eq_refl eq_refl) as [_ Hta].
    by vm_compute in Hta.
  - intros H.
    assert ((Dbl.mainTrigger (1762051200000 + 100) true
               (Some fractionalDurationTrigger)).2 = None) as Hcl
      by (vm_compute; reflexivity).
    pose proof (proj1 (H _ _) Hcl "1" _ eq_refl eq_refl) as Hfin.
    vm_compute in Hfin. apply Hfin. reflexivity.
Qed.

(** ** The change-detecting gate *)

Lemma mainTrigger_stable now h s st ta s1 s3 :
  mainTrigger now h s = (st, ta, s1) →
  activeTrigger s3 = activeTrigger s1 → alarmEnabled s3 = alarmEnabled s1 →
  mainTrigger now h s3 = (st, ta, s3).
Proof.
  unfold mainTrigger. intros H Htr Hen.
  destruct (activeTrigger s) as [tr|] eqn:Hs.
  - destruct (alarmEnabled s) eqn:Hes.
    + destruct (allEnabledTriggerRelaysFinished _ _ _) eqn:Hfin; simplify_eq.
      * simpl in Htr. by rewrite Htr.
      * by rewrite Htr, Hs, Hen, Hes, Hfin.
    + simplify_eq. by rewrite Htr, Hs, Hen, Hes.
  - simplify_eq. by rewrite Htr, Hs.
Qed.

Lemma mainTrigger_cleared_off now h s st ta s1 :
  mainTrigger now h s = (st, ta, s1) → activeTrigger s1 = None →
  st = allOff ∧ ta = false.
Proof.
  unfold mainTrigger. intros H Hnone.
  destruct (activeTrigger s) as [tr|] eqn:Hs; [|by simplify_eq].
  destruct (alarmEnabled s); [|by simplify_eq].
  destruct (allEnabledTriggerRelaysFinished _ _ _); by simplify_eq.
Qed.

(** After the second block a test is pending exactly when it was in
    flight; the block saves exactly when it cleared a test. *)
Lemma testOverride_after now st ta s st' ta' s' es :
  testOverride now st ta s = (st', ta', s', es) →
  (testPending (testRelay s') = true ↔ testInFlight now (testRelay s))
  ∧ (persists es ↔
     testPending (testRelay s) = true ∧ ¬ testInFlight now (testRelay s))
  ∧ ¬ broadcasts es.
Proof.
  intros H.
  destruct (test_cases now (testRelay s)) as [Hc|[(i&Hi&Hc)|(i&Hi&Hp&Hc)]].
  - rewrite testOverride_idle in H by done. simplify_eq.
    split; [|split].
    + split; [congruence|]. intros HF%testPending_inflight. congruence.
    + split; [by intros [? ?%elem_of_nil] | intros [? _]; congruence].
    + by intros [? ?%elem_of_nil].
  - pose proof (testPending_inflight _ _ Hc).
    rewrite (testOverride_inflight _ _ _ _ i) in H by done. simplify_eq.
    split; [|split].
    + done.
    + split; [by intros [? ?%elem_of_nil] | by intros [_ ?]].
    + by intros [? ?%elem_of_nil].
  - rewrite (testOverride_finished _ _ _ _ i) in H by done. simplify_eq.
    assert (¬ testInFlight now (testRelay s)) as Hnot.
    { intros (_ & _ & ?). lia. }
    split; [|split].
    + simpl. split; [done | by intros ?].
    + split; [intros _|intros _; eexists; by apply list_elem_of_singleton].
      split; [|done]. unfold testPending. rewrite Hi. apply Z.gtb_lt. lia.
    + intros [p Hin%list_elem_of_singleton]. done.
Qed.

Lemma publish_persists st ta s :
  persists (publish st ta s).2 ↔
  broadcasts (publish st ta s).2 ∧ idle (publish st ta s).1 .
Proof.
  rewrite publish_broadcasts, <- gate_true. unfold publish, persists, idle.
  destruct (_ || _ || _); simpl.
  - destruct (activeTrigger s) as [tr|] eqn:Htr; simpl.
    + split; [|by intros [_ [? _]]].
      intros [s' Hs'%list_elem_of_singleton]. done.
    + destruct ta; simpl.
      * split; [|by intros [_ (_ & ? & _)]].
        intros [s' Hs'%list_elem_of_singleton]. done.
      * destruct (truthyId (Test.id (testRelay s))); simpl.
        -- split; [|by intros [_ (_ & _ & ?)]].
           intros [s' Hs'%list_elem_of_singleton]. done.
        -- split; [done|]. intros _. eexists. apply elem_of_cons. by left.
  - split; [by intros [? ?%elem_of_nil] | by intros [? _]].
Qed.

Lemma broadcasts_app es1 es2 :
  broadcasts (es1 ++ es2) ↔ broadcasts es1 ∨ broadcasts es2.
Proof.
  unfold broadcasts. setoid_rewrite elem_of_app. split.
  - intros [p [H|H]]; eauto.
  - intros [[p H]|[p H]]; eauto.
Qed.

Lemma persists_app es1 es2 :
  persists (es1 ++ es2) ↔ persists es1 ∨ persists es2.
Proof.
  unfold persists. setoid_rewrite elem_of_app. split.
  - intros [p [H|H]]; eauto.
  - intros [[p H]|[p H]]; eauto.
Qed.

Lemma publish_quiet st ta s :
  (st, ta) = snapshot s → testPending (testRelay s) = false →
  publish st ta s = (s, []).
Proof.
  intros Heq Hp. unfold publish.
  destruct (_ || _ || _) eqn:Hg; [|done].
  apply gate_true in Hg as [Hg|Hg]; [done | congruence].
Qed.

Lemma jsGet_allOff k : k ∈ jsKeys allOff → jsGet k allOff = Some false.
Proof.
  intros Hk%jsGet_keys. destruct Hk as [b Hb].
  pose proof (stateOf_allOff k) as Hoff. unfold stateOf in Hoff.
  rewrite Hb in Hoff. by subst b.
Qed.

(** The second block, run again at the same instant on the state the
    evaluation left, computes what it computed before and saves nothing. *)
Lemma testOverride_again now stA taA sA stB taB sB eB s3 :
  testOverride now stA taA sA = (stB, taB, sB, eB) →
  (activeTrigger sA = None → stA = allOff) →
  testIdOk (testRelay sA) →
  testRelay s3 = testRelay sB →
  testOverride now stA taA s3 = (stB, taB, s3, []).
Proof.
  intros H Hoff Hok Htest.
  destruct (test_cases now (testRelay sA)) as [Hc|[(i&Hi&Hc)|(i&Hi&Hp&Hc)]].
  - rewrite testOverride_idle in H by done. simplify_eq.
    apply testOverride_idle. congruence.
  - rewrite (testOverride_inflight _ _ _ _ i) in H by done. simplify_eq.
    rewrite (testOverride_inflight _ _ _ _ i) by congruence.
    by rewrite Htest.
  - rewrite (testOverride_finished _ _ _ _ i) in H by done. simplify_eq.
    simpl in Htest. rewrite testOverride_idle by by rewrite Htest.
    destruct (activeTrigger sA); [done|].
    rewrite Hoff by done. rewrite jsSet_same; [done|].
    apply jsGet_allOff. unfold testIdOk in Hok. by rewrite Hi in Hok.
Qed.

(** C3 (amended). Change-detecting gate and idempotence: an evaluation
    repeated at the same instant on the state the first one left yields
    the same (RelayState, triggerActive) pair and, unless a test override
    is in flight, neither saves nor broadcasts; an evaluation broadcasts
    exactly when the computed pair differs from the stored one or a test
    override is in flight; it saves exactly when it has just cleared a
    test override, or it broadcasts and leaves the system idle. *)
Theorem gate_and_idempotence (now : Z) (w : World) :
  testIdOk (testRelay (alarmSettings w)) →
  let r1 := calculateAndBroadcastRelayStates now w in
  let r2 := calculateAndBroadcastRelayStates now r1.1 in
  snapshot (alarmSettings r2.1) = snapshot (alarmSettings r1.1)
  ∧ (¬ testInFlight now (testRelay (alarmSettings w)) → r2.2 = [])
  ∧ (broadcasts r1.2 ↔
     evaluate now (heap w) (alarmSettings w) ≠ snapshot (alarmSettings w)
     ∨ testInFlight now (testRelay (alarmSettings w)))
  ∧ (persists r1.2 ↔
     (testPending (testRelay (alarmSettings w)) = true
      ∧ ¬ testInFlight now (testRelay (alarmSettings w)))
     ∨ (broadcasts r1.2 ∧ idle (alarmSettings r1.1))).
Proof.
  intros Hok r1 r2. subst r1 r2.
  pose proof (calc_heap now w) as Hheap.
  unfold evaluate.
  destruct (mainTrigger now (heap w) (alarmSettings w))
    as [[stA taA] sA] eqn:Hm.
  destruct (testOverride now stA taA sA) as [[[stB taB] sB] eB] eqn:Ht.
  destruct (calc_stages _ _ _ _ _ _ _ _ _ Hm Ht) as (Hs3 & He1 & _).
  set (w1 := (calculateAndBroadcastRelayStates now w).1) in *.
  pose proof (publish_snapshot stB taB sB) as Hsnap3.
  pose proof (publish_frame stB taB sB) as (Hen3 & _ & Htr3 & Htest3).
  rewrite <- Hs3 in Hsnap3, Hen3, Htr3, Htest3.
  pose proof (mainTrigger_frame _ _ _ _ _ _ Hm) as (HenA & _ & HtestA & HsnapA & _).
  pose proof (testOverride_frame _ _ _ _ _ _ _ _ Ht) as (HenB & _ & HtrB & HsnapB & _).
  pose proof (testOverride_after _ _ _ _ _ _ _ _ Ht) as (Hpend & Hsave & Hnob).
  rewrite HtestA in Hpend, Hsave.
  assert (mainTrigger now (heap w1) (alarmSettings w1)
          = (stA, taA, alarmSettings w1)) as Hm2.
  { rewrite Hheap. eapply mainTrigger_stable; [done| |]; congruence. }
  assert (testOverride now stA taA (alarmSettings w1)
          = (stB, taB, alarmSettings w1, [])) as Ht2.
  { eapply testOverride_again; [done| |congruence|done].
    intros Hnone. by apply (mainTrigger_cleared_off _ _ _ _ _ _ Hm). }
  destruct (calc_stages _ _ _ _ _ _ _ _ _ Hm2 Ht2) as (Hs4 & He2 & _).
  split; [|split; [|split]].
  - rewrite Hs4, publish_snapshot. done.
  - intros Hnot. rewrite He2. simpl. rewrite publish_quiet; [done|done|].
    destruct (testPending (testRelay (alarmSettings w1))) eqn:Hp; [|done].
    rewrite Htest3 in Hp. by apply Hpend in Hp.
  - rewrite He1, broadcasts_app, publish_broadcasts, HsnapB, HsnapA, Hpend.
    tauto.
  - rewrite He1, persists_app, broadcasts_app, Hsave, publish_persists, <- Hs3.
    tauto.
Qed.

Lemma broadcasts_existsb es :
  broadcasts es ↔
  existsb (fun e => match e with Broadcast _ => true | Saved _ => false end) es
  = true.
Proof.
  rewrite existsb_exists. unfold broadcasts. split.
  - intros [p Hp]. exists (Broadcast p). by rewrite <- list_elem_of_In.
  - intros [[s|p] [Hin He]]; [done|]. exists p. by rewrite list_elem_of_In.
Qed.

Lemma persists_existsb es :
  persists es ↔
  existsb (fun e => match e with Saved _ => true | Broadcast _ => false end) es
  = true.
Proof.
  rewrite existsb_exists. unfold persists. split.
  - intros [s Hs]. exists (Saved s). by rewrite <- list_elem_of_In.
  - intros [[s|p] [Hin He]]; [|done]. exists s. by rewrite list_elem_of_In.
Qed.

(** C3 as stated fails in three ways.  While a test override is in flight
    every evaluation broadcasts, also one repeated at the same instant;
    an evaluation that clears a trigger does not broadcast when the pair
    is what it was (an order that finds every relay disabled); and a
    changed pair is broadcast without being saved (the evaluation that
    starts a trigger). *)
Lemma gate_counterexample :
  ¬ (∀ now w,
       (calculateAndBroadcastRelayStates now
          (calculateAndBroadcastRelayStates now w).1).2 = [])
  ∧ ¬ (∀ now w,
         triggerJustFinished now w →
         broadcasts (calculateAndBroadcastRelayStates now w).2)
  ∧ ¬ (∀ now w,
         evaluate now (heap w) (alarmSettings w) ≠ snapshot (alarmSettings w) →
         persists (calculateAndBroadcastRelayStates now w).2
         ∧ broadcasts (calculateAndBroadcastRelayStates now w).2).
Proof.
  split; [|split].
  - intros H. specialize (H 0 testStartedWorld). by vm_compute in H.
  - intros H. specialize (H 10 idleOrderWorld).
    rewrite broadcasts_existsb in H.
    assert (triggerJustFinished 10 idleOrderWorld) as Hfin.
    { split; [by eexists | by vm_compute]. }
    apply H in Hfin. by vm_compute in Hfin.
  - intros H. specialize (H 0 (armTrigger order 0 initialWorld)).
    rewrite persists_existsb in H.
    assert (evaluate 0 (heap (armTrigger order 0 initialWorld))
              (alarmSettings (armTrigger order 0 initialWorld))
            ≠ snapshot (alarmSettings (armTrigger order 0 initialWorld)))
      as Hch.
    { intros Heq. by vm_compute in Heq. }
    apply H in Hch as [Hch _]. by vm_compute in Hch.
Qed.

Lemma gate_and_idempotence_witness :
  testIdOk (testRelay (alarmSettings orderedWorld))
  ∧ snapshot
      (alarmSettings
         (calculateAndBroadcastRelayStates 100
            (calculateAndBroadcastRelayStates 100 orderedWorld).1).1)
    = snapshot
        (alarmSettings (calculateAndBroadcastRelayStates 100 orderedWorld).1).
Proof.
  split; [exact I|].
  apply (gate_and_idempotence 100 orderedWorld I).
Defined.

(** ** The test override *)

(** While a test is in flight, whatever its duration, its relay carries
    the override's value, the other relays what the first block computed,
    and [newTriggerActive] is true. *)
Lemma evaluate_in_flight now h s i :
  Test.id (testRelay s) = Some i → testInFlight now (testRelay s) →
  0 ≤ now - Test.timestamp (testRelay s) →
  evaluate now h s
  = (jsSet (pretty i)
       (overrideOn (Test.pulseMs (testRelay s))
                   (now - Test.timestamp (testRelay s)))
       (mainStates now h s), true).
Proof.
  intros Hi Hfl Hpos. unfold evaluate, mainStates.
  destruct (mainTrigger now h s) as [[st1 ta1] s1] eqn:Hm.
  apply mainTrigger_frame in Hm as (_ & _ & Htest & _).
  rewrite (testOverride_inflight _ _ _ _ i) by by rewrite Htest.
  rewrite Htest, override_value by done. done.
Qed.

(** C5. TestOverride precedence: at an evaluation inside the 500 ms
    window of a test override, the target relay's state is the override's
    own (solid for [pulseMs = 0], the 50% square wave of period
    [2 * pulseMs] otherwise), every other relay keeps the state the main
    trigger computes, [triggerActive] is true whether or not a trigger
    exists, and the override stays in place. *)
Theorem test_override_precedence (now : Z) (w : World) (i : Z) :
  Test.id (testRelay (alarmSettings w)) = Some i →
  Test.onTimeMs (testRelay (alarmSettings w)) = 500 →
  0 ≤ now - Test.timestamp (testRelay (alarmSettings w)) < 500 →
  let w' := (calculateAndBroadcastRelayStates now w).1 in
  jsGet (pretty i) (currentRelayStates (alarmSettings w'))
  = Some (overrideOn (Test.pulseMs (testRelay (alarmSettings w)))
            (now - Test.timestamp (testRelay (alarmSettings w))))
  ∧ (∀ k, k ≠ pretty i →
          jsGet k (currentRelayStates (alarmSettings w'))
          = jsGet k (mainStates now (heap w) (alarmSettings w)))
  ∧ triggerActive (alarmSettings w') = true
  ∧ testRelay (alarmSettings w') = testRelay (alarmSettings w).
Proof.
  intros Hi Hd He w'. subst w'.
  assert (testInFlight now (testRelay (alarmSettings w))) as Hfl.
  { unfold testInFlight. rewrite Hi, Hd. split; [by eexists | lia]. }
  pose proof (calc_snapshot now w) as Hsnap.
  rewrite (evaluate_in_flight _ _ _ i) in Hsnap by (done || lia).
  unfold snapshot in Hsnap. injection Hsnap as -> ->.
  split; [apply jsGet_set_eq|]. split; [|split; [done|]].
  - intros k Hk. by apply jsGet_set_ne.
  - rewrite calc_testRelay.
    by rewrite (testOverride_inflight _ _ _ _ i).
Qed.

Lemma evaluate_test_finished now h s i :
  Test.id (testRelay s) = Some i → 0 < Test.onTimeMs (testRelay s) →
  Test.onTimeMs (testRelay s) ≤ now - Test.timestamp (testRelay s) →
  ∀ k, stateOf k (evaluate now h s).1 = stateOf k (mainStates now h s).
Proof.
  intros Hi Hpos Hge k. unfold evaluate, mainStates.
  destruct (mainTrigger now h s) as [[st1 ta1] s1] eqn:Hm.
  pose proof (mainTrigger_frame _ _ _ _ _ _ Hm) as (_ & _ & Htest & _).
  rewrite (testOverride_finished _ _ _ _ i) by by rewrite Htest.
  simpl. destruct (activeTrigger s1) eqn:Htr; [done|].
  apply (mainTrigger_cleared_off _ _ _ _ _ _ Hm) in Htr as [-> _].
  destruct (decide (pretty i = k)) as [<-|Hne].
  - by rewrite stateOf_set_eq, stateOf_allOff.
  - by rewrite stateOf_set_ne.
Qed.

(** C6. TestOverride termination: an evaluation clears a test override
    exactly when 500 ms or more have elapsed since its own start,
    whatever the trigger; at that evaluation the target relay has the
    state the main trigger computes for it, so it is off unless there is a
    trigger, the alarm is enabled, and the loop body of the main block
    computes on, at that instant, for the relay, an enabled relay of the
    snapshot. *)
Theorem test_override_termination (now : Z) (w : World) (i : Z) :
  Test.id (testRelay (alarmSettings w)) = Some i →
  Test.onTimeMs (testRelay (alarmSettings w)) = 500 →
  let w' := (calculateAndBroadcastRelayStates now w).1 in
  (Test.id (testRelay (alarmSettings w')) = None ↔
   500 ≤ now - Test.timestamp (testRelay (alarmSettings w)))
  ∧ (500 ≤ now - Test.timestamp (testRelay (alarmSettings w)) →
     testRelay (alarmSettings w') = Test.cleared
     ∧ stateOf (pretty i) (currentRelayStates (alarmSettings w'))
       = stateOf (pretty i) (mainStates now (heap w) (alarmSettings w))
     ∧ (stateOf (pretty i) (currentRelayStates (alarmSettings w')) = true →
        ∃ tr c,
          activeTrigger (alarmSettings w) = Some tr
          ∧ alarmEnabled (alarmSettings w) = true
          ∧ jsGet (pretty i) (readRelays (heap w) (Trigger.relayConfig tr))
            = Some c
          ∧ Relay.enabled c = true
          ∧ relayState now (Trigger.timestamp tr) c = true)).
Proof.
  intros Hi Hd w'. subst w'.
  rewrite calc_testRelay.
  destruct (decide (500 ≤ now - Test.timestamp (testRelay (alarmSettings w))))
    as [Hge|Hlt].
  - rewrite (testOverride_finished _ _ _ _ i) by (done || lia). simpl.
    split; [done|]. intros _. split; [done|].
    pose proof (calc_snapshot now w) as Hsnap.
    apply (f_equal fst) in Hsnap. simpl in Hsnap. rewrite Hsnap.
    rewrite (evaluate_test_finished _ _ _ i) by (done || lia).
    split; [done | apply mainStates_computed].
  - rewrite (testOverride_inflight _ _ _ _ i); [|done|].
    + simpl. rewrite Hi. split; [done | lia].
    + unfold testInFlight. rewrite Hi, Hd. split; [by eexists | lia].
Qed.

Lemma test_override_precedence_witness :
  Test.id (testRelay (alarmSettings testedWorld)) = Some 3
  ∧ Test.onTimeMs (testRelay (alarmSettings testedWorld)) = 500
  ∧ 0 ≤ 7950 - Test.timestamp (testRelay (alarmSettings testedWorld)) < 500
  ∧ stateOf "3" (mainStates 7950 (heap testedWorld) (alarmSettings testedWorld))
    = false
  ∧ jsGet (pretty 3)
      (currentRelayStates
         (alarmSettings (calculateAndBroadcastRelayStates 7950 testedWorld).1))
    = Some true.
Proof.
  assert (0 ≤ 7950 - Test.timestamp (testRelay (alarmSettings testedWorld))
          < 500) as He by (vm_compute; split; [discriminate | reflexivity]).
  split; [reflexivity|]. split; [reflexivity|]. split; [exact He|].
  split; [reflexivity|].
  apply (test_override_precedence 7950 testedWorld 3 eq_refl eq_refl He).
Defined.

Lemma test_override_termination_witness :
  Test.id (testRelay (alarmSettings testStartedWorld)) = Some 1
  ∧ Test.onTimeMs (testRelay (alarmSettings testStartedWorld)) = 500
  ∧ Test.id
      (testRelay
         (alarmSettings (calculateAndBroadcastRelayStates 500 testStartedWorld).1))
    = None.
Proof.
  split; [reflexivity|]. split; [reflexivity|].
  apply (test_override_termination 500 testStartedWorld 1 eq_refl eq_refl).
  vm_compute. discriminate.
Defined.

(** ** Idle states *)

Lemma publish_payload st ta s p :
  Broadcast p ∈ (publish st ta s).2 → p = payloadOf (publish st ta s).1.
Proof.
  unfold publish. destruct (_ || _ || _); simpl.
  - intros [Hin|Hin]%elem_of_app.
    + destruct (_ && _ && _); [|by apply elem_of_nil in Hin].
      by apply list_elem_of_singleton in Hin.
    + apply list_elem_of_singleton in Hin. congruence.
  - by intros ?%elem_of_nil.
Qed.

(** What is broadcast is the pair the evaluation computed. *)
Lemma calc_payload now w p :
  Broadcast p ∈ (calculateAndBroadcastRelayStates now w).2 →
  (Payload.relays p, Payload.triggerActive p)
  = evaluate now (heap w) (alarmSettings w).
Proof.
  rewrite <- calc_snapshot.
  destruct (mainTrigger now (heap w) (alarmSettings w)) as [[st1 ta1] s1] eqn:Hm.
  destruct (testOverride now st1 ta1 s1) as [[[st2 ta2] s2] e2] eqn:Ht.
  destruct (calc_stages _ _ _ _ _ _ _ _ _ Hm Ht) as (-> & -> & _).
  intros [Hin|Hin]%elem_of_app.
  - destruct (testOverride_after _ _ _ _ _ _ _ _ Ht) as (_ & _ & Hnob).
    destruct Hnob. by exists p.
  - by apply publish_payload in Hin as ->.
Qed.

Lemma evaluate_idle now h s :
  activeTrigger s = None → ¬ testInFlight now (testRelay s) →
  (∀ k, stateOf k (evaluate now h s).1 = false)
  ∧ (∀ k, k ∈ jsKeys allOff → jsGet k (evaluate now h s).1 = Some false)
  ∧ (evaluate now h s).2 = false.
Proof.
  intros Htr Hnot. unfold evaluate.
  rewrite mainTrigger_idle by by left.
  destruct (test_cases now (testRelay s)) as [Hc|[(i&Hi&Hc)|(i&Hi&Hp&Hc)]].
  - rewrite testOverride_idle by done. simpl.
    split; [apply stateOf_allOff|]. split; [apply jsGet_allOff | done].
  - done.
  - rewrite (testOverride_finished _ _ _ _ i) by done. rewrite Htr. simpl.
    split; [|split; [|done]]; intros k.
    + destruct (decide (pretty i = k)) as [<-|Hne].
      * apply stateOf_set_eq.
      * rewrite stateOf_set_ne by done. apply stateOf_allOff.
    + intros Hk. destruct (decide (pretty i = k)) as [<-|Hne].
      * apply jsGet_set_eq.
      * rewrite jsGet_set_ne by done. by apply jsGet_allOff.
Qed.

(** C10. Idle-all-off invariant: an evaluation made while there is no
    active trigger and no test override in flight computes, stores and (if
    it broadcasts) sends all four relay states false and [triggerActive]
    false; so a relay that is true in a broadcast implies an active
    trigger or a test override in flight at that evaluation. *)
Theorem idle_all_off (now : Z) (w : World) :
  let r := calculateAndBroadcastRelayStates now w in
  (activeTrigger (alarmSettings w) = None →
   ¬ testInFlight now (testRelay (alarmSettings w)) →
   (∀ k, k ∈ ["1"; "2"; "3"; "4"] →
         jsGet k (evaluate now (heap w) (alarmSettings w)).1 = Some false)
   ∧ (∀ k, stateOf k (evaluate now (heap w) (alarmSettings w)).1 = false)
   ∧ (evaluate now (heap w) (alarmSettings w)).2 = false
   ∧ snapshot (alarmSettings r.1) = evaluate now (heap w) (alarmSettings w)
   ∧ activeTrigger (alarmSettings r.1) = None)
  ∧ (∀ p k, Broadcast p ∈ r.2 → stateOf k (Payload.relays p) = true →
            is_Some (activeTrigger (alarmSettings w))
            ∨ testInFlight now (testRelay (alarmSettings w))).
Proof.
  intros r. subst r. split.
  - intros Htr Hnot.
    destruct (evaluate_idle now (heap w) _ Htr Hnot) as (Hoff & Hget & Hta).
    split; [exact Hget|]. split; [exact Hoff|]. split; [exact Hta|].
    split; [apply calc_snapshot|].
    rewrite calc_activeTrigger, mainTrigger_idle by by left. done.
  - intros p k Hin Hon. apply calc_payload in Hin.
    destruct (activeTrigger (alarmSettings w)) as [tr|] eqn:Htr; [by left; eexists|].
    right. destruct (test_cases now (testRelay (alarmSettings w)))
      as [Hc|[(i&Hi&Hc)|(i&Hi&Hp&Hc)]]; [|done|].
    + destruct (evaluate_idle now (heap w) _ Htr) as (Hoff & _).
      { intros HF%testPending_inflight. congruence. }
      apply (f_equal fst) in Hin. simpl in Hin. rewrite Hin, Hoff in Hon. done.
    + destruct (evaluate_idle now (heap w) _ Htr) as (Hoff & _).
      { intros (_ & _ & ?). lia. }
      apply (f_equal fst) in Hin. simpl in Hin. rewrite Hin, Hoff in Hon. done.
Qed.

Lemma idle_all_off_witness :
  activeTrigger (alarmSettings initialWorld) = None
  ∧ ¬ testInFlight 0 (testRelay (alarmSettings initialWorld))
  ∧ (evaluate 0 (heap initialWorld) (alarmSettings initialWorld)).2 = false.
Proof.
  assert (¬ testInFlight 0 (testRelay (alarmSettings initialWorld))) as Hnot.
  { intros [[i Hi] _]. discriminate Hi. }
  split; [reflexivity|]. split; [exact Hnot|].
  apply (proj1 (idle_all_off 0 initialWorld) eq_refl Hnot).
Defined.

(** ** The command handlers, case by case *)

Lemma checkRelay_not_ok id relay r m :
  checkRelay id relay = inl r → r ≠ Status200 m.
Proof.
  unfold checkRelay. intros H Heq. subst r.
  repeat match type of H with
         | context [match ?x with _ => _ end] => destruct x; try discriminate
         end.
Qed.

Lemma validateRelays_not_ok relays ids r m :
  validateRelays relays ids = inl r → r ≠ Status200 m.
Proof.
  revert r. induction ids as [|id ids IH]; simpl; intros r H; [done|].
  destruct (getProp relays id) as [relay|]; [|by simplify_eq].
  destruct (checkRelay id relay) as [r'|c] eqn:Hc.
  - simplify_eq. by eapply checkRelay_not_ok.
  - destruct (validateRelays relays ids) as [r'|cs]; [|done].
    simplify_eq. by apply IH.
Qed.

(** The settings handler either answers with an error and touches
    nothing, or passes every check, replaces the configuration, saves and
    evaluates. *)
Lemma postSettings_cases a r now w :
  (∃ resp, postSettings a r now w = (w, [], resp) ∧
           ∀ m, resp ≠ Status200 m)
  ∨ (∃ b ids cfgs,
       a = JBool b ∧ typeof r = TObject ∧ ownKeys r = Some ids ∧
       length ids = 4%nat ∧ validateRelays r ids = inr cfgs ∧
       postSettings a r now w
       = ((calculateAndBroadcastRelayStates now (replaceConfig b cfgs w)).1,
          Saved (alarmSettings (replaceConfig b cfgs w))
            :: (calculateAndBroadcastRelayStates now (replaceConfig b cfgs w)).2,
          Status200 SettingsUpdated)).
Proof.
  unfold postSettings.
  destruct a as [| |b| | | |]; try (left; eexists; split; [done|done]).
  destruct (typeof r) eqn:Hty; try (left; eexists; split; [done|done]).
  destruct (ownKeys r) as [ids|] eqn:Hkeys;
    [|left; eexists; split; [done|done]].
  case_bool_decide as Hlen; simpl; [|left; eexists; split; [done|done]].
  destruct (validateRelays r ids) as [resp|cfgs] eqn:Hval.
  - left. exists resp. split; [done|]. intros m.
    by eapply validateRelays_not_ok.
  - right. exists b, ids, cfgs. repeat split; try done.
    by destruct (calculateAndBroadcastRelayStates _ _).
Qed.

Lemma webhookOrder_cases ok t now w :
  (∃ resp, webhookOrder ok t now w = (w, [], resp))
  ∨ (ok = true ∧ alarmEnabled (alarmSettings w) = true ∧
     webhookOrder ok t now w
     = ((calculateAndBroadcastRelayStates now (armTrigger order t w)).1,
        (calculateAndBroadcastRelayStates now (armTrigger order t w)).2,
        Status200 AlarmTriggered)).
Proof.
  unfold webhookOrder. destruct ok; simpl; [|by left; eexists].
  destruct (alarmEnabled (alarmSettings w)); [|by left; eexists].
  right. repeat split. by destruct (calculateAndBroadcastRelayStates _ _).
Qed.

Lemma testRelayCommand_cases relayId t now w :
  (∃ resp, testRelayCommand relayId t now w = (w, [], resp) ∧
           ∀ m, resp ≠ Status200 m)
  ∨ (∃ c, relayId ∈ ["1"; "2"; "3"; "4"] ∧
          jsGet relayId (readRelays (heap w) (relays (alarmSettings w)))
          = Some c ∧
          Relay.enabled c = true ∧
          testRelayCommand relayId t now w
          = ((calculateAndBroadcastRelayStates now (armTest relayId c t w)).1,
             (calculateAndBroadcastRelayStates now (armTest relayId c t w)).2,
             Status200 TestSent)).
Proof.
  unfold testRelayCommand.
  case_bool_decide as Hid; simpl; [|left; eexists; split; [done|done]].
  destruct (jsGet relayId _) as [c|] eqn:Hc;
    [|left; eexists; split; [done|done]].
  destruct (Relay.enabled c) eqn:Hen; simpl;
    [|left; eexists; split; [done|done]].
  right. exists c. repeat split; try done.
  by destruct (calculateAndBroadcastRelayStates _ _).
Qed.

Lemma deactivateAlarm_cases now w :
  deactivateAlarm now w = (w, [], Status200 NothingToDeactivate)
  ∨ deactivateAlarm now w
    = ((calculateAndBroadcastRelayStates now (disarm w)).1,
       (calculateAndBroadcastRelayStates now (disarm w)).2,
       Status200 AlarmCleared).
Proof.
  unfold deactivateAlarm. destruct (_ || _ || _); [|by left].
  right. by destruct (calculateAndBroadcastRelayStates _ _).
Qed.

(** ** The interval timer *)

Lemma manageInterval_spec s iv ts :
  let r := manageInterval s iv ts in
  (is_Some r.1 ↔
   is_Some (activeTrigger s) ∨ is_Some (Test.id (testRelay s)))
  ∧ (ts = match iv with Some h => {[h]} | None => ∅ end →
     r.2 = match r.1 with Some h => {[h]} | None => ∅ end)
  ∧ (is_Some iv → is_Some r.1 → r = (iv, ts))
  ∧ (iv = None → r.1 = None → r = (iv, ts)).
Proof.
  intros r. subst r. unfold manageInterval.
  destruct (activeTrigger s) as [tr|], (Test.id (testRelay s)) as [i|],
    iv as [h|]; simpl.
  all: split;
    [ split; [intros [? ?]; first [done | by eauto]
             | first [ by eauto | intros [[? ?]|[? ?]]; done ] ] |].
  all: split;
    [intros ->; first [done | apply difference_diag_L | apply (right_id_L _ _)]|].
  all: split; [intros [? ?] [? ?]; done | done].
Qed.

Lemma calc_timerInv now w :
  timerInv w → timerInv (calculateAndBroadcastRelayStates now w).1.
Proof.
  unfold timerInv. intros Hinv.
  destruct (mainTrigger now (heap w) (alarmSettings w)) as [[st1 ta1] s1] eqn:Hm.
  destruct (testOverride now st1 ta1 s1) as [[[st2 ta2] s2] e2] eqn:Ht.
  destruct (calc_stages _ _ _ _ _ _ _ _ _ Hm Ht) as (_ & _ & Hi).
  destruct (manageInterval_spec (publish st2 ta2 s2).1 (intervalId w) (timers w))
    as (_ & Hset & _).
  rewrite <- Hi in Hset. simpl in Hset. by apply Hset.
Qed.

Lemma step_timerInv w w' : step w w' → timerInv w → timerInv w'.
Proof.
  intros [w0 now|w0 ok t now|w0 a r now|w0 id t now|w0 now] Hinv.
  - by apply calc_timerInv.
  - destruct (webhookOrder_cases ok t now w0) as [[resp ->]|(_ & _ & ->)];
      [done|]. simpl. apply calc_timerInv.
    unfold armTrigger. by destruct (deepCopy _ _).
  - destruct (postSettings_cases a r now w0)
      as [(resp & -> & _)|(b & ids & cfgs & _ & _ & _ & _ & _ & ->)]; [done|].
    simpl. apply calc_timerInv.
    unfold replaceConfig. by destruct (allocRelays _ _).
  - destruct (testRelayCommand_cases id t now w0)
      as [(resp & -> & _)|(c & _ & _ & _ & ->)]; [done|].
    simpl. by apply calc_timerInv.
  - destruct (deactivateAlarm_cases now w0) as [->| ->]; [done|].
    simpl. by apply calc_timerInv.
Qed.

Lemma reachable_timerInv w : reachable w → timerInv w.
Proof.
  induction 1 as [w Hi Ht|w w' _ IH Hstep].
  - unfold timerInv. by rewrite Hi, Ht.
  - by eapply step_timerInv.
Qed.

Lemma timerInv_size w : timerInv w → (size (timers w) ≤ 1)%nat.
Proof.
  unfold timerInv. intros ->. destruct (intervalId w).
  - rewrite size_singleton. lia.
  - rewrite size_empty. lia.
Qed.

(** C8. Scheduler timer invariant: in every state the service can reach,
    at most one interval timer is live; after an evaluation the timer is
    armed exactly when an active trigger or a test override remains, and
    otherwise no timer is left; an evaluation that finds the timer armed
    and work remaining, or the timer absent and nothing to do, changes
    neither [intervalId] nor the set of live timers. *)
Theorem scheduler_timer_invariant (now : Z) (w : World) :
  reachable w →
  let w' := (calculateAndBroadcastRelayStates now w).1 in
  let work := is_Some (activeTrigger (alarmSettings w'))
              ∨ is_Some (Test.id (testRelay (alarmSettings w'))) in
  (is_Some (intervalId w') ↔ work)
  ∧ timerInv w'
  ∧ (size (timers w) ≤ 1)%nat ∧ (size (timers w') ≤ 1)%nat
  ∧ (¬ work → intervalId w' = None ∧ timers w' = ∅)
  ∧ (is_Some (intervalId w) → work →
     intervalId w' = intervalId w ∧ timers w' = timers w)
  ∧ (intervalId w = None → ¬ work →
     intervalId w' = None ∧ timers w' = timers w).
Proof.
  intros Hreach%reachable_timerInv w' work.
  pose proof (calc_timerInv now w Hreach) as Hinv'. fold w' in Hinv'.
  assert (is_Some (intervalId w') ↔ work) as Hiff.
  { subst w' work.
    destruct (mainTrigger now (heap w) (alarmSettings w))
      as [[st1 ta1] s1] eqn:Hm.
    destruct (testOverride now st1 ta1 s1) as [[[st2 ta2] s2] e2] eqn:Ht.
    destruct (calc_stages _ _ _ _ _ _ _ _ _ Hm Ht) as (-> & _ & Hi).
    destruct (manageInterval_spec (publish st2 ta2 s2).1 (intervalId w)
                (timers w)) as (Hsome & _).
    rewrite <- Hi in Hsome. exact Hsome. }
  assert (∀ iv, intervalId w' = iv →
                (is_Some (intervalId w) → is_Some iv →
                 intervalId w' = intervalId w ∧ timers w' = timers w)
                ∧ (intervalId w = None → iv = None →
                   intervalId w' = intervalId w ∧ timers w' = timers w))
    as Hsame.
  { intros iv <-. subst w'.
    destruct (mainTrigger now (heap w) (alarmSettings w))
      as [[st1 ta1] s1] eqn:Hm.
    destruct (testOverride now st1 ta1 s1) as [[[st2 ta2] s2] e2] eqn:Ht.
    destruct (calc_stages _ _ _ _ _ _ _ _ _ Hm Ht) as (_ & _ & Hi).
    destruct (manageInterval_spec (publish st2 ta2 s2).1 (intervalId w)
                (timers w)) as (_ & _ & Hon & Hoff).
    rewrite <- Hi in Hon, Hoff. simpl in Hon, Hoff.
    split; intros H1 H2; [specialize (Hon H1 H2) | specialize (Hoff H1 H2)];
      by simplify_eq. }
  split; [exact Hiff|]. split; [exact Hinv'|].
  split; [by apply timerInv_size|]. split; [by apply timerInv_size|].
  assert (¬ work → intervalId w' = None) as Hnone.
  { intros Hno. destruct (intervalId w') eqn:Hiv; [|done].
    destruct Hno. apply Hiff. by eexists. }
  split; [|split].
  - intros Hno. split; [by apply Hnone|].
    unfold timerInv in Hinv'. rewrite Hinv'. rewrite (Hnone Hno). reflexivity.
  - intros Hs Hw. destruct (Hsame _ eq_refl) as [Hon _].
    apply Hon; [done | by apply Hiff].
  - intros Hn Hno. destruct (Hsame _ eq_refl) as [_ Hoff].
    destruct (Hoff Hn (Hnone Hno)) as [? ?]. split; [by apply Hnone | done].
Qed.

Lemma scheduler_timer_invariant_witness :
  reachable orderedWorld
  ∧ timerInv (calculateAndBroadcastRelayStates 100 orderedWorld).1.
Proof.
  assert (reachable orderedWorld) as Hr.
  { apply (reach_step initialWorld); [by apply reach_start|].
    apply (step_order initialWorld true 0 0). }
  split; [exact Hr|].
  exact (proj1 (proj2 (scheduler_timer_invariant 100 orderedWorld Hr))).
Defined.

(** ** Testing a relay *)

Lemma calc_broadcasts now w :
  broadcasts (calculateAndBroadcastRelayStates now w).2 ↔
  evaluate now (heap w) (alarmSettings w) ≠ snapshot (alarmSettings w)
  ∨ testInFlight now (testRelay (alarmSettings w)).
Proof.
  unfold evaluate.
  destruct (mainTrigger now (heap w) (alarmSettings w))
    as [[stA taA] sA] eqn:Hm.
  destruct (testOverride now stA taA sA) as [[[stB taB] sB] eB] eqn:Ht.
  destruct (calc_stages _ _ _ _ _ _ _ _ _ Hm Ht) as (_ & -> & _).
  apply mainTrigger_frame in Hm as (_ & _ & HtestA & HsnapA & _).
  pose proof (testOverride_frame _ _ _ _ _ _ _ _ Ht) as (_ & _ & _ & HsnapB & _).
  apply testOverride_after in Ht as (Hpend & _ & Hnob).
  rewrite broadcasts_app, publish_broadcasts, HsnapB, HsnapA, Hpend, HtestA.
  tauto.
Qed.

Lemma parseInt10_relayId relayId :
  relayId ∈ ["1"; "2"; "3"; "4"] →
  ∃ i, parseInt10 relayId = Some i ∧ pretty i = relayId.
Proof.
  rewrite !elem_of_cons, elem_of_nil.
  intros [->|[->|[->|[->|[]]]]]; eexists; split; reflexivity.
Qed.

(** C9. FireTest is not gated by [alarmEnabled]: with the alarm disabled
    (so that an order is ignored) and the target relay enabled in the live
    configuration, the test-relay command succeeds and creates the 500 ms
    override with the relay's [pulseMs]; its evaluation, made within the
    window, drives the target relay by the override's rule, leaves the
    other relays off, sets [triggerActive] and broadcasts. *)
Theorem fire_test_not_gated (relayId : string) (t now : Z) (w : World)
    (c : Relay.t) :
  alarmEnabled (alarmSettings w) = false →
  relayId ∈ ["1"; "2"; "3"; "4"] →
  jsGet relayId (readRelays (heap w) (relays (alarmSettings w))) = Some c →
  Relay.enabled c = true →
  0 ≤ now - t < 500 →
  let r := testRelayCommand relayId t now w in
  webhookOrder true t now w = (w, [], Status200 TriggerIgnored)
  ∧ r.2 = Status200 TestSent
  ∧ testRelay (alarmSettings r.1.1)
    = Test.mk (parseInt10 relayId) 500 (Relay.pulseMs c) t
  ∧ pretty <$> parseInt10 relayId = Some relayId
  ∧ jsGet relayId (currentRelayStates (alarmSettings r.1.1))
    = Some (overrideOn (Relay.pulseMs c) (now - t))
  ∧ (∀ k, k ≠ relayId →
          stateOf k (currentRelayStates (alarmSettings r.1.1)) = false)
  ∧ triggerActive (alarmSettings r.1.1) = true
  ∧ broadcasts r.1.2.
Proof.
  intros Hoff Hid Hc Hen He r. subst r.
  split. { unfold webhookOrder. simpl. by rewrite Hoff. }
  destruct (testRelayCommand_cases relayId t now w)
    as [(resp & Hr & Hne)|(c' & _ & Hc' & _ & ->)].
  { unfold testRelayCommand in Hr.
    rewrite bool_decide_true, Hc, Hen in Hr by done. simpl in Hr.
    destruct (calculateAndBroadcastRelayStates _ _).
    destruct (Hne TestSent). congruence. }
  rewrite Hc in Hc'. injection Hc' as <-. simpl.
  destruct (parseInt10_relayId relayId Hid) as (i & Hparse & Hpretty).
  set (w1 := armTest relayId c t w).
  assert (Test.id (testRelay (alarmSettings w1)) = Some i) as Hi by done.
  assert (testInFlight now (testRelay (alarmSettings w1))) as Hfl.
  { unfold testInFlight. rewrite Hi. simpl. split; [by eexists | lia]. }
  pose proof (calc_snapshot now w1) as Hsnap.
  rewrite (evaluate_in_flight _ _ _ i) in Hsnap by (done || simpl; lia).
  unfold snapshot in Hsnap. injection Hsnap as Hst Hta.
  rewrite Hst, Hta, Hpretty, Hparse.
  rewrite mainStates_idle by (right; exact Hoff).
  split; [done|]. split.
  { rewrite calc_testRelay.
    rewrite (testOverride_inflight _ _ _ _ i) by done. simpl.
    by rewrite Hparse. }
  split; [by simpl; rewrite Hpretty|].
  split; [apply jsGet_set_eq|]. split.
  { intros k Hk. rewrite stateOf_set_ne by done. apply stateOf_allOff. }
  split; [done|]. apply calc_broadcasts. by right.
Qed.

Lemma fire_test_not_gated_witness :
  alarmEnabled (alarmSettings quietWorld) = false
  ∧ jsGet "2" (readRelays (heap quietWorld) (relays (alarmSettings quietWorld)))
    = Some (Relay.mk 5000 1000 0 true)
  ∧ 0 ≤ 1000 - 1000 < 500
  ∧ triggerActive
      (alarmSettings (testRelayCommand "2" 1000 1000 quietWorld).1.1) = true.
Proof.
  assert ("2" ∈ ["1"; "2"; "3"; "4"]) as Hin.
  { apply elem_of_cons. right. apply elem_of_cons. by left. }
  assert (0 ≤ 1000 - 1000 < 500) as He by lia.
  split; [reflexivity|]. split; [reflexivity|]. split; [exact He|].
  apply (fire_test_not_gated "2" 1000 1000 quietWorld
           (Relay.mk 5000 1000 0 true) eq_refl Hin eq_refl eq_refl He).
Defined.

(** ** The heap: allocation and the trigger's snapshot *)

Lemma readConfig_weaken (h h' : gmap nat cell) l c :
  h ⊆ h' → readConfig h l = Some c → readConfig h' l = Some c.
Proof.
  unfold readConfig. intros Hsub H.
  destruct (h !! l) as [[ps|c']|] eqn:Hl; simplify_eq.
  by rewrite (lookup_weaken _ _ _ _ Hl Hsub).
Qed.

Lemma alloc_subseteq (h : gmap nat cell) x : h ⊆ <[fresh (dom h) := x]> h.
Proof. apply insert_subseteq, not_elem_of_dom, is_fresh. Qed.

Lemma readProps_weaken (h h' : gmap nat cell) (ps : obj nat) :
  Forall (fun p : string * nat => is_Some (readConfig h (snd p))) ps →
  h ⊆ h' →
  readProps h' ps = readProps h ps
  ∧ Forall (fun p : string * nat => is_Some (readConfig h' (snd p))) ps.
Proof.
  intros Hall Hsub. unfold readProps.
  induction Hall as [|p ps' [c Hc] Hall [IH1 IH2]]; [done|]. simpl.
  rewrite Hc, (readConfig_weaken _ _ _ _ Hsub Hc). simpl.
  split; [f_equal; exact IH1|]. constructor; [|done].
  exists c. by eapply readConfig_weaken.
Qed.

(** Allocating the configurations leaves every existing object as it is,
    creates only objects that did not exist, and yields properties that
    read back as the configuration allocated. *)
Lemma allocConfigs_spec cs (h : gmap nat cell) :
  h ⊆ (allocConfigs cs h).2
  ∧ readProps (allocConfigs cs h).2 (allocConfigs cs h).1 = cs
  ∧ Forall (fun p : string * nat => snd p ∉ dom h) (allocConfigs cs h).1
  ∧ Forall (fun p : string * nat =>
              is_Some (readConfig (allocConfigs cs h).2 (snd p)))
           (allocConfigs cs h).1.
Proof.
  revert h. induction cs as [|[k c] cs IH]; intros h; simpl.
  - split; [done|]. split; [done|]. split; constructor.
  - pose proof (alloc_subseteq h (CConfig c)) as Hsub0.
    pose proof (is_fresh (dom h)) as Hfresh.
    set (l := fresh (dom h)) in *.
    specialize (IH (<[l := CConfig c]> h)).
    destruct (allocConfigs cs _) as [ps h'] eqn:Ha. simpl in *.
    destruct IH as (Hsub & Hread & Hnew & Hok).
    assert (readConfig h' l = Some c) as Hc.
    { apply (readConfig_weaken (<[l := CConfig c]> h)); [done|].
      unfold readConfig. by rewrite lookup_insert_eq. }
    split; [by etrans|]. split; [|split].
    + unfold readProps in *. simpl. rewrite Hc. simpl. by rewrite Hread.
    + constructor; [done|].
      eapply Forall_impl; [exact Hnew|]. intros p Hp Hin. apply Hp.
      rewrite dom_insert. set_solver.
    + constructor; [simpl; rewrite Hc; by eexists | done].
Qed.

Lemma allocRelays_spec cs (h : gmap nat cell) :
  h ⊆ (allocRelays cs h).2
  ∧ (fst (allocRelays cs h) ∉ dom h)
  ∧ readRelays (allocRelays cs h).2 (allocRelays cs h).1 = cs
  ∧ snapshotOk (allocRelays cs h).2 (allocRelays cs h).1
  ∧ ∃ ps, (allocRelays cs h).2 !! (allocRelays cs h).1 = Some (CRelays ps)
          ∧ Forall (fun p : string * nat => snd p ∉ dom h) ps.
Proof.
  unfold allocRelays.
  pose proof (allocConfigs_spec cs h) as (Hsub & Hread & Hnew & Hok).
  destruct (allocConfigs cs h) as [ps h1]. simpl in *.
  pose proof (alloc_subseteq h1 (CRelays ps)) as Hsub1.
  destruct (readProps_weaken _ _ _ Hok Hsub1) as [Hread' Hok'].
  split; [by etrans|]. split; [|split; [|split]].
  - intros Hin. apply (is_fresh (dom h1)).
    by apply (subseteq_dom _ _ Hsub).
  - unfold readRelays. rewrite lookup_insert_eq. by rewrite Hread'.
  - exists ps. by rewrite lookup_insert_eq.
  - exists ps. by rewrite lookup_insert_eq.
Qed.

(** A complete relays object reads the same in any larger heap. *)
Lemma readRelays_weaken (h h' : gmap nat cell) l :
  snapshotOk h l → h ⊆ h' →
  readRelays h' l = readRelays h l ∧ snapshotOk h' l.
Proof.
  intros (ps & Hl & Hall) Hsub. unfold readRelays, snapshotOk.
  rewrite Hl, (lookup_weaken _ _ _ _ Hl Hsub).
  destruct (readProps_weaken _ _ _ Hall Hsub) as [Hread Hok].
  split; [done|]. by exists ps.
Qed.

Lemma replaceConfig_spec b cfgs w :
  heap w ⊆ heap (replaceConfig b cfgs w)
  ∧ (relays (alarmSettings (replaceConfig b cfgs w)) ∉ dom (heap w))
  ∧ readRelays (heap (replaceConfig b cfgs w))
      (relays (alarmSettings (replaceConfig b cfgs w))) = cfgs
  ∧ alarmEnabled (alarmSettings (replaceConfig b cfgs w)) = b
  ∧ activeTrigger (alarmSettings (replaceConfig b cfgs w))
    = activeTrigger (alarmSettings w)
  ∧ testRelay (alarmSettings (replaceConfig b cfgs w))
    = testRelay (alarmSettings w).
Proof.
  unfold replaceConfig.
  pose proof (allocRelays_spec cfgs (heap w)) as (Hsub & Hnew & Hread & _).
  by destruct (allocRelays cfgs (heap w)) as [l h'].
Qed.

Lemma armTrigger_spec src t w :
  ∃ l, activeTrigger (alarmSettings (armTrigger src t w))
       = Some (Trigger.mk src t l)
     ∧ (l ∉ dom (heap w))
     ∧ (∃ ps, heap (armTrigger src t w) !! l = Some (CRelays ps)
              ∧ Forall (fun p : string * nat => snd p ∉ dom (heap w)) ps)
     ∧ readRelays (heap (armTrigger src t w)) l
       = readRelays (heap w) (relays (alarmSettings w))
     ∧ snapshotOk (heap (armTrigger src t w)) l
     ∧ heap w ⊆ heap (armTrigger src t w)
     ∧ relays (alarmSettings (armTrigger src t w)) = relays (alarmSettings w)
     ∧ alarmEnabled (alarmSettings (armTrigger src t w))
       = alarmEnabled (alarmSettings w).
Proof.
  unfold armTrigger, deepCopy.
  pose proof (allocRelays_spec
                (readRelays (heap w) (relays (alarmSettings w))) (heap w))
    as (Hsub & Hnew & Hread & Hok & Hdeep).
  destruct (allocRelays _ (heap w)) as [l h']. simpl in *.
  exists l. by repeat split.
Qed.

(** No step changes an object that exists: the heap only grows. *)
Lemma step_heap w w' : step w w' → heap w ⊆ heap w'.
Proof.
  intros [w0 now|w0 ok t now|w0 a r now|w0 id t now|w0 now].
  - by rewrite calc_heap.
  - destruct (webhookOrder_cases ok t now w0) as [[resp ->]|(_ & _ & ->)];
      [done|]. simpl. rewrite calc_heap.
    by destruct (armTrigger_spec order t w0) as (l & _ & _ & _ & _ & _ & ? & _).
  - destruct (postSettings_cases a r now w0)
      as [(resp & -> & _)|(b & ids & cfgs & _ & _ & _ & _ & _ & ->)]; [done|].
    simpl. rewrite calc_heap. apply replaceConfig_spec.
  - destruct (testRelayCommand_cases id t now w0)
      as [(resp & -> & _)|(c & _ & _ & _ & ->)]; [done|].
    simpl. by rewrite calc_heap.
  - destruct (deactivateAlarm_cases now w0) as [->| ->]; [done|].
    simpl. by rewrite calc_heap.
Qed.

Lemma steps_heap w w' : rtc step w w' → heap w ⊆ heap w'.
Proof.
  induction 1 as [|w1 w2 w3 Hstep _ IH]; [done|].
  etrans; [by apply step_heap | done].
Qed.

(** C7. Snapshot immutability: creating a trigger allocates a new relays
    object and a new configuration object for every relay, none of which
    existed before, holding the values of the live configuration at that
    moment; a successful settings update leaves every existing object, and
    so the snapshot of a trigger in flight, as it was, keeps or clears
    that trigger but never alters it, and points the live configuration
    to a different object holding the accepted values, which is what a
    later trigger copies; and the snapshot reads the same after any
    number of further steps of the service. *)
Theorem trigger_snapshot_frame (w : World) (src : Source) (t now : Z)
    (a r : jsval) (tr : Trigger.t) :
  (let w1 := armTrigger src t w in
   ∃ l, activeTrigger (alarmSettings w1) = Some (Trigger.mk src t l)
      ∧ (l ∉ dom (heap w))
      ∧ (∃ ps, heap w1 !! l = Some (CRelays ps)
               ∧ Forall (fun p : string * nat => snd p ∉ dom (heap w)) ps)
      ∧ readRelays (heap w1) l
        = readRelays (heap w) (relays (alarmSettings w))
      ∧ snapshotOk (heap w1) l
      ∧ heap w ⊆ heap w1
      ∧ relays (alarmSettings w1) = relays (alarmSettings w))
  ∧ (activeTrigger (alarmSettings w) = Some tr →
     snapshotOk (heap w) (Trigger.relayConfig tr) →
     (postSettings a r now w).2 = Status200 SettingsUpdated →
     let w' := (postSettings a r now w).1.1 in
     heap w ⊆ heap w'
     ∧ readRelays (heap w') (Trigger.relayConfig tr)
       = readRelays (heap w) (Trigger.relayConfig tr)
     ∧ (activeTrigger (alarmSettings w') = Some tr
        ∨ activeTrigger (alarmSettings w') = None)
     ∧ relays (alarmSettings w') ≠ Trigger.relayConfig tr
     ∧ (∃ ids cfgs,
          ownKeys r = Some ids ∧ validateRelays r ids = inr cfgs ∧
          readRelays (heap w') (relays (alarmSettings w')) = cfgs ∧
          ∀ src' t', ∃ l',
            activeTrigger (alarmSettings (armTrigger src' t' w'))
            = Some (Trigger.mk src' t' l')
            ∧ readRelays (heap (armTrigger src' t' w')) l' = cfgs))
  ∧ (snapshotOk (heap w) (Trigger.relayConfig tr) →
     ∀ w2, rtc step w w2 →
           readRelays (heap w2) (Trigger.relayConfig tr)
           = readRelays (heap w) (Trigger.relayConfig tr)).
Proof.
  split; [|split].
  - intros w1. subst w1.
    destruct (armTrigger_spec src t w) as (l & H1 & H2 & H3 & H4 & H5 & H6 & H7 & _).
    exists l. by repeat split.
  - intros Htr Hok Hresp w'. subst w'.
    destruct (postSettings_cases a r now w)
      as [(resp & Hr & Hne)|(b & ids & cfgs & _ & _ & Hkeys & _ & Hval & Hr)].
    { rewrite Hr in Hresp. simpl in Hresp. by destruct (Hne SettingsUpdated). }
    rewrite Hr. simpl.
    pose proof (replaceConfig_spec b cfgs w)
      as (Hsub & Hnew & Hread & _ & Htr1 & _).
    pose proof (calc_heap now (replaceConfig b cfgs w)) as Hheap.
    pose proof (calc_config now (replaceConfig b cfgs w)) as [_ Hrel].
    rewrite Hheap, Hrel.
    split; [done|]. split; [by apply readRelays_weaken|]. split; [|split].
    + rewrite calc_activeTrigger.
      destruct (mainTrigger now _ _) as [[st1 ta1] s1] eqn:Hm.
      apply mainTrigger_frame in Hm as (_ & _ & _ & _ & [Hm|Hm]); simpl.
      * left. congruence.
      * by right.
    + intros Heq. apply Hnew. rewrite Heq.
      destruct Hok as (ps & Hl & _). apply elem_of_dom. by eexists.
    + exists ids, cfgs. split; [done|]. split; [done|]. split; [done|].
      intros src' t'.
      destruct (armTrigger_spec src' t'
                  (calculateAndBroadcastRelayStates now (replaceConfig b cfgs w)).1)
        as (l' & H1 & _ & _ & H4 & _).
      exists l'. split; [done|]. by rewrite H4, Hheap, Hrel.
  - intros Hok w2 Hsteps. by apply readRelays_weaken, steps_heap.
Qed.

Lemma trigger_snapshot_frame_witness :
  activeTrigger (alarmSettings orderedWorld) = Some (Trigger.mk order 0 9%nat)
  ∧ snapshotOk (heap orderedWorld) 9%nat
  ∧ (postSettings (JBool true) retimedBody 100 orderedWorld).2
    = Status200 SettingsUpdated
  ∧ readRelays (heap (postSettings (JBool true) retimedBody 100 orderedWorld).1.1)
      9%nat
    = readRelays (heap orderedWorld) 9%nat.
Proof.
  assert (snapshotOk (heap orderedWorld) 9%nat) as Hok.
  { exists [("1", 5%nat); ("2", 6%nat); ("3", 7%nat); ("4", 8%nat)].
    split; [reflexivity|].
    repeat constructor; eexists; reflexivity. }
  split; [reflexivity|]. split; [exact Hok|]. split; [reflexivity|].
  apply (proj1 (proj2 (trigger_snapshot_frame orderedWorld order 0 100
                         (JBool true) retimedBody (Trigger.mk order 0 9%nat)))
           eq_refl Hok eq_refl).
Defined.

(** ** Validation of the settings *)

Lemma numberWithin_Some v lo hi n :
  numberWithin v lo hi = Some n ↔ v = JNum n ∧ lo ≤ n ≤ hi.
Proof.
  unfold numberWithin.
  destruct v as [| | |m| | |]; try (split; [done | by intros [? _]]).
  destruct (Z.ltb_spec m lo), (Z.gtb_spec m hi); simpl; split;
    try done; try (intros [? ?]; simplify_eq; first [done | lia]).
  intros ?. simplify_eq. split; [done | lia].
Qed.

(** The loop body accepts a relay exactly when it is within the bounds,
    and then returns its four values. *)
Lemma checkRelay_inr id relay c :
  checkRelay id relay = inr c ↔
  getProp relay "onTimeMs" = Some (JNum (Relay.onTimeMs c))
  ∧ getProp relay "delayMs" = Some (JNum (Relay.delayMs c))
  ∧ getProp relay "pulseMs" = Some (JNum (Relay.pulseMs c))
  ∧ getProp relay "enabled" = Some (JBool (Relay.enabled c))
  ∧ configInBounds c.
Proof.
  unfold checkRelay, configInBounds.
  destruct (getProp relay "onTimeMs") as [vOn|];
    [|split; [done | by intros [? _]]].
  destruct (getProp relay "delayMs") as [vDel|];
    [|split; [done | by intros (_ & ? & _)]].
  destruct (getProp relay "pulseMs") as [vPul|];
    [|split; [done | by intros (_ & _ & ? & _)]].
  destruct (getProp relay "enabled") as [vEn|];
    [|split; [done | by intros (_ & _ & _ & ? & _)]].
  destruct (numberWithin vOn 100 600000) as [onT|] eqn:HOn.
  2: { split; [done|]. intros (? & _ & _ & _ & ? & _). simplify_eq.
       assert (numberWithin (JNum (Relay.onTimeMs c)) 100 600000
               = Some (Relay.onTimeMs c)) by by apply numberWithin_Some.
       congruence. }
  destruct (numberWithin vDel 0 600000) as [del|] eqn:HDel.
  2: { split; [done|]. intros (_ & ? & _ & _ & _ & ? & _). simplify_eq.
       assert (numberWithin (JNum (Relay.delayMs c)) 0 600000
               = Some (Relay.delayMs c)) by by apply numberWithin_Some.
       congruence. }
  destruct (numberWithin vPul 0 5000) as [pul|] eqn:HPul.
  2: { split; [done|]. intros (_ & _ & ? & _ & _ & _ & ?). simplify_eq.
       assert (numberWithin (JNum (Relay.pulseMs c)) 0 5000
               = Some (Relay.pulseMs c)) by by apply numberWithin_Some.
       congruence. }
  apply numberWithin_Some in HOn as [-> ?], HDel as [-> ?], HPul as [-> ?].
  destruct vEn as [| |en| | | |];
    try (split; [done | by intros (_ & _ & _ & ? & _)]).
  split.
  - intros ?. simplify_eq. simpl. done.
  - intros (? & ? & ? & ? & _). destruct c. simpl in *. by simplify_eq.
Qed.

Lemma checkRelay_accepts id relay :
  relayInBounds relay ↔ ∃ c, checkRelay id relay = inr c.
Proof.
  split.
  - intros ((n1 & Hn1 & ?) & (n2 & Hn2 & ?) & (n3 & Hn3 & ?) & (b & Hb)).
    exists (Relay.mk n1 n2 n3 b). apply checkRelay_inr.
    unfold configInBounds. simpl. done.
  - intros [c (Hn1 & Hn2 & Hn3 & Hb & (? & ? & ?))%checkRelay_inr].
    repeat split; eexists; (split; [eassumption|done]) || eassumption.
Qed.

Lemma validateRelays_inr relays ids cfgs :
  validateRelays relays ids = inr cfgs →
  jsKeys cfgs = ids
  ∧ Forall (fun kc : string * Relay.t => configInBounds (snd kc)) cfgs
  ∧ ∀ id, id ∈ ids →
          ∃ relay, getProp relays id = Some relay ∧ relayInBounds relay.
Proof.
  revert cfgs. induction ids as [|id ids IH]; simpl; intros cfgs H.
  - simplify_eq. split; [done|]. split; [constructor|].
    by intros ? ?%elem_of_nil.
  - destruct (getProp relays id) as [relay|] eqn:Hget; [|done].
    destruct (checkRelay id relay) as [r'|c] eqn:Hc; [done|].
    destruct (validateRelays relays ids) as [r'|cs]; [done|].
    simplify_eq. destruct (IH cs eq_refl) as (Hk & Hb & Hall).
    split; [by rewrite <- Hk|]. split.
    + constructor; [|done]. by apply checkRelay_inr in Hc as (_ & _ & _ & _ & ?).
    + intros id' [->|Hin]%elem_of_cons; [|by apply Hall].
      exists relay. split; [done|]. apply (checkRelay_accepts id). eauto.
Qed.

Lemma validateRelays_accepts relays ids :
  (∀ id, id ∈ ids →
         ∃ relay, getProp relays id = Some relay ∧ relayInBounds relay) →
  ∃ cfgs, validateRelays relays ids = inr cfgs.
Proof.
  induction ids as [|id ids IH]; simpl; intros Hall; [by eexists|].
  destruct (Hall id) as (relay & -> & Hb); [apply elem_of_cons; by left|].
  apply (checkRelay_accepts id) in Hb as [c ->].
  destruct IH as [cs ->]; [|by eexists].
  intros id' Hin. apply Hall, elem_of_cons. by right.
Qed.

(** What the settings handler does, in full: it accepts exactly the
    requests of [requestAccepted]; any other request leaves the state as
    it is and has no effect; an accepted one installs the boolean and a
    configuration of four relays, each within the bounds. *)
Lemma postSettings_validation a r now w :
  ((postSettings a r now w).2 = Status200 SettingsUpdated ↔
   requestAccepted a r)
  ∧ ((postSettings a r now w).2 ≠ Status200 SettingsUpdated →
     (postSettings a r now w).1 = (w, []))
  ∧ ((postSettings a r now w).2 = Status200 SettingsUpdated →
     ∃ b cfgs,
       a = JBool b
       ∧ alarmEnabled (alarmSettings (postSettings a r now w).1.1) = b
       ∧ readRelays (heap (postSettings a r now w).1.1)
           (relays (alarmSettings (postSettings a r now w).1.1)) = cfgs
       ∧ length cfgs = 4%nat
       ∧ Forall (fun kc : string * Relay.t => configInBounds (snd kc)) cfgs).
Proof.
  destruct (postSettings_cases a r now w)
    as [(resp & Hr & Hne)|(b & ids & cfgs & -> & Hty & Hkeys & Hlen & Hval & Hr)].
  - rewrite Hr. simpl.
    split; [|split]; [|done|intros Heq; by destruct (Hne _ Heq)].
    split; [intros Heq; by destruct (Hne _ Heq)|].
    intros ((b & ->) & Hty & ids & Hk & Hlen & Hall).
    unfold postSettings in Hr. rewrite Hty, Hk in Hr.
    rewrite bool_decide_true in Hr by done. simpl in Hr.
    destruct (validateRelays_accepts r ids Hall) as [cfgs Hv].
    rewrite Hv in Hr. destruct (calculateAndBroadcastRelayStates _ _).
    simplify_eq.
  - rewrite Hr. simpl. split; [|split]; [|done|].
    + split; [intros _|done]. split; [by eexists|]. split; [done|].
      exists ids. split; [done|]. split; [done|].
      by apply validateRelays_inr in Hval as (_ & _ & ?).
    + intros _. exists b, cfgs. split; [done|].
      pose proof (replaceConfig_spec b cfgs w) as (_ & _ & Hread & Hb & _).
      pose proof (calc_config now (replaceConfig b cfgs w)) as [-> ->].
      rewrite calc_heap. split; [done|]. split; [done|].
      apply validateRelays_inr in Hval as (Hk & Hb' & _).
      split; [|done]. unfold jsKeys in Hk.
      by rewrite <- Hlen, <- Hk, length_map.
Qed.

(** A request that is valid in the sense of the specification is
    accepted. *)
Lemma requestValid_accepted a r : requestValid a r → requestAccepted a r.
Proof.
  intros (Hb & ps & -> & Hperm & Hall). split; [done|]. split; [done|].
  exists (jsKeys ps). split; [done|]. split; [by rewrite Hperm|].
  intros id [relay Hrelay]%jsGet_keys. exists relay. simpl.
  rewrite Hrelay. split; [done|]. by eapply Hall.
Qed.

(** C4 (the code at the failing input). A request with a boolean
    [alarmEnabled] and four relays within the bounds, filed under the ids
    5 to 8, is not a valid request, yet the handler answers 200 and
    installs it as the live configuration; relay 1 then has no
    configuration, and the test-relay command for it raises a
    [TypeError].  A request whose [relays] is [null] is not rejected with
    a validation error either: [Object.keys(null)] raises. *)
Theorem settings_accepts_foreign_ids :
  ¬ requestValid (JBool true) foreignBody
  ∧ (postSettings (JBool true) foreignBody 0 initialWorld).2
    = Status200 SettingsUpdated
  ∧ (postSettings (JBool true) foreignBody 0 initialWorld).1.1 ≠ initialWorld
  ∧ jsKeys
      (readRelays
         (heap (postSettings (JBool true) foreignBody 0 initialWorld).1.1)
         (relays
            (alarmSettings
               (postSettings (JBool true) foreignBody 0 initialWorld).1.1)))
    = ["5"; "6"; "7"; "8"]
  ∧ (testRelayCommand "1" 10 10
       (postSettings (JBool true) foreignBody 0 initialWorld).1.1).2
    = UncaughtTypeError
  ∧ postSettings (JBool true) JNull 0 initialWorld
    = (initialWorld, [], UncaughtTypeError).
Proof.
  split; [|split; [|split; [|split; [|split]]]].
  - intros (_ & ps & Heq & Hperm & _). injection Heq as <-.
    assert ("5" ∈ ["1"; "2"; "3"; "4"]) as Hin.
    { rewrite <- Hperm. apply elem_of_cons. by left. }
    rewrite !elem_of_cons, elem_of_nil in Hin.
    by destruct Hin as [?|[?|[?|[?|[]]]]].
  - by vm_compute.
  - intros Heq.
    apply (f_equal (fun w => relays (alarmSettings w))) in Heq.
    by vm_compute in Heq.
  - by vm_compute.
  - by vm_compute.
  - reflexivity.
Qed.

(** ** Scenarios of the specification *)

(** Scenario A: relay 1 with [onTimeMs = 5000], no delay, no pulse. *)
Example scenario_A :
  relayState 100 0 (Relay.mk 5000 0 0 true) = true
  ∧ relayState 4999 0 (Relay.mk 5000 0 0 true) = true
  ∧ relayState 5000 0 (Relay.mk 5000 0 0 true) = false
  ∧ relayFinished 5000 0 (Relay.mk 5000 0 0 true) = true.
Proof. by vm_compute. Qed.

(** Scenario B: relay 2 with [onTimeMs = 2000], [delayMs = 1000],
    [pulseMs = 200]. *)
Example scenario_B :
  relayState 1050 0 (Relay.mk 2000 1000 200 true) = true
  ∧ relayState 1250 0 (Relay.mk 2000 1000 200 true) = false
  ∧ relayState 1450 0 (Relay.mk 2000 1000 200 true) = true.
Proof. by vm_compute. Qed.

(** Scenario D: deactivation with a trigger and a test both live. *)
Example scenario_D :
  let r := deactivateAlarm 7950 testedWorld in
  activeTrigger (alarmSettings r.1.1) = None
  ∧ testRelay (alarmSettings r.1.1) = Test.cleared
  ∧ snapshot (alarmSettings r.1.1) = (allOff, false)
  ∧ intervalId r.1.1 = None
  ∧ r.2 = Status200 AlarmCleared.
Proof. by vm_compute. Qed.

(** The repeated evaluation of the gate's idempotence needs the test to
    name one of the four relays: clearing a test of a relay 7 adds a
    property ['7'] to the states, which the next evaluation does not
    have. *)
Example idempotence_needs_relay_id :
  ¬ testIdOk (testRelay (alarmSettings strayTestWorld))
  ∧ snapshot
      (alarmSettings
         (calculateAndBroadcastRelayStates 600
            (calculateAndBroadcastRelayStates 600 strayTestWorld).1).1)
    ≠ snapshot
        (alarmSettings (calculateAndBroadcastRelayStates 600 strayTestWorld).1).
Proof.
  split.
  - unfold testIdOk. simpl. rewrite !elem_of_cons, elem_of_nil.
    intros [?|[?|[?|[?|[]]]]]; discriminate.
  - intros Heq. by vm_compute in Heq.
Qed.

(* ================================================================== *)
(** * Further properties of the engine and of the handlers *)
(* ================================================================== *)

(** ** The pulse wave *)

Lemma half_period_flip x p :
  0 ≤ x → 0 < p →
  ((x + p) `mod` (2 * p) <? p) = negb (x `mod` (2 * p) <? p).
Proof.
  intros Hx Hp.
  pose proof (Z.mod_pos_bound x (2 * p)) as Hr.
  pose proof (Z.div_mod x (2 * p)) as Hdiv.
  destruct (Z.ltb_spec (x `mod` (2 * p)) p) as [Hlt|Hge]; simpl.
  - rewrite <- (Z.mod_unique (x + p) (2 * p) (x / (2 * p)) (x `mod` (2 * p) + p))
      by lia.
    apply Z.ltb_ge. lia.
  - rewrite <- (Z.mod_unique (x + p) (2 * p) (x / (2 * p) + 1)
                  (x `mod` (2 * p) - p)) by lia.
    apply Z.ltb_lt. lia.
Qed.

Lemma relayState_in_window now ts c :
  Relay.enabled c = true → 0 < Relay.pulseMs c → inWindow (now - ts) c →
  relayState now ts c
  = ((now - ts - Relay.delayMs c) `mod` (2 * Relay.pulseMs c)
     <? Relay.pulseMs c).
Proof.
  intros Hen Hp Hwin.
  destruct (Z.ltb_spec ((now - ts - Relay.delayMs c) `mod` (2 * Relay.pulseMs c))
              (Relay.pulseMs c)) as [Hlt|Hge].
  - apply relayState_true. unfold mainOn. done.
  - apply not_true_is_false. rewrite relayState_true. unfold mainOn.
    intros (_ & _ & Hon). specialize (Hon Hp). lia.
Qed.

(** The whole-millisecond loop body inside the window of a pulsing
    relay: [pulseMs] later the state is the opposite, [2 * pulseMs] later
    the same. *)
Lemma relayState_square_wave (now ts : Z) (c : Relay.t) :
  Relay.enabled c = true → 0 < Relay.pulseMs c →
  inWindow (now - ts) c →
  (inWindow (now + Relay.pulseMs c - ts) c →
   relayState (now + Relay.pulseMs c) ts c = negb (relayState now ts c))
  ∧ (inWindow (now + 2 * Relay.pulseMs c - ts) c →
     relayState (now + 2 * Relay.pulseMs c) ts c = relayState now ts c).
Proof.
  intros Hen Hp Hwin.
  assert (∀ n, inWindow (n - ts) c → inWindow (n + Relay.pulseMs c - ts) c →
               relayState (n + Relay.pulseMs c) ts c = negb (relayState n ts c))
    as Hflip.
  { intros n Hn Hn'. rewrite !relayState_in_window by done.
    replace (n + Relay.pulseMs c - ts - Relay.delayMs c)
      with (n - ts - Relay.delayMs c + Relay.pulseMs c) by lia.
    apply half_period_flip; [|done]. unfold inWindow in Hn. lia. }
  split; [by apply Hflip|]. intros Hwin2.
  assert (inWindow (now + Relay.pulseMs c - ts) c) as Hmid.
  { unfold inWindow in *. lia. }
  replace (now + 2 * Relay.pulseMs c)
    with (now + Relay.pulseMs c + Relay.pulseMs c) by lia.
  rewrite Hflip, Hflip, negb_involutive; try done.
  by replace (now + Relay.pulseMs c + Relay.pulseMs c)
    with (now + 2 * Relay.pulseMs c) by lia.
Qed.

(** ** What an evaluation leaves alone *)

Lemma calc_keeps_or_clears now w :
  (activeTrigger (alarmSettings (calculateAndBroadcastRelayStates now w).1)
   = activeTrigger (alarmSettings w)
   ∨ activeTrigger (alarmSettings (calculateAndBroadcastRelayStates now w).1)
     = None)
  ∧ (testRelay (alarmSettings (calculateAndBroadcastRelayStates now w).1)
     = testRelay (alarmSettings w)
     ∨ testRelay (alarmSettings (calculateAndBroadcastRelayStates now w).1)
       = Test.cleared).
Proof.
  split.
  - rewrite calc_activeTrigger.
    destruct (mainTrigger now (heap w) (alarmSettings w)) as [[st1 ta1] s1] eqn:Hm.
    by apply mainTrigger_frame in Hm as (_ & _ & _ & _ & ?).
  - rewrite calc_testRelay.
    destruct (testOverride now allOff false (alarmSettings w))
      as [[[st2 ta2] s2] e2] eqn:Ht.
    by apply testOverride_frame in Ht as (_ & _ & _ & _ & ?).
Qed.

Lemma jsGet_elem_of {A} k (v : A) (o : obj A) :
  jsGet k o = Some v → (k, v) ∈ o.
Proof.
  induction o as [|[k0 v0] o IH]; simpl; [done|].
  case_bool_decide as Hk.
  - intros ?. simplify_eq. apply elem_of_cons. by left.
  - intros Hget. apply elem_of_cons. right. by apply IH.
Qed.

(** ** How long a trigger lives *)

Lemma step_configOk w w' : step w w' → configOk w → configOk w'.
Proof.
  intros Hstep (Hlive & Hin & Htr).
  assert (∀ now w1,
            heap w1 = heap w → relays (alarmSettings w1) = relays (alarmSettings w) →
            (activeTrigger (alarmSettings w1) = activeTrigger (alarmSettings w)
             ∨ activeTrigger (alarmSettings w1) = None) →
            configOk (calculateAndBroadcastRelayStates now w1).1) as Hsame.
  { intros now w1 Hh Hr Ht. unfold configOk.
    rewrite calc_heap, (proj2 (calc_config now w1)), Hh, Hr.
    split; [done|]. split; [done|]. intros tr Htr'.
    destruct (calc_keeps_or_clears now w1) as [[Hk|Hk] _];
      rewrite Hk in Htr'; [|done].
    destruct Ht as [Ht|Ht]; rewrite Ht in Htr'; [by apply Htr | done]. }
  destruct Hstep as [w0 now|w0 ok t now|w0 a r now|w0 id t now|w0 now].
  - apply Hsame; auto.
  - destruct (webhookOrder_cases ok t now w0) as [[resp ->]|(_ & _ & ->)];
      [done|]. simpl.
    destruct (armTrigger_spec order t w0)
      as (l & Hnew & _ & _ & Hread & Hok & Hsub & Hrel & _).
    unfold configOk.
    rewrite calc_heap, (proj2 (calc_config now (armTrigger order t w0))), Hrel.
    destruct (readRelays_weaken _ _ _ Hlive Hsub) as [-> ?].
    split; [done|]. split; [done|]. intros tr Htr'.
    destruct (calc_keeps_or_clears now (armTrigger order t w0)) as [[Hk|Hk] _];
      rewrite Hk in Htr'; [|done].
    rewrite Hnew in Htr'. injection Htr' as <-. simpl. by rewrite Hread.
  - destruct (postSettings_cases a r now w0)
      as [(resp & -> & _)|(b & ids & cfgs & _ & _ & _ & _ & Hval & ->)]; [done|].
    simpl. apply validateRelays_inr in Hval as (_ & Hb & _).
    unfold configOk.
    rewrite calc_heap, (proj2 (calc_config now (replaceConfig b cfgs w0))).
    assert (activeTrigger (alarmSettings (replaceConfig b cfgs w0))
            = activeTrigger (alarmSettings w0)) as Htr0
      by apply replaceConfig_spec.
    pose proof (allocRelays_spec cfgs (heap w0))
      as (Hsub & _ & Hread & Hok & _).
    unfold replaceConfig in *.
    destruct (allocRelays cfgs (heap w0)) as [l h']. simpl in *.
    split; [done|]. split; [by rewrite Hread|]. intros tr Htr'.
    destruct (calc_keeps_or_clears now
                (mkWorld (mkSettings b l (activeTrigger (alarmSettings w0))
                            (testRelay (alarmSettings w0))
                            (currentRelayStates (alarmSettings w0))
                            (triggerActive (alarmSettings w0)))
                         (intervalId w0) h' (timers w0))) as [[Hk|Hk] _];
      rewrite Hk in Htr'; [|done]. simpl in Htr'.
    destruct (Htr tr Htr') as [Hok' Hin'].
    destruct (readRelays_weaken _ _ _ Hok' Hsub) as [-> ?]. done.
  - destruct (testRelayCommand_cases id t now w0)
      as [(resp & -> & _)|(c & _ & _ & _ & ->)]; [done|].
    simpl. apply Hsame; auto.
  - destruct (deactivateAlarm_cases now w0) as [->| ->]; [done|].
    simpl. apply Hsame; auto.
Qed.

Lemma steps_configOk w w' : rtc step w w' → configOk w → configOk w'.
Proof.
  induction 1 as [|w1 w2 w3 Hstep _ IH]; [done|].
  intros Hok. by apply IH, (step_configOk w1).
Qed.

Lemma initialWorld_configOk : configOk initialWorld.
Proof.
  split; [|split].
  - exists [("1", 0%nat); ("2", 1%nat); ("3", 2%nat); ("4", 3%nat)].
    split; [reflexivity|]. repeat constructor; eexists; reflexivity.
  - unfold allInBounds, configInBounds.
    repeat constructor; simpl; lia.
  - intros tr Htr. discriminate Htr.
Qed.

(** X3. A trigger lives at most twenty minutes: in every state reached,
    by ticks and commands, from a state whose configurations are within
    the bounds (the initial state is one), an evaluation made with the
    alarm enabled 1,200,000 ms or more after the trigger's start clears
    it. *)
Theorem trigger_lifetime_bound (w0 w : World) (now : Z) (tr : Trigger.t) :
  configOk w0 → rtc step w0 w →
  activeTrigger (alarmSettings w) = Some tr →
  alarmEnabled (alarmSettings w) = true →
  Trigger.timestamp tr + 1200000 ≤ now →
  activeTrigger (alarmSettings (calculateAndBroadcastRelayStates now w).1)
  = None.
Proof.
  intros Hok0 Hsteps Htr Hen Hlate.
  destruct (steps_configOk _ _ Hsteps Hok0) as (_ & _ & Hsnap).
  destruct (Hsnap tr Htr) as [_ Hin].
  rewrite calc_activeTrigger, (mainTrigger_enabled _ _ _ tr) by done.
  assert (allEnabledTriggerRelaysFinished now (Trigger.timestamp tr)
            (readRelays (heap w) (Trigger.relayConfig tr)) = true) as ->; [|done].
  apply finished_spec. intros k c Hk _.
  apply jsGet_elem_of in Hk.
  unfold allInBounds in Hin. rewrite Forall_forall in Hin.
  destruct (Hin _ Hk) as (? & ? & ?). simpl in *. lia.
Qed.

Lemma trigger_lifetime_bound_witness :
  configOk initialWorld
  ∧ rtc step initialWorld orderedWorld
  ∧ activeTrigger
      (alarmSettings (calculateAndBroadcastRelayStates 1200000 orderedWorld).1)
    = None.
Proof.
  assert (rtc step initialWorld orderedWorld) as Hsteps.
  { apply rtc_once. apply (step_order initialWorld true 0 0). }
  assert (0 + 1200000 ≤ 1200000) as Hlate by lia.
  split; [exact initialWorld_configOk|]. split; [exact Hsteps|].
  exact (trigger_lifetime_bound initialWorld orderedWorld 1200000
           (Trigger.mk order 0 9%nat) initialWorld_configOk Hsteps
           eq_refl eq_refl Hlate).
Defined.

(** X6. An evaluation never creates or alters anything: it leaves the
    alarm switch, the live configuration and every object of the heap as
    they are; it keeps the trigger or, only with the alarm enabled,
    clears it; it keeps the test or, only when the test is pending and
    its duration has elapsed, resets it to the cleared literal. *)
Theorem evaluation_only_clears (now : Z) (w : World) :
  let w' := (calculateAndBroadcastRelayStates now w).1 in
  alarmEnabled (alarmSettings w') = alarmEnabled (alarmSettings w)
  ∧ relays (alarmSettings w') = relays (alarmSettings w)
  ∧ heap w' = heap w
  ∧ (activeTrigger (alarmSettings w') = activeTrigger (alarmSettings w)
     ∨ (activeTrigger (alarmSettings w') = None
        ∧ alarmEnabled (alarmSettings w) = true))
  ∧ (testRelay (alarmSettings w') = testRelay (alarmSettings w)
     ∨ (testRelay (alarmSettings w') = Test.cleared
        ∧ testPending (testRelay (alarmSettings w)) = true
        ∧ ¬ testInFlight now (testRelay (alarmSettings w)))).
Proof.
  intros w'. subst w'.
  destruct (calc_config now w) as [-> ->]. rewrite calc_heap.
  split; [done|]. split; [done|]. split; [done|]. split.
  - rewrite calc_activeTrigger. unfold mainTrigger.
    destruct (activeTrigger (alarmSettings w)) as [tr|] eqn:Htr;
      [|simpl; left; by rewrite Htr].
    destruct (alarmEnabled (alarmSettings w)); [|simpl; left; by rewrite Htr].
    destruct (allEnabledTriggerRelaysFinished _ _ _); simpl;
      [by right | left; by rewrite Htr].
  - rewrite calc_testRelay.
    destruct (test_cases now (testRelay (alarmSettings w)))
      as [Hc|[(i&Hi&Hc)|(i&Hi&Hp&Hc)]].
    + rewrite testOverride_idle by done. by left.
    + rewrite (testOverride_inflight _ _ _ _ i) by done. by left.
    + rewrite (testOverride_finished _ _ _ _ i) by done. right. simpl.
      split; [done|]. split.
      * unfold testPending. rewrite Hi. apply Z.gtb_lt. lia.
      * intros (_ & _ & ?). lia.
Qed.

(** ** What an evaluation emits *)

(** X5. An evaluation saves at most twice and broadcasts at most once,
    after saving; what it broadcasts is the state it has just stored:
    the alarm switch, [triggerActive], the relay states and the test
    descriptor of [alarmSettings] after the evaluation. *)
Theorem evaluation_effects (now : Z) (w : World) :
  ∃ saves sent,
    (calculateAndBroadcastRelayStates now w).2 = saves ++ sent
    ∧ Forall (fun e => ∃ s, e = Saved s) saves
    ∧ (length saves ≤ 2)%nat
    ∧ (sent = []
       ∨ sent = [Broadcast
                   (payloadOf
                      (alarmSettings
                         (calculateAndBroadcastRelayStates now w).1))]).
Proof.
  destruct (mainTrigger now (heap w) (alarmSettings w)) as [[st1 ta1] s1] eqn:Hm.
  destruct (testOverride now st1 ta1 s1) as [[[st2 ta2] s2] e2] eqn:Ht.
  destruct (calc_stages _ _ _ _ _ _ _ _ _ Hm Ht) as (-> & -> & _).
  assert (e2 = [] ∨ ∃ s, e2 = [Saved s]) as He2.
  { destruct (test_cases now (testRelay s1)) as [Hc|[(i&Hi&Hc)|(i&Hi&Hp&Hc)]].
    - rewrite testOverride_idle in Ht by done. left. by simplify_eq.
    - rewrite (testOverride_inflight _ _ _ _ i) in Ht by done. left.
      by simplify_eq.
    - rewrite (testOverride_finished _ _ _ _ i) in Ht by done. right.
      simplify_eq. by eexists. }
  unfold publish. destruct (_ || _ || _); simpl.
  - destruct (_ && _ && _); simpl.
    + eexists (e2 ++ [_]), [_]. rewrite <- app_assoc. split; [done|].
      split; [|split; [|by right]].
      * apply Forall_app. split; [|repeat constructor; by eexists].
        destruct He2 as [->|[s ->]]; repeat constructor; by eexists.
      * rewrite length_app. destruct He2 as [->|[s ->]]; simpl; lia.
    + exists e2, [Broadcast (payloadOf (setLive s2 st2 ta2))].
      split; [done|]. split; [|split; [|by right]].
      * destruct He2 as [->|[s ->]]; repeat constructor; by eexists.
      * destruct He2 as [->|[s ->]]; simpl; lia.
  - exists e2, []. split; [done|]. split; [|split; [|by left]].
    + destruct He2 as [->|[s ->]]; repeat constructor; by eexists.
    + destruct He2 as [->|[s ->]]; simpl; lia.
Qed.

(** ** The shape of the relay states *)

Lemma jsKeys_replace {A} k (v : A) (o : obj A) :
  jsKeys (jsReplace k v o) = jsKeys o.
Proof.
  unfold jsKeys. induction o as [|[k0 v0] o IH]; simpl; [done|].
  case_bool_decide; simpl; [done | by rewrite IH].
Qed.

Lemma jsKeys_set_in {A} k (v : A) (o : obj A) :
  k ∈ jsKeys o → jsKeys (jsSet k v o) = jsKeys o.
Proof.
  intros [v0 Hv]%jsGet_keys. unfold jsSet. rewrite Hv. apply jsKeys_replace.
Qed.

Lemma jsGet_set_is_Some {A} k k' (v : A) (o : obj A) :
  is_Some (jsGet k o) → is_Some (jsGet k (jsSet k' v o)).
Proof.
  intros H. destruct (decide (k' = k)) as [->|Hne].
  - rewrite jsGet_set_eq. by eexists.
  - by rewrite jsGet_set_ne.
Qed.

Lemma relayLoop_keys now ts cfg st :
  (∀ k, k ∈ jsKeys cfg → k ∈ jsKeys st) →
  jsKeys (relayLoop now ts cfg st) = jsKeys st.
Proof.
  unfold relayLoop. generalize (jsKeys cfg) as ks. intros ks. revert st.
  induction ks as [|k0 ks IH]; intros st Hin; [done|]. cbn [foldl].
  assert (jsKeys (match jsGet k0 cfg with
                  | Some config => jsSet k0 (relayState now ts config) st
                  | None => st
                  end) = jsKeys st) as Hkeys.
  { destruct (jsGet k0 cfg); [|done]. apply jsKeys_set_in, Hin, elem_of_cons.
    by left. }
  rewrite IH, Hkeys; [done|]. intros k Hk. rewrite Hkeys.
  apply Hin, elem_of_cons. by right.
Qed.

Lemma mainStates_cases now h s :
  mainStates now h s = allOff
  ∨ ∃ tr, activeTrigger s = Some tr
          ∧ mainStates now h s
            = relayLoop now (Trigger.timestamp tr)
                (readRelays h (Trigger.relayConfig tr)) allOff.
Proof.
  unfold mainStates, mainTrigger.
  destruct (activeTrigger s) as [tr|]; [|by left].
  destruct (alarmEnabled s); [|by left].
  destruct (allEnabledTriggerRelaysFinished _ _ _); [by left|].
  right. by exists tr.
Qed.

Lemma evaluate_states_cases now h s :
  (evaluate now h s).1 = mainStates now h s
  ∨ ∃ i v, Test.id (testRelay s) = Some i
           ∧ (evaluate now h s).1 = jsSet (pretty i) v (mainStates now h s).
Proof.
  unfold evaluate, mainStates.
  destruct (mainTrigger now h s) as [[st1 ta1] s1] eqn:Hm.
  apply mainTrigger_frame in Hm as (_ & _ & Htest & _).
  destruct (test_cases now (testRelay s1)) as [Hc|[(i&Hi&Hc)|(i&Hi&Hp&Hc)]].
  - rewrite testOverride_idle by done. by left.
  - rewrite (testOverride_inflight _ _ _ _ i) by done. right.
    exists i. eexists. split; [congruence | done].
  - rewrite (testOverride_finished _ _ _ _ i) by done. simpl.
    destruct (activeTrigger s1); [by left|]. right.
    exists i, false. split; [congruence | done].
Qed.

(** X4. The relay states always cover the four relays: after every
    evaluation [currentRelayStates] has the properties ['1'] to ['4'],
    and what is broadcast is that object; when the trigger's snapshot and
    the test name no other relay, the object has exactly these four
    properties, in this order. *)
Theorem relay_states_shape (now : Z) (w : World) :
  let r := calculateAndBroadcastRelayStates now w in
  (∀ k, k ∈ ["1"; "2"; "3"; "4"] →
        is_Some (jsGet k (currentRelayStates (alarmSettings r.1))))
  ∧ (∀ p, Broadcast p ∈ r.2 →
          Payload.relays p = currentRelayStates (alarmSettings r.1))
  ∧ ((∀ tr k, activeTrigger (alarmSettings w) = Some tr →
              k ∈ jsKeys (readRelays (heap w) (Trigger.relayConfig tr)) →
              k ∈ ["1"; "2"; "3"; "4"]) →
     testIdOk (testRelay (alarmSettings w)) →
     jsKeys (currentRelayStates (alarmSettings r.1)) = ["1"; "2"; "3"; "4"]).
Proof.
  intros r. subst r.
  pose proof (calc_snapshot now w) as Hsnap.
  apply (f_equal fst) in Hsnap. simpl in Hsnap. rewrite Hsnap.
  split; [|split].
  - intros k Hk.
    assert (is_Some (jsGet k (mainStates now (heap w) (alarmSettings w))))
      as Hmain.
    { destruct (mainStates_cases now (heap w) (alarmSettings w))
        as [->|(tr & _ & ->)].
      - rewrite jsGet_allOff by done. by eexists.
      - rewrite relayLoop_get. destruct (jsGet k _); [by eexists|].
        rewrite jsGet_allOff by done. by eexists. }
    destruct (evaluate_states_cases now (heap w) (alarmSettings w))
      as [->|(i & v & _ & ->)]; [done|].
    by apply jsGet_set_is_Some.
  - intros p Hp. apply calc_payload in Hp.
    by apply (f_equal fst) in Hp.
  - intros Hsnapkeys Htest.
    assert (jsKeys (mainStates now (heap w) (alarmSettings w))
            = ["1"; "2"; "3"; "4"]) as Hmain.
    { destruct (mainStates_cases now (heap w) (alarmSettings w))
        as [->|(tr & Htr & ->)]; [done|].
      rewrite relayLoop_keys; [done|]. intros k Hk. by eapply Hsnapkeys. }
    destruct (evaluate_states_cases now (heap w) (alarmSettings w))
      as [->|(i & v & Hi & ->)]; [done|].
    rewrite jsKeys_set_in; [done|]. rewrite Hmain.
    unfold testIdOk in Htest. by rewrite Hi in Htest.
Qed.

Lemma relay_states_shape_witness :
  testIdOk (testRelay (alarmSettings testedWorld))
  ∧ jsKeys
      (currentRelayStates
         (alarmSettings (calculateAndBroadcastRelayStates 7950 testedWorld).1))
    = ["1"; "2"; "3"; "4"].
Proof.
  assert (testIdOk (testRelay (alarmSettings testedWorld))) as Hok.
  { assert (testRelay (alarmSettings testedWorld) = Test.mk (Some 3) 500 0 7900)
      as -> by (vm_compute; reflexivity).
    unfold testIdOk. cbn [Test.id].
    assert (pretty 3 = "3") as -> by (vm_compute; reflexivity).
    apply elem_of_cons. right. apply elem_of_cons.
    right. apply elem_of_cons. by left. }
  split; [exact Hok|].
  apply (proj2 (proj2 (relay_states_shape 7950 testedWorld))); [|exact Hok].
  intros tr k Htr Hk.
  assert (activeTrigger (alarmSettings testedWorld)
          = Some (Trigger.mk order 0 9%nat)) as Htr'
    by (vm_compute; reflexivity).
  rewrite Htr' in Htr. injection Htr as <-.
  assert (jsKeys (readRelays (heap testedWorld)
                    (Trigger.relayConfig (Trigger.mk order 0 9%nat)))
          = ["1"; "2"; "3"; "4"]) as Hkeys by (vm_compute; reflexivity).
  rewrite Hkeys in Hk. exact Hk.
Defined.

(** ** Idle states and deactivation *)

Lemma calc_quiet now w :
  activeTrigger (alarmSettings w) = None →
  testPending (testRelay (alarmSettings w)) = false →
  snapshot (alarmSettings w) = (allOff, false) →
  alarmSettings (calculateAndBroadcastRelayStates now w).1 = alarmSettings w
  ∧ (calculateAndBroadcastRelayStates now w).2 = [].
Proof.
  intros Htr Htest Hsnap.
  pose proof (mainTrigger_idle now (heap w) (alarmSettings w) (or_introl Htr))
    as Hm.
  pose proof (testOverride_idle now allOff false (alarmSettings w) Htest) as Ht.
  destruct (calc_stages _ _ _ _ _ _ _ _ _ Hm Ht) as (-> & -> & _).
  by rewrite publish_quiet.
Qed.

(** X7. An idle system is a fixed point of the evaluation: with no
    trigger, no test, every relay stored off, [triggerActive] false and no
    interval timer, an evaluation at any instant changes nothing, saves
    nothing and broadcasts nothing. *)
Theorem idle_is_fixed_point (now : Z) (w : World) :
  activeTrigger (alarmSettings w) = None →
  Test.id (testRelay (alarmSettings w)) = None →
  snapshot (alarmSettings w) = (allOff, false) →
  intervalId w = None →
  calculateAndBroadcastRelayStates now w = (w, []).
Proof.
  intros Htr Hid Hsnap Hiv.
  assert (testPending (testRelay (alarmSettings w)) = false) as Htest.
  { unfold testPending. by rewrite Hid. }
  pose proof (mainTrigger_idle now (heap w) (alarmSettings w) (or_introl Htr))
    as Hm.
  pose proof (testOverride_idle now allOff false (alarmSettings w) Htest) as Ht.
  unfold calculateAndBroadcastRelayStates.
  rewrite Hm, Ht, publish_quiet by done.
  unfold manageInterval. rewrite Htr, Hid, Hiv.
  destruct w as [s iv h ts]. simpl in *. by subst iv.
Qed.

Lemma idle_is_fixed_point_witness :
  activeTrigger (alarmSettings initialWorld) = None
  ∧ Test.id (testRelay (alarmSettings initialWorld)) = None
  ∧ snapshot (alarmSettings initialWorld) = (allOff, false)
  ∧ intervalId initialWorld = None
  ∧ calculateAndBroadcastRelayStates 12345 initialWorld = (initialWorld, []).
Proof.
  split; [reflexivity|]. split; [reflexivity|]. split; [reflexivity|].
  split; [reflexivity|].
  exact (idle_is_fixed_point 12345 initialWorld eq_refl eq_refl eq_refl eq_refl).
Defined.

(** X8. Deactivation: the command answers "cleared" exactly when there is
    a trigger, a test id, or [triggerActive] is set; whatever the answer,
    the state it leaves has no trigger, no test id and [triggerActive]
    false; when it clears, every relay is stored off, the test is the
    cleared literal, [intervalId] is null and (one timer at most being
    live before) no timer is live; and a second deactivation finds
    nothing to do and changes nothing. *)
Theorem deactivate_clears_everything (now : Z) (w : World) :
  let r := deactivateAlarm now w in
  (r.2 = Status200 AlarmCleared ↔
   is_Some (activeTrigger (alarmSettings w))
   ∨ is_Some (Test.id (testRelay (alarmSettings w)))
   ∨ triggerActive (alarmSettings w) = true)
  ∧ activeTrigger (alarmSettings r.1.1) = None
  ∧ Test.id (testRelay (alarmSettings r.1.1)) = None
  ∧ triggerActive (alarmSettings r.1.1) = false
  ∧ (r.2 = Status200 AlarmCleared →
     testRelay (alarmSettings r.1.1) = Test.cleared
     ∧ currentRelayStates (alarmSettings r.1.1) = allOff
     ∧ intervalId r.1.1 = None
     ∧ (timerInv w → timers r.1.1 = ∅))
  ∧ ∀ now', deactivateAlarm now' r.1.1
            = (r.1.1, [], Status200 NothingToDeactivate).
Proof.
  intros r. subst r.
  destruct (bool_decide (is_Some (activeTrigger (alarmSettings w)))
            || bool_decide (is_Some (Test.id (testRelay (alarmSettings w))))
            || triggerActive (alarmSettings w)) eqn:Hcond.
  - assert (deactivateAlarm now w
            = ((calculateAndBroadcastRelayStates now (disarm w)).1,
               (calculateAndBroadcastRelayStates now (disarm w)).2,
               Status200 AlarmCleared)) as ->.
    { unfold deactivateAlarm. cbv zeta. rewrite Hcond.
      by destruct (calculateAndBroadcastRelayStates now (disarm w)). }
    set (w1 := disarm w).
    assert (activeTrigger (alarmSettings w1) = None) as Htr by done.
    assert (testPending (testRelay (alarmSettings w1)) = false) as Htest by done.
    pose proof (mainTrigger_idle now (heap w1) (alarmSettings w1)
                  (or_introl Htr)) as Hm.
    pose proof (testOverride_idle now allOff false (alarmSettings w1) Htest)
      as Ht.
    destruct (calc_stages _ _ _ _ _ _ _ _ _ Hm Ht) as (Hs & _ & Hi).
    pose proof (publish_snapshot allOff false (alarmSettings w1)) as Hsnap.
    pose proof (publish_frame allOff false (alarmSettings w1))
      as (_ & _ & Htr' & Htest').
    rewrite <- Hs in Hsnap, Htr', Htest'.
    destruct (manageInterval_spec (publish allOff false (alarmSettings w1)).1
                (intervalId w1) (timers w1)) as (Hsome & Hset & _).
    rewrite <- Hi, <- Hs in Hsome. simpl in Hsome.
    rewrite <- Hi in Hset. simpl in Hset.
    destruct (calculateAndBroadcastRelayStates now w1) as [w2 es] eqn:Hcalc.
    simpl in *. injection Hsnap as Hst Hta.
    assert (intervalId w2 = None) as Hiv.
    { destruct (intervalId w2) eqn:Hiv; [|done].
      destruct (proj1 Hsome) as [[? Hx]|[? Hx]]; [by eexists| |].
      - rewrite Htr' in Hx. discriminate Hx.
      - rewrite Htest' in Hx. discriminate Hx. }
    split.
    { split; [intros _|done]. apply orb_true_iff in Hcond as [Hcond|Hcond].
      - apply orb_true_iff in Hcond as [Hc|Hc];
          apply bool_decide_eq_true in Hc; auto.
      - auto. }
    split; [by rewrite Htr'|]. split; [by rewrite Htest'|].
    split; [done|]. split.
    { intros _. split; [done|]. split; [done|]. split; [done|].
      intros Hinv. rewrite Hset by exact Hinv. by rewrite Hiv. }
    intros now'. unfold deactivateAlarm. cbv zeta.
    rewrite Htr', Htest', Hta. done.
  - assert (deactivateAlarm now w = (w, [], Status200 NothingToDeactivate))
      as ->.
    { unfold deactivateAlarm. cbv zeta. by rewrite Hcond. }
    simpl. apply orb_false_iff in Hcond as [Hcond Hta].
    apply orb_false_iff in Hcond as [Htr Hid].
    apply bool_decide_eq_false in Htr, Hid.
    apply eq_None_not_Some in Htr. apply eq_None_not_Some in Hid.
    split.
    { split; [done|]. intros [[? Hx]|[[? Hx]|Hx]]; congruence. }
    split; [done|]. split; [done|]. split; [done|]. split; [done|].
    intros now'. unfold deactivateAlarm. cbv zeta. by rewrite Htr, Hid, Hta.
Qed.

(** ** The order webhook *)

(** X9. The order webhook: a wrong secret is answered 401 and a disabled
    alarm "ignored", both without touching anything; otherwise the answer
    is "triggered" and the handler arms a trigger of source [order]
    started at [t] on a new copy of the live configuration, which its
    evaluation keeps, or clears at once when every enabled relay of the
    configuration is already over.  A trigger that was in flight is not
    kept in either case. *)
Theorem order_replaces_trigger (ok : bool) (t now : Z) (w : World) :
  let r := webhookOrder ok t now w in
  (ok = false → r = (w, [], Status401))
  ∧ (ok = true → alarmEnabled (alarmSettings w) = false →
     r = (w, [], Status200 TriggerIgnored))
  ∧ (ok = true → alarmEnabled (alarmSettings w) = true →
     r.2 = Status200 AlarmTriggered
     ∧ relays (alarmSettings r.1.1) = relays (alarmSettings w)
     ∧ alarmEnabled (alarmSettings r.1.1) = true
     ∧ (∃ l, (l ∉ dom (heap w))
             ∧ readRelays (heap r.1.1) l
               = readRelays (heap w) (relays (alarmSettings w))
             ∧ (activeTrigger (alarmSettings r.1.1)
                = Some (Trigger.mk order t l)
                ∨ (activeTrigger (alarmSettings r.1.1) = None
                   ∧ allEnabledTriggerRelaysFinished now t
                       (readRelays (heap w) (relays (alarmSettings w)))
                     = true)))
     ∧ ∀ old, activeTrigger (alarmSettings w) = Some old →
              Trigger.relayConfig old ∈ dom (heap w) →
              activeTrigger (alarmSettings r.1.1) ≠ Some old).
Proof.
  intros r. subst r. split; [by intros ->|]. split.
  { intros -> Hoff. unfold webhookOrder. simpl. by rewrite Hoff. }
  intros -> Hon.
  assert (webhookOrder true t now w
          = ((calculateAndBroadcastRelayStates now (armTrigger order t w)).1,
             (calculateAndBroadcastRelayStates now (armTrigger order t w)).2,
             Status200 AlarmTriggered)) as ->.
  { unfold webhookOrder. simpl. rewrite Hon.
    by destruct (calculateAndBroadcastRelayStates _ _). }
  simpl.
  destruct (armTrigger_spec order t w)
    as (l & Hnew & Hfresh & _ & Hread & _ & _ & Hrel & Hen).
  destruct (calc_config now (armTrigger order t w)) as [-> ->].
  rewrite calc_heap, Hrel, Hen, Hon.
  assert (activeTrigger
            (alarmSettings
               (calculateAndBroadcastRelayStates now (armTrigger order t w)).1)
          = Some (Trigger.mk order t l)
          ∨ (activeTrigger
               (alarmSettings
                  (calculateAndBroadcastRelayStates now (armTrigger order t w)).1)
             = None
             ∧ allEnabledTriggerRelaysFinished now t
                 (readRelays (heap w) (relays (alarmSettings w))) = true))
    as Hres.
  { rewrite calc_activeTrigger.
    rewrite (mainTrigger_enabled _ _ _ (Trigger.mk order t l))
      by (done || by rewrite Hen).
    simpl. rewrite Hread.
    destruct (allEnabledTriggerRelaysFinished _ _ _); simpl; [by right|].
    by left. }
  split; [done|]. split; [done|]. split; [done|]. split.
  - exists l. done.
  - intros old Hold Hdom Heq.
    destruct Hres as [Hres|[Hres _]]; rewrite Hres in Heq; [|done].
    injection Heq as <-. simpl in Hdom. done.
Qed.

Lemma order_replaces_trigger_witness :
  alarmEnabled (alarmSettings orderedWorld) = true
  ∧ (webhookOrder true 3000 3000 orderedWorld).2 = Status200 AlarmTriggered.
Proof.
  split; [reflexivity|].
  exact (proj1 (proj2 (proj2 (order_replaces_trigger true 3000 3000
                                orderedWorld))
                 eq_refl eq_refl)).
Defined.

(** ** The test-relay command *)

(** X10. The test-relay command: an id other than ['1'] to ['4'] is
    answered 400; a valid id without a live configuration raises a
    [TypeError]; a disabled relay is answered 400; in these three cases
    nothing is changed or emitted.  An enabled relay is answered 200, and
    the test left by the handler's evaluation is the new one (this id,
    500 ms, the relay's live [pulseMs], started at [t]), or the cleared
    literal if 500 ms had already passed: a test that was in flight is
    replaced in either case. *)
Theorem test_command_outcomes (relayId : string) (t now : Z) (w : World) :
  let r := testRelayCommand relayId t now w in
  let live := readRelays (heap w) (relays (alarmSettings w)) in
  (relayId ∉ ["1"; "2"; "3"; "4"] → r = (w, [], Status400 InvalidRelayId))
  ∧ (relayId ∈ ["1"; "2"; "3"; "4"] → jsGet relayId live = None →
     r = (w, [], UncaughtTypeError))
  ∧ (∀ c, relayId ∈ ["1"; "2"; "3"; "4"] → jsGet relayId live = Some c →
          Relay.enabled c = false →
          r = (w, [], Status400 (RelayDisabled relayId)))
  ∧ (∀ c, relayId ∈ ["1"; "2"; "3"; "4"] → jsGet relayId live = Some c →
          Relay.enabled c = true →
          r.2 = Status200 TestSent
          ∧ heap r.1.1 = heap w
          ∧ relays (alarmSettings r.1.1) = relays (alarmSettings w)
          ∧ alarmEnabled (alarmSettings r.1.1) = alarmEnabled (alarmSettings w)
          ∧ ((now - t < 500
              ∧ testRelay (alarmSettings r.1.1)
                = Test.mk (parseInt10 relayId) 500 (Relay.pulseMs c) t)
             ∨ (500 ≤ now - t
                ∧ testRelay (alarmSettings r.1.1) = Test.cleared))).
Proof.
  intros r live. subst r live. unfold testRelayCommand. cbv zeta.
  split; [|split; [|split]].
  - intros Hid. by rewrite bool_decide_false.
  - intros Hid Hnone. by rewrite bool_decide_true, Hnone.
  - intros c Hid Hc Hen. by rewrite bool_decide_true, Hc, Hen.
  - intros c Hid Hc Hen. rewrite bool_decide_true, Hc, Hen by done. simpl.
    set (w1 := armTest relayId c t w).
    destruct (calc_config now w1) as [Hcfg1 Hcfg2].
    pose proof (calc_heap now w1) as Hheap.
    pose proof (calc_testRelay now w1) as Htest.
    destruct (calculateAndBroadcastRelayStates now w1) as [w2 es]. simpl in *.
    split; [done|]. split; [done|]. split; [done|]. split; [done|].
    rewrite Htest.
    destruct (parseInt10_relayId relayId Hid) as (i & Hparse & _).
    destruct (decide (now - t < 500)) as [Hlt|Hge].
    + left. split; [done|].
      rewrite (testOverride_inflight _ _ _ _ i); [done|by simpl|].
      unfold testInFlight. simpl. rewrite Hparse.
      split; [by eexists | lia].
    + right. split; [lia|].
      by rewrite (testOverride_finished _ _ _ _ i) by (simpl; done || lia).
Qed.

Lemma test_command_outcomes_witness :
  "3" ∈ ["1"; "2"; "3"; "4"]
  ∧ (testRelayCommand "3" 7900 7900 orderedWorld).2 = Status200 TestSent.
Proof.
  assert ("3" ∈ ["1"; "2"; "3"; "4"]) as Hin.
  { apply elem_of_cons. right. apply elem_of_cons. right.
    apply elem_of_cons. by left. }
  split; [exact Hin|].
  exact (proj1 (proj2 (proj2 (proj2 (test_command_outcomes "3" 7900 7900
                                       orderedWorld)))
                 (Relay.mk 5000 2000 0 true) Hin eq_refl eq_refl)).
Defined.

(** ** The settings command *)

(** X11. The settings command accepts exactly the requests whose
    [alarmEnabled] is a boolean and whose [relays] is an object (or
    array) with four ids, each holding a relay within the bounds; any
    other request changes nothing and emits nothing, and an
    [alarmEnabled] that is not a boolean is answered 400 whatever the
    relays are.  An accepted request installs the boolean and a live
    configuration of four relays, every one with [onTimeMs] in
    [[100, 600000]], [delayMs] in [[0, 600000]] and [pulseMs] in
    [[0, 5000]], and saves before anything else. *)
Theorem settings_validation_exact (a r : jsval) (now : Z) (w : World) :
  let res := postSettings a r now w in
  (res.2 = Status200 SettingsUpdated ↔ requestAccepted a r)
  ∧ (res.2 ≠ Status200 SettingsUpdated → res.1 = (w, []))
  ∧ ((∀ b, a ≠ JBool b) → res = (w, [], Status400 InvalidAlarmEnabled))
  ∧ (res.2 = Status200 SettingsUpdated →
     ∃ b cfgs s es,
       a = JBool b
       ∧ alarmEnabled (alarmSettings res.1.1) = b
       ∧ readRelays (heap res.1.1) (relays (alarmSettings res.1.1)) = cfgs
       ∧ length cfgs = 4%nat
       ∧ allInBounds cfgs
       ∧ res.1.2 = Saved s :: es
       ∧ alarmEnabled s = b).
Proof.
  intros res. subst res.
  destruct (postSettings_validation a r now w) as (Hiff & Hrej & Hacc).
  split; [done|]. split; [done|]. split.
  { intros Ha. unfold postSettings. destruct a; try done. by destruct (Ha b). }
  intros Hok. destruct (Hacc Hok) as (b & cfgs & -> & Hb & Hread & Hlen & Hin).
  destruct (postSettings_cases (JBool b) r now w)
    as [(resp & Hr & Hne)|(b' & ids & cfgs' & Hb' & _ & _ & _ & _ & Hr)].
  { rewrite Hr in Hok. simpl in Hok. by destruct (Hne SettingsUpdated). }
  injection Hb' as <-.
  exists b, cfgs. eexists. eexists.
  split; [done|]. split; [done|]. split; [done|]. split; [done|].
  split; [done|]. rewrite Hr. simpl. split; [done|].
  apply replaceConfig_spec.
Qed.

Lemma settings_validation_exact_witness :
  (postSettings (JBool true) retimedBody 100 orderedWorld).2
  = Status200 SettingsUpdated
  ∧ requestAccepted (JBool true) retimedBody.
Proof.
  split; [reflexivity|].
  exact (proj1 (proj1 (settings_validation_exact (JBool true) retimedBody 100
                         orderedWorld)) eq_refl).
Defined.

(** X14. A settings update made while the system is idle is saved but not
    broadcast: with no trigger, no test and every relay stored off, an
    accepted request emits the one save of the handler and nothing else,
    although the alarm switch, which is part of the broadcast message,
    may have changed. *)
Theorem idle_settings_update_is_silent (a r : jsval) (now : Z) (w : World) :
  activeTrigger (alarmSettings w) = None →
  Test.id (testRelay (alarmSettings w)) = None →
  snapshot (alarmSettings w) = (allOff, false) →
  (postSettings a r now w).2 = Status200 SettingsUpdated →
  (postSettings a r now w).1.2
  = [Saved (alarmSettings (postSettings a r now w).1.1)]
  ∧ ¬ broadcasts (postSettings a r now w).1.2
  ∧ ∀ b, a = JBool b →
         Payload.alarmEnabled
           (payloadOf (alarmSettings (postSettings a r now w).1.1)) = b.
Proof.
  intros Htr Hid Hsnap Hok.
  destruct (postSettings_cases a r now w)
    as [(resp & Hr & Hne)|(b & ids & cfgs & -> & _ & _ & _ & _ & Hr)].
  { rewrite Hr in Hok. simpl in Hok. by destruct (Hne SettingsUpdated). }
  rewrite Hr. simpl.
  pose proof (replaceConfig_spec b cfgs w) as (_ & _ & _ & Hb & Htr1 & Htest1).
  assert (snapshot (alarmSettings (replaceConfig b cfgs w))
          = snapshot (alarmSettings w)) as Hsnap1.
  { unfold replaceConfig. by destruct (allocRelays cfgs (heap w)). }
  destruct (calc_quiet now (replaceConfig b cfgs w)) as [Hs He].
  { by rewrite Htr1. }
  { unfold testPending. by rewrite Htest1, Hid. }
  { by rewrite Hsnap1. }
  rewrite Hs, He. split; [done|]. split.
  - intros [p Hp]. apply list_elem_of_singleton in Hp. discriminate Hp.
  - intros b' Hb'. injection Hb' as <-. done.
Qed.

Lemma idle_settings_update_is_silent_witness :
  activeTrigger (alarmSettings initialWorld) = None
  ∧ Test.id (testRelay (alarmSettings initialWorld)) = None
  ∧ snapshot (alarmSettings initialWorld) = (allOff, false)
  ∧ (postSettings (JBool false) defaultBody 0 initialWorld).2
    = Status200 SettingsUpdated
  ∧ ¬ broadcasts (postSettings (JBool false) defaultBody 0 initialWorld).1.2.
Proof.
  split; [reflexivity|]. split; [reflexivity|]. split; [reflexivity|].
  split; [reflexivity|].
  exact (proj1 (proj2 (idle_settings_update_is_silent (JBool false)
                         defaultBody 0 initialWorld
                         eq_refl eq_refl eq_refl eq_refl))).
Defined.

(** ** The alarm switch and the test, further *)

(** X13. With the alarm switched off a trigger is dormant: an evaluation
    computes every main-trigger state off, keeps the trigger whatever the
    time, and leaves the interval timer armed, so that the same holds at
    the next tick. *)
Theorem disabled_alarm_keeps_trigger (now : Z) (w : World) (tr : Trigger.t) :
  alarmEnabled (alarmSettings w) = false →
  activeTrigger (alarmSettings w) = Some tr →
  let w' := (calculateAndBroadcastRelayStates now w).1 in
  mainStates now (heap w) (alarmSettings w) = allOff
  ∧ alarmEnabled (alarmSettings w') = false
  ∧ activeTrigger (alarmSettings w') = Some tr
  ∧ is_Some (intervalId w').
Proof.
  intros Hoff Htr w'. subst w'.
  split; [by apply mainStates_idle; right|].
  destruct (calc_config now w) as [-> _]. split; [done|].
  assert (activeTrigger
            (alarmSettings (calculateAndBroadcastRelayStates now w).1)
          = Some tr) as Hkeep.
  { rewrite calc_activeTrigger, mainTrigger_idle by by right. done. }
  split; [done|].
  destruct (mainTrigger now (heap w) (alarmSettings w)) as [[st1 ta1] s1] eqn:Hm.
  destruct (testOverride now st1 ta1 s1) as [[[st2 ta2] s2] e2] eqn:Ht.
  destruct (calc_stages _ _ _ _ _ _ _ _ _ Hm Ht) as (Hs & _ & Hi).
  destruct (manageInterval_spec (publish st2 ta2 s2).1 (intervalId w)
              (timers w)) as (Hsome & _).
  rewrite <- Hi, <- Hs in Hsome. simpl in Hsome.
  apply Hsome. left. rewrite Hkeep. by eexists.
Qed.

Lemma disabled_alarm_keeps_trigger_witness :
  alarmEnabled (alarmSettings disarmedWorld) = false
  ∧ activeTrigger (alarmSettings disarmedWorld)
    = Some (Trigger.mk order 0 9%nat)
  ∧ is_Some (intervalId (calculateAndBroadcastRelayStates 86400000
                           disarmedWorld).1).
Proof.
  split; [reflexivity|]. split; [reflexivity|].
  exact (proj2 (proj2 (proj2 (disabled_alarm_keeps_trigger 86400000
                                disarmedWorld (Trigger.mk order 0 9%nat)
                                eq_refl eq_refl)))).
Defined.

(** X12. A test is solid during the first [pulseMs] milliseconds, and
    altogether when the relay does not pulse: at an evaluation inside the
    500 ms of the test, the tested relay is on if [pulseMs <= 0] or the
    time elapsed is below [pulseMs]; so a relay configured with a
    [pulseMs] of 500 or more never pulses in a test. *)
Theorem test_solid_start (now : Z) (w : World) (i : Z) :
  Test.id (testRelay (alarmSettings w)) = Some i →
  Test.onTimeMs (testRelay (alarmSettings w)) = 500 →
  0 ≤ now - Test.timestamp (testRelay (alarmSettings w)) < 500 →
  Test.pulseMs (testRelay (alarmSettings w)) ≤ 0
  ∨ now - Test.timestamp (testRelay (alarmSettings w))
    < Test.pulseMs (testRelay (alarmSettings w)) →
  jsGet (pretty i)
    (currentRelayStates
       (alarmSettings (calculateAndBroadcastRelayStates now w).1))
  = Some true.
Proof.
  intros Hi Hd He Hp.
  assert (testInFlight now (testRelay (alarmSettings w))) as Hfl.
  { unfold testInFlight. rewrite Hi, Hd. split; [by eexists | lia]. }
  pose proof (calc_snapshot now w) as Hsnap.
  rewrite (evaluate_in_flight _ _ _ i) in Hsnap by (done || lia).
  injection Hsnap as -> _. rewrite jsGet_set_eq. f_equal.
  unfold overrideOn.
  destruct (Z.ltb_spec 0 (Test.pulseMs (testRelay (alarmSettings w))))
    as [Hpos|Hneg]; [|done].
  destruct Hp as [Hp|Hp]; [lia|].
  rewrite Z.mod_small by lia. apply Z.ltb_lt. lia.
Qed.

Lemma test_solid_start_witness :
  Test.id (testRelay (alarmSettings testedWorld)) = Some 3
  ∧ Test.onTimeMs (testRelay (alarmSettings testedWorld)) = 500
  ∧ 0 ≤ 8300 - Test.timestamp (testRelay (alarmSettings testedWorld)) < 500
  ∧ jsGet (pretty 3)
      (currentRelayStates
         (alarmSettings (calculateAndBroadcastRelayStates 8300 testedWorld).1))
    = Some true.
Proof.
  assert (0 ≤ 8300 - Test.timestamp (testRelay (alarmSettings testedWorld))
          < 500) as He by (vm_compute; split; [discriminate | reflexivity]).
  assert (Test.pulseMs (testRelay (alarmSettings testedWorld)) ≤ 0
          ∨ 8300 - Test.timestamp (testRelay (alarmSettings testedWorld))
            < Test.pulseMs (testRelay (alarmSettings testedWorld))) as Hp.
  { left. vm_compute. discriminate. }
  split; [reflexivity|]. split; [reflexivity|]. split; [exact He|].
  exact (test_solid_start 8300 testedWorld 3 eq_refl eq_refl He Hp).
Defined.

(** ** Users and login *)

Lemma getProp_defined (u : jsval) k k' :
  is_Some (getProp u k) → is_Some (getProp u k').
Proof.
  destruct u; simpl; intros H; try done; try by eexists.
  destruct (arrayIndex k'); by eexists.
Qed.

Lemma strictEq_eq a b : strictEq a b = true → a = b.
Proof.
  destruct a, b; simpl; try done; intros H%bool_decide_eq_true; by subst.
Qed.

Lemma findUser_found users username u :
  findUser users username = Some (Some u) →
  u ∈ users ∧ getProp u "username" = Some username.
Proof.
  induction users as [|x users IH]; simpl; [done|].
  destruct (getProp x "username") as [v|] eqn:Hv; [|done].
  destruct (strictEq v username) eqn:Heq.
  - intros ?. simplify_eq. apply strictEq_eq in Heq as ->.
    split; [apply elem_of_cons; by left | done].
  - intros [Hin Hu]%IH. split; [apply elem_of_cons; by right | done].
Qed.

Lemma findUser_readable users username :
  usernamesReadable users = true → is_Some (findUser users username).
Proof.
  unfold usernamesReadable. induction users as [|x users IH]; simpl.
  - by eexists.
  - intros [Hx Hrest]%andb_true_iff. apply bool_decide_eq_true in Hx.
    destruct Hx as [v ->]. destruct (strictEq v username); [by eexists|].
    by apply IH.
Qed.

Lemma loadUsers_readable file : usernamesReadable (loadUsers file) = true.
Proof.
  destruct file as [| |v]; try done. destruct v; try done. simpl.
  by destruct (usernamesReadable items) eqn:H.
Qed.

(** X15. The users that [loadUsers] leaves never make a login raise: a
    missing or unreadable file, a parsed value that is not an array, and
    an array with a [null] element all leave the empty list, with which
    every login is refused; and with any list it leaves, [POST /login]
    answers with one of its two redirections. *)
Theorem loaded_users_login_total (file : UsersFile) (username password : jsval)
    (session : bool) :
  (postLogin (loadUsers file) username password session).2 ≠ LoginRaised
  ∧ ((∀ xs, file = UsersParsed (JArr xs) → usernamesReadable xs = false) →
     loadUsers file = []
     ∧ postLogin (loadUsers file) username password session
       = (session, LoginRedirectError)).
Proof.
  split.
  - unfold postLogin.
    destruct (findUser_readable (loadUsers file) username
                (loadUsers_readable file)) as [[u|] Hfind]; rewrite Hfind;
      [|done].
    destruct (truthy u); [|done].
    apply findUser_found in Hfind as [_ Hu].
    destruct (getProp_defined u "username" "password") as [pw ->];
      [by eexists|].
    by destruct (strictEq pw password).
  - intros Hbad.
    assert (loadUsers file = []) as ->; [|done].
    destruct file as [| |v]; try done. destruct v; try done. simpl.
    by rewrite (Hbad items eq_refl).
Qed.

Lemma loaded_users_login_total_witness :
  (∀ xs, UsersParsed (JArr [JObj [("username", JStr "ann")]; JNull])
         = UsersParsed (JArr xs) → usernamesReadable xs = false)
  ∧ loadUsers (UsersParsed (JArr [JObj [("username", JStr "ann")]; JNull]))
    = [].
Proof.
  assert (∀ xs, UsersParsed (JArr [JObj [("username", JStr "ann")]; JNull])
                = UsersParsed (JArr xs) → usernamesReadable xs = false) as Hbad.
  { intros xs Heq. injection Heq as <-. reflexivity. }
  split; [exact Hbad|].
  exact (proj1 (proj2 (loaded_users_login_total
                         (UsersParsed
                            (JArr [JObj [("username", JStr "ann")]; JNull]))
                         JUndefined JUndefined false) Hbad)).
Defined.

(** X16. A login is granted only on matching credentials: when
    [POST /login] redirects to the root it has set the session flag, and
    some user of the list has exactly this username and this password,
    both primitive values; in every other case the session flag is what
    it was. *)
Theorem login_sound (users : list jsval) (username password : jsval)
    (session : bool) :
  let r := postLogin users username password session in
  (r.2 = LoginRedirectRoot →
   r.1 = true
   ∧ ∃ u, u ∈ users ∧ truthy u = true
          ∧ getProp u "username" = Some username
          ∧ getProp u "password" = Some password
          ∧ strictEq username username = true
          ∧ strictEq password password = true)
  ∧ (r.2 ≠ LoginRedirectRoot → r.1 = session).
Proof.
  intros r. subst r. unfold postLogin.
  destruct (findUser users username) as [[u|]|] eqn:Hfind; try done.
  destruct (truthy u) eqn:Htruthy; [|done].
  destruct (getProp u "password") as [pw|] eqn:Hpw; [|done].
  destruct (strictEq pw password) eqn:Heq; [|done]. simpl.
  split; [|done]. intros _. split; [done|].
  assert (∃ v, getProp u "username" = Some v ∧ strictEq v username = true)
    as (v & Hv & Hveq).
  { clear Hpw Heq Htruthy. induction users as [|x users IH]; simpl in Hfind;
      [done|].
    destruct (getProp x "username") as [vx|] eqn:Hx; [|done].
    destruct (strictEq vx username) eqn:Hxeq.
    - simplify_eq. by exists vx.
    - by apply IH. }
  apply findUser_found in Hfind as [Hin Hu].
  pose proof (strictEq_eq _ _ Hveq) as ->.
  pose proof (strictEq_eq _ _ Heq) as ->.
  exists u. done.
Qed.

Lemma login_sound_witness :
  (postLogin [JObj [("username", JStr "ann"); ("password", JStr "pw")]]
     (JStr "ann") (JStr "pw") false).2 = LoginRedirectRoot
  ∧ (postLogin [JObj [("username", JStr "ann"); ("password", JStr "pw")]]
       (JStr "ann") (JStr "pw") false).1 = true.
Proof.
  split; [reflexivity|].
  exact (proj1 (proj1 (login_sound
                         [JObj [("username", JStr "ann");
                                ("password", JStr "pw")]]
                         (JStr "ann") (JStr "pw") false) eq_refl)).
Defined.

(** X17. Only the first user with a given username can log in: when no
    user before [u] has the username and [u] has it, the outcome of the
    login is the outcome against [u] alone, whatever users follow. *)
Theorem login_first_match (before after : list jsval) (u : jsval)
    (username password : jsval) (session : bool) :
  Forall (fun x => ∃ v, getProp x "username" = Some v
                        ∧ strictEq v username = false) before →
  (∃ v, getProp u "username" = Some v ∧ strictEq v username = true) →
  postLogin (before ++ u :: after) username password session
  = postLogin [u] username password session.
Proof.
  intros Hbefore (v & Hv & Heq).
  assert (findUser (before ++ u :: after) username = Some (Some u)) as Hfind.
  { induction Hbefore as [|x before (vx & Hx & Hne) _ IH]; simpl.
    - by rewrite Hv, Heq.
    - by rewrite Hx, Hne. }
  unfold postLogin. rewrite Hfind. simpl. by rewrite Hv, Heq.
Qed.

Lemma login_first_match_witness :
  postLogin
    ([JObj [("username", JStr "bob"); ("password", JStr "x")]]
     ++ JObj [("username", JStr "ann"); ("password", JStr "one")]
     :: [JObj [("username", JStr "ann"); ("password", JStr "two")]])
    (JStr "ann") (JStr "two") false
  = (false, LoginRedirectError).
Proof.
  rewrite (login_first_match
             [JObj [("username", JStr "bob"); ("password", JStr "x")]]
             [JObj [("username", JStr "ann"); ("password", JStr "two")]]
             (JObj [("username", JStr "ann"); ("password", JStr "one")])
             (JStr "ann") (JStr "two") false).
  - reflexivity.
  - constructor; [|constructor]. exists (JStr "bob"). split; reflexivity.
  - exists (JStr "ann"). split; reflexivity.
Defined.

(** X18. The pages never loop: the dashboard file is sent only to an
    authenticated session and the login file only to one that is not,
    and every redirection of [GET /], [GET /dashboard] and [GET /login]
    leads to a route that sends its file to the same session. *)
Theorem pages_settle (route : Route) (session : bool) :
  (getPage route session = SendFile DashboardHtml → session = true)
  ∧ (getPage route session = SendFile LoginHtml → session = false)
  ∧ (∀ to, getPage route session = RedirectTo to →
           getPage to session
           = SendFile (if session then DashboardHtml else LoginHtml)).
Proof.
  destruct route, session; simpl; repeat split; try done;
    intros to Hto; by simplify_eq.
Qed.

(* ------------------------------------------------------------------ *)
(** ** The settings file *)

Lemma jsGet_map {A B} (f : A → B) k (o : obj A) :
  jsGet k (map (fun kv => (fst kv, f (snd kv))) o) = f <$> jsGet k o.
Proof.
  induction o as [|[k0 v0] o IH]; simpl; [done|].
  by case_bool_decide.
Qed.

Lemma jsGet_spread (a ps : obj jv) k :
  NoDup (jsKeys ps) →
  jsGet k (foldl (fun acc p => jsSet (fst p) (snd p) acc) a ps) =
  match jsGet k ps with Some x => Some x | None => jsGet k a end.
Proof.
  revert a. induction ps as [|[k0 v0] ps IH]; intros a Hnd; simpl; [done|].
  apply NoDup_cons in Hnd as [Hnotin Hnd]. rewrite IH by done.
  destruct (decide (k = k0)) as [->|Hk].
  - rewrite bool_decide_true by done.
    destruct (jsGet k0 ps) as [x|] eqn:Hg.
    + exfalso. apply Hnotin. apply (proj1 (jsGet_keys k0 ps)). by rewrite Hg.
    + by rewrite jsGet_set_eq.
  - rewrite bool_decide_false by done.
    destruct (jsGet k ps); [done|]. by rewrite jsGet_set_ne.
Qed.

Lemma jsGet_spread_is_Some (a ps : obj jv) k :
  is_Some (jsGet k a) →
  is_Some (jsGet k (foldl (fun acc p => jsSet (fst p) (snd p) acc) a ps)).
Proof.
  revert a. induction ps as [|[k0 v0] ps IH]; intros a Ha; simpl; [done|].
  apply IH. by apply jsGet_set_is_Some.
Qed.

Lemma vMember_truthy v k : vTruthy v = true → is_Some (vMember v k).
Proof.
  destruct v; simpl; try done; intros _.
  - destruct (arrayIndex k); [by eexists|]. by case_bool_decide; eexists.
  - destruct (arrayIndex k); [by eexists|]. by case_bool_decide; eexists.
Qed.

Lemma vAssign_truthy e k x :
  vTruthy e = true → ∃ e', vAssign e k x = Some e' ∧ vTruthy e' = true.
Proof. destruct e; simpl; try done; intros Ht; by eexists. Qed.

Lemma defaultRelayFields_some v key :
  ¬ nullish v → ∃ v', defaultRelayFields v key = Some v' ∧ ¬ nullish v'.
Proof.
  intros Hv. unfold defaultRelayFields.
  destruct (vMember v "relays") as [rel|] eqn:Hrel.
  2:{ destruct v; simpl in Hrel; try done; exfalso; apply Hv;
     [right | left]; reflexivity. }
  destruct (vTruthy rel) eqn:Ht; [|by exists v].
  destruct (vMember_truthy rel key Ht) as [e ->].
  destruct (vTruthy e) eqn:Hte; [|by exists v].
  destruct (vMember_truthy e "pulseMs" Hte) as [p ->].
  destruct (vAssign_truthy e "pulseMs" (vDefined p (VNum 0)) Hte)
    as (e1 & -> & Ht1).
  destruct (vMember_truthy e1 "enabled" Ht1) as [en ->].
  destruct (vAssign_truthy e1 "enabled" (vDefined en (VBool true)) Ht1)
    as (e2 & -> & Ht2).
  destruct v; try (by eexists; split; [reflexivity | exact Hv]).
  - eexists; split; [reflexivity|]. by intros [?|?].
  - eexists; split; [reflexivity|]. by intros [?|?].
Qed.

Lemma defaultRelaysLoop_some v keys :
  ¬ nullish v → ∃ v', defaultRelaysLoop v keys = Some v' ∧ ¬ nullish v'.
Proof.
  revert v. induction keys as [|key keys IH]; intros v Hv; simpl.
  - by eexists.
  - destruct (defaultRelayFields_some v key Hv) as (v1 & -> & Hv1).
    by apply IH.
Qed.


(** X20. A parsed settings file is discarded, [alarmSettings] keeping
    the initial literal, exactly when it is [null] (or [undefined]):
    every other value, an array, a string or a number included, is
    merged into [alarmSettings]. *)
Theorem load_rejects_only_null v :
  loadSettings (SettingsParsed v) = DefaultsKept ↔ v = VNull ∨ v = VUndefined.
Proof.
  split.
  - intros Hload.
    destruct v; try (by left); try (by right); exfalso.
    all: unfold loadSettings in Hload; simpl vMember in Hload.
    all: cbv beta iota in Hload.
    all: match type of Hload with
         | context [defaultRelaysLoop ?v ?ks] =>
             destruct (defaultRelaysLoop_some v ks) as (v' & Hl & _);
             [by intros [?|?] | rewrite Hl in Hload]
         end.
    all: cbv zeta in Hload.
    all: by destruct (normalizedTest _).
  - by intros [-> | ->].
Qed.

Lemma jsReplace_replace {A} k (v v' : A) (o : obj A) :
  jsReplace k v (jsReplace k v' o) = jsReplace k v o.
Proof.
  induction o as [|[k0 v0] o IH]; simpl; [done|].
  case_bool_decide as Hk; simpl.
  - by rewrite bool_decide_true.
  - rewrite bool_decide_false by done. by rewrite IH.
Qed.

(** One turn of the loop on a file object: only its [relays] property
    can change. *)
Lemma defaultRelayFields_obj ps key :
  ∃ ps', defaultRelayFields (VObj ps) key = Some (VObj ps') ∧
         jsKeys ps' = jsKeys ps ∧
         (∀ k, k ≠ "relays" → jsGet k ps' = jsGet k ps).
Proof.
  unfold defaultRelayFields.
  destruct (vMember (VObj ps) "relays") as [rel|] eqn:Hrel; [|done].
  destruct (vTruthy rel) eqn:Ht; [|by exists ps].
  destruct (vMember_truthy rel key Ht) as [e ->].
  destruct (vTruthy e) eqn:Hte; [|by exists ps].
  destruct (vMember_truthy e "pulseMs" Hte) as [p ->].
  destruct (vAssign_truthy e "pulseMs" (vDefined p (VNum 0)) Hte)
    as (e1 & -> & Ht1).
  destruct (vMember_truthy e1 "enabled" Ht1) as [en ->].
  destruct (vAssign_truthy e1 "enabled" (vDefined en (VBool true)) Ht1)
    as (e2 & -> & Ht2).
  eexists; split; [reflexivity|]. split.
  - apply jsKeys_replace.
  - intros k Hk. by apply jsGet_replace_ne.
Qed.

Lemma defaultRelaysLoop_obj ps keys :
  ∃ ps', defaultRelaysLoop (VObj ps) keys = Some (VObj ps') ∧
         jsKeys ps' = jsKeys ps ∧
         (∀ k, k ≠ "relays" → jsGet k ps' = jsGet k ps).
Proof.
  revert ps. induction keys as [|key keys IH]; intros ps; simpl.
  - by exists ps.
  - destruct (defaultRelayFields_obj ps key) as (ps1 & -> & Hk1 & Hg1).
    destruct (IH ps1) as (ps' & Hl & Hk' & Hg').
    exists ps'. split; [done|]. split; [congruence|].
    intros k Hk. rewrite Hg' by done. by apply Hg1.
Qed.

(** One turn on a file whose [relays] is an object: the entry under
    [key], when it is an object, gets its two fields; the other entries
    stay. *)
Lemma defaultRelayFields_relays ps rs key :
  jsGet "relays" ps = Some (VObj rs) →
  ∃ rs', defaultRelayFields (VObj ps) key =
           Some (VObj (jsReplace "relays" (VObj rs') ps)) ∧
         jsKeys rs' = jsKeys rs ∧
         (∀ k, k ≠ key → jsGet k rs' = jsGet k rs) ∧
         (∀ e, jsGet key rs = Some (VObj e) →
               jsGet key rs' = Some (VObj (withRelayDefaults e))).
Proof.
  intros Hrel. unfold defaultRelayFields. cbn [vMember]. rewrite Hrel.
  cbn [default from_option id vTruthy vMember].
  destruct (jsGet key rs) as [e|] eqn:He; cbn [default from_option id].
  2:{ simpl. exists rs. rewrite jsReplace_same by done. by repeat split. }
  destruct (vTruthy e) eqn:Hte.
  2:{ exists rs. rewrite jsReplace_same by done. repeat split; try done.
      intros eo Heo. by simplify_eq. }
  destruct (vMember_truthy e "pulseMs" Hte) as [p Hp]. rewrite Hp.
  destruct (vAssign_truthy e "pulseMs" (vDefined p (VNum 0)) Hte)
    as (e1 & He1 & Ht1). rewrite He1.
  destruct (vMember_truthy e1 "enabled" Ht1) as [en Hen]. rewrite Hen.
  destruct (vAssign_truthy e1 "enabled" (vDefined en (VBool true)) Ht1)
    as (e2 & He2 & Ht2). rewrite He2.
  exists (jsReplace key e2 rs). split; [done|]. split; [apply jsKeys_replace|].
  split.
  - intros k Hk. by apply jsGet_replace_ne.
  - intros eo Heo. simplify_eq. rewrite jsGet_replace_eq by (by rewrite He).
    simpl in Hp, He1. simplify_eq. simpl in Hen, He2. by simplify_eq.
Qed.

Lemma defaultRelaysLoop_relays keys ps rs :
  jsGet "relays" ps = Some (VObj rs) → NoDup keys →
  ∃ rs', defaultRelaysLoop (VObj ps) keys =
           Some (VObj (jsReplace "relays" (VObj rs') ps)) ∧
         jsKeys rs' = jsKeys rs ∧
         (∀ k, k ∉ keys → jsGet k rs' = jsGet k rs) ∧
         (∀ k e, k ∈ keys → jsGet k rs = Some (VObj e) →
                 jsGet k rs' = Some (VObj (withRelayDefaults e))).
Proof.
  revert ps rs. induction keys as [|key keys IH]; intros ps rs Hrel Hnd.
  - simpl. exists rs. rewrite jsReplace_same by done.
    repeat split. by intros k e ?%elem_of_nil.
  - apply NoDup_cons in Hnd as [Hkey Hnd]. simpl.
    destruct (defaultRelayFields_relays ps rs key Hrel)
      as (rs1 & -> & Hk1 & Hne1 & Heq1).
    destruct (IH (jsReplace "relays" (VObj rs1) ps) rs1)
      as (rs' & Hl & Hk' & Hne' & Heq'); [|done|].
    { apply jsGet_replace_eq. by rewrite Hrel. }
    rewrite jsReplace_replace in Hl. exists rs'. split; [done|].
    split; [congruence|]. split.
    + intros k Hk. apply not_elem_of_cons in Hk as [Hk1' Hk2].
      rewrite Hne' by done. by apply Hne1.
    + intros k e Hk Hg. apply elem_of_cons in Hk as [->|Hk].
      * rewrite Hne' by done. by apply Heq1.
      * apply Heq'; [done|]. rewrite Hne1; [done|]. by intros ->.
Qed.

Lemma withRelayDefaults_spec e :
  jsGet "pulseMs" (withRelayDefaults e) =
    Some (vDefined (default VUndefined (jsGet "pulseMs" e)) (VNum 0)) ∧
  jsGet "enabled" (withRelayDefaults e) =
    Some (vDefined (default VUndefined (jsGet "enabled" e)) (VBool true)) ∧
  (∀ f, f ≠ "pulseMs" → f ≠ "enabled" →
        jsGet f (withRelayDefaults e) = jsGet f e).
Proof.
  unfold withRelayDefaults. cbv zeta. split; [|split].
  - rewrite jsGet_set_ne by done. by rewrite jsGet_set_eq.
  - rewrite jsGet_set_eq. by rewrite jsGet_set_ne by done.
  - intros f Hp Hen. by rewrite !jsGet_set_ne by done.
Qed.

Lemma loadSettings_parsed v :
  loadSettings (SettingsParsed v) =
  match defaultRelaysLoop v ["1"; "2"; "3"; "4"] with
  | None => DefaultsKept
  | Some loaded' =>
      let merged := vSpread initialSettingsValue loaded' in
      match normalizedTest (default VUndefined (jsGet "testRelay" merged)) with
      | None => MergedThenRaised merged
      | Some t => Loaded (jsSet "testRelay" t merged)
      end
  end.
Proof. reflexivity. Qed.

Lemma normalizedTest_shape t0 t :
  normalizedTest t0 = Some t →
  ∃ i o p ts,
    t = VObj [("id", i); ("onTimeMs", o); ("pulseMs", p); ("timestamp", ts)] ∧
    (i = VNull ∨ vTruthy i = true) ∧ (o = VNum 0 ∨ vTruthy o = true) ∧
    p ≠ VUndefined ∧ (ts = VNum 0 ∨ vTruthy ts = true).
Proof.
  unfold normalizedTest.
  destruct (vMember t0 "id") as [i|]; [|done].
  destruct (vMember t0 "onTimeMs") as [o|]; [|done].
  destruct (vMember t0 "pulseMs") as [p|]; [|done].
  destruct (vMember t0 "timestamp") as [ts|]; [|done].
  intros [= <-]. eexists _, _, _, _. split; [reflexivity|].
  unfold vOr. repeat split.
  - destruct (vTruthy i) eqn:Hi; [by right | by left].
  - destruct (vTruthy o) eqn:Ho; [by right | by left].
  - by destruct p.
  - destruct (vTruthy ts) eqn:Hts; [by right | by left].
Qed.

Lemma normalizedTest_none t0 :
  normalizedTest t0 = None ↔ t0 = VNull ∨ t0 = VUndefined.
Proof.
  split.
  - intros Hn. destruct t0; try (by left); try (by right); exfalso.
    all: unfold normalizedTest in Hn.
    all: repeat match type of Hn with
           | context [vMember ?v ?k] =>
               let H := fresh in
               destruct (vMember_truthy v k eq_refl) as [? H];
               rewrite H in Hn
           end; try done.
    all: try (simpl in Hn; done).
  - by intros [-> | ->].
Qed.

(** X24. Whatever the file holds, when [loadSettings] completes the six
    properties of the initial literal are all present and [testRelay] is
    a fresh object with exactly [id], [onTimeMs], [pulseMs] and
    [timestamp], in that order: [id] is [null] or truthy, [onTimeMs] and
    [timestamp] are [0] or truthy, and [pulseMs] is never [undefined].
    (Nothing makes them numbers.) *)
Theorem loaded_settings_shape file s :
  loadSettings file = Loaded s →
  (∀ k, k ∈ jsKeys initialSettingsValue → is_Some (jsGet k s)) ∧
  ∃ i o p ts,
    jsGet "testRelay" s =
      Some (VObj [("id", i); ("onTimeMs", o); ("pulseMs", p);
                  ("timestamp", ts)]) ∧
    (i = VNull ∨ vTruthy i = true) ∧ (o = VNum 0 ∨ vTruthy o = true) ∧
    p ≠ VUndefined ∧ (ts = VNum 0 ∨ vTruthy ts = true).
Proof.
  destruct file as [| |v]; [done|done|].
  rewrite loadSettings_parsed.
  destruct (defaultRelaysLoop v _) as [loaded'|]; [|done]. cbv zeta.
  destruct (normalizedTest _) as [t|] eqn:Hnt; [|done].
  intros [= <-]. split.
  - intros k Hk. apply jsGet_set_is_Some. apply jsGet_spread_is_Some.
    by apply jsGet_keys.
  - rewrite jsGet_set_eq.
    destruct (normalizedTest_shape _ _ Hnt) as (i & o & p & ts & -> & Hrest).
    by exists i, o, p, ts.
Qed.

(** X21. Loading a file object neither rejects nor validates it: the
    loader ends with the merged object (completely, or up to the
    [testRelay] step), and every property other than [relays] and
    [testRelay] is the file's own value when the file has the property,
    whatever that value is, and the initial literal's value otherwise. *)
Theorem load_merges_unvalidated ps :
  NoDup (jsKeys ps) →
  ∃ s, (loadSettings (SettingsParsed (VObj ps)) = Loaded s ∨
        loadSettings (SettingsParsed (VObj ps)) = MergedThenRaised s) ∧
       ∀ k, k ≠ "relays" → k ≠ "testRelay" →
            jsGet k s = match jsGet k ps with
                        | Some x => Some x
                        | None => jsGet k initialSettingsValue
                        end.
Proof.
  intros Hnd. rewrite loadSettings_parsed.
  destruct (defaultRelaysLoop_obj ps ["1"; "2"; "3"; "4"])
    as (ps' & -> & Hkeys & Hget). cbv zeta.
  assert (Hmerged : ∀ k, k ≠ "relays" →
            jsGet k (vSpread initialSettingsValue (VObj ps')) =
            match jsGet k ps with
            | Some x => Some x
            | None => jsGet k initialSettingsValue
            end).
  { intros k Hk. unfold vSpread. cbn [vOwnProps].
    rewrite jsGet_spread by (by rewrite Hkeys). by rewrite Hget. }
  destruct (normalizedTest _) as [t|].
  - eexists. split; [by left|]. intros k Hr Ht.
    rewrite jsGet_set_ne by done. by apply Hmerged.
  - eexists. split; [by right|]. intros k Hr Ht. by apply Hmerged.
Qed.

(** X22. Loading a file object stops half-way, after [alarmSettings] has
    been replaced by the merged object, exactly when the file's
    [testRelay] is [null] (or [undefined]); [alarmSettings.testRelay] is
    then left as the file has it. *)
Theorem half_load_iff_null_test ps :
  NoDup (jsKeys ps) →
  ((∃ s, loadSettings (SettingsParsed (VObj ps)) = MergedThenRaised s) ↔
   (jsGet "testRelay" ps = Some VNull ∨
    jsGet "testRelay" ps = Some VUndefined)) ∧
  (∀ s, loadSettings (SettingsParsed (VObj ps)) = MergedThenRaised s →
        jsGet "testRelay" s = jsGet "testRelay" ps).
Proof.
  intros Hnd. rewrite loadSettings_parsed.
  destruct (defaultRelaysLoop_obj ps ["1"; "2"; "3"; "4"])
    as (ps' & -> & Hkeys & Hget). cbv zeta.
  assert (Hmerged :
            jsGet "testRelay" (vSpread initialSettingsValue (VObj ps')) =
            match jsGet "testRelay" ps with
            | Some x => Some x
            | None => Some clearedTestValue
            end).
  { unfold vSpread. cbn [vOwnProps].
    rewrite jsGet_spread by (by rewrite Hkeys). by rewrite Hget. }
  rewrite Hmerged.
  destruct (jsGet "testRelay" ps) as [x|] eqn:Hx; cbn [default from_option id].
  - destruct (normalizedTest x) as [t|] eqn:Hnt.
    + split; [|done]. split; [by intros [s ?]|].
      intros Hnull. assert (Hnone : normalizedTest x = None).
      { apply normalizedTest_none. destruct Hnull as [[= ->]|[= ->]]; auto. }
      congruence.
    + apply normalizedTest_none in Hnt. split.
      * split; [|by eexists]. intros _. destruct Hnt as [-> | ->]; auto.
      * by intros s [= <-].
  - split; [|done]. split; [by intros [s ?] | by intros [?|?]].
Qed.

(** X23. Defaulting of older files: when the file's [relays] is an
    object and loading completes, [alarmSettings.relays] has the same
    keys; an entry under one of the ids 1 to 4 that is an object gets
    [pulseMs] (0 when it had none) and [enabled] (true when it had none)
    and keeps its other properties; entries under any other id are left
    as they are. *)
Theorem legacy_relays_defaulted ps rs s :
  NoDup (jsKeys ps) → jsGet "relays" ps = Some (VObj rs) →
  loadSettings (SettingsParsed (VObj ps)) = Loaded s →
  ∃ rs', jsGet "relays" s = Some (VObj rs') ∧
    jsKeys rs' = jsKeys rs ∧
    (∀ k, k ∉ ["1"; "2"; "3"; "4"] → jsGet k rs' = jsGet k rs) ∧
    (∀ k e, k ∈ ["1"; "2"; "3"; "4"] → jsGet k rs = Some (VObj e) →
       ∃ e', jsGet k rs' = Some (VObj e') ∧
         jsGet "pulseMs" e' =
           Some (vDefined (default VUndefined (jsGet "pulseMs" e)) (VNum 0)) ∧
         jsGet "enabled" e' =
           Some (vDefined (default VUndefined (jsGet "enabled" e))
                          (VBool true)) ∧
         (∀ f, f ≠ "pulseMs" → f ≠ "enabled" → jsGet f e' = jsGet f e)).
Proof.
  intros Hnd Hrel. rewrite loadSettings_parsed.
  destruct (defaultRelaysLoop_relays ["1"; "2"; "3"; "4"] ps rs Hrel)
    as (rs' & -> & Hkeys & Hother & Hdef).
  { compute_done. }
  cbv zeta. destruct (normalizedTest _) as [t|]; [|done].
  intros [= <-]. exists rs'. split; [|split; [done|split; [done|]]].
  - rewrite jsGet_set_ne by done. unfold vSpread. cbn [vOwnProps].
    rewrite jsGet_spread by (by rewrite jsKeys_replace).
    rewrite jsGet_replace_eq; [done|]. by rewrite Hrel.
  - intros k e Hk He. exists (withRelayDefaults e).
    split; [by apply Hdef|]. apply withRelayDefaults_spec.
Qed.

Lemma jsGet_relaysJson k cfg :
  jsGet k (map (fun kc => (fst kc, relayJson (snd kc))) cfg) =
  relayJson <$> jsGet k cfg.
Proof. apply (jsGet_map relayJson). Qed.

Lemma defaultRelayFields_saved h s key :
  defaultRelayFields (VObj (savedSettings h s)) key =
  Some (VObj (savedSettings h s)).
Proof.
  set (cfg := readRelays h (relays s)).
  assert (Hrel : jsGet "relays" (savedSettings h s) =
                 Some (relaysJson cfg)) by reflexivity.
  unfold defaultRelayFields. cbn [vMember]. rewrite Hrel.
  cbn [default from_option id]. unfold relaysJson at 1 2. cbn [vTruthy vMember].
  rewrite jsGet_relaysJson.
  destruct (jsGet key cfg) as [c|] eqn:Hc; [|done].
  cbn [fmap option_fmap option_map default from_option id].
  assert (Hv : vUpdated (relaysJson cfg) key (relayJson c) = relaysJson cfg).
  { unfold relaysJson. cbn [vUpdated]. f_equal. apply jsReplace_same.
    by rewrite jsGet_relaysJson, Hc. }
  change (Some (VObj (jsReplace "relays"
                        (vUpdated (relaysJson cfg) key (relayJson c))
                        (savedSettings h s))) =
          Some (VObj (savedSettings h s))).
  rewrite Hv. reflexivity.
Qed.

Lemma defaultRelaysLoop_saved h s keys :
  defaultRelaysLoop (VObj (savedSettings h s)) keys =
  Some (VObj (savedSettings h s)).
Proof.
  induction keys as [|key keys IH]; simpl; [done|].
  by rewrite defaultRelayFields_saved.
Qed.

Lemma vOr_zero n : vOr (VNum n) (VNum 0) = VNum n.
Proof. unfold vOr. simpl. by destruct (Z.eqb_spec n 0) as [->|]. Qed.

(** X19. Round trip: loading what [saveSettings] wrote gives back the
    saved object, property for property and in the same order, provided
    the test id is not [0] (which the loader turns into [null]). *)
Theorem settings_round_trip h s :
  Test.id (testRelay s) ≠ Some 0 →
  loadSettings (SettingsParsed (VObj (savedSettings h s))) =
  Loaded (savedSettings h s).
Proof.
  intros Hid. rewrite loadSettings_parsed, defaultRelaysLoop_saved. cbv zeta.
  assert (Hm : vSpread initialSettingsValue (VObj (savedSettings h s)) =
               savedSettings h s) by reflexivity.
  rewrite Hm.
  assert (Ht : jsGet "testRelay" (savedSettings h s) =
               Some (testJson (testRelay s))) by reflexivity.
  rewrite Ht. cbn [default from_option id].
  assert (Hn : normalizedTest (testJson (testRelay s)) =
               Some (testJson (testRelay s))).
  { destruct (testRelay s) as [i o p ts]. simpl in Hid.
    unfold normalizedTest, testJson. simpl. rewrite !vOr_zero.
    destruct i as [i|]; [|done]. unfold vOr. simpl.
    by destruct (Z.eqb_spec i 0) as [->|]. }
  rewrite Hn. reflexivity.
Qed.

(** The typed initial state and the initial literal agree. *)
Example initial_settings_saved :
  savedSettings (heap initialWorld) (alarmSettings initialWorld) =
  initialSettingsValue.
Proof. vm_compute. reflexivity. Qed.

(** A test id of [0] does not survive the round trip. *)
Example zero_test_id_not_restored :
  jsGet "testRelay"
    (loadedSettings
       (SettingsParsed
          (VObj (savedSettings ∅
                   (mkSettings true 0%nat None (Test.mk (Some 0) 5 0 7)
                               allOff false))))) =
  Some (VObj [("id", VNull); ("onTimeMs", VNum 5); ("pulseMs", VNum 0);
              ("timestamp", VNum 7)]).
Proof. vm_compute. reflexivity. Qed.

Lemma settings_round_trip_witness :
  Test.id (testRelay (alarmSettings testedWorld)) ≠ Some 0
  ∧ loadSettings
      (SettingsParsed
         (VObj (savedSettings (heap testedWorld) (alarmSettings testedWorld))))
    = Loaded (savedSettings (heap testedWorld) (alarmSettings testedWorld)).
Proof.
  assert (Hid : Test.id (testRelay (alarmSettings testedWorld)) ≠ Some 0)
    by (vm_compute; discriminate).
  split; [exact Hid|].
  exact (settings_round_trip (heap testedWorld) (alarmSettings testedWorld)
           Hid).
Defined.

Lemma load_merges_unvalidated_witness :
  NoDup (jsKeys nullTestFile)
  ∧ ∃ s, (loadSettings (SettingsParsed (VObj nullTestFile)) = Loaded s ∨
          loadSettings (SettingsParsed (VObj nullTestFile)) =
            MergedThenRaised s) ∧
         ∀ k, k ≠ "relays" → k ≠ "testRelay" →
              jsGet k s = match jsGet k nullTestFile with
                          | Some x => Some x
                          | None => jsGet k initialSettingsValue
                          end.
Proof.
  assert (Hnd : NoDup (jsKeys nullTestFile)) by compute_done.
  split; [exact Hnd|]. exact (load_merges_unvalidated nullTestFile Hnd).
Defined.

Lemma half_load_iff_null_test_witness :
  NoDup (jsKeys nullTestFile)
  ∧ ((∃ s, loadSettings (SettingsParsed (VObj nullTestFile)) =
             MergedThenRaised s) ↔
     (jsGet "testRelay" nullTestFile = Some VNull ∨
      jsGet "testRelay" nullTestFile = Some VUndefined))
  ∧ (∀ s, loadSettings (SettingsParsed (VObj nullTestFile)) =
            MergedThenRaised s →
          jsGet "testRelay" s = jsGet "testRelay" nullTestFile).
Proof.
  assert (Hnd : NoDup (jsKeys nullTestFile)) by compute_done.
  split; [exact Hnd|]. exact (half_load_iff_null_test nullTestFile Hnd).
Defined.

Lemma legacy_relays_defaulted_witness :
  NoDup (jsKeys legacyFile)
  ∧ jsGet "relays" legacyFile =
      Some (VObj [("1", VObj [("onTimeMs", VNum 3000); ("delayMs", VNum 0)]);
                  ("2", VObj [("onTimeMs", VNum 3000); ("delayMs", VNum 500);
                              ("enabled", VBool false)]);
                  ("5", VObj [("onTimeMs", VNum 1)])])
  ∧ loadSettings (SettingsParsed (VObj legacyFile)) =
      Loaded (loadedSettings (SettingsParsed (VObj legacyFile)))
  ∧ jsGet "relays" (loadedSettings (SettingsParsed (VObj legacyFile))) =
      Some (VObj [("1", VObj [("onTimeMs", VNum 3000); ("delayMs", VNum 0);
                              ("pulseMs", VNum 0); ("enabled", VBool true)]);
                  ("2", VObj [("onTimeMs", VNum 3000); ("delayMs", VNum 500);
                              ("enabled", VBool false); ("pulseMs", VNum 0)]);
                  ("5", VObj [("onTimeMs", VNum 1)])])
  ∧ ∃ rs',
      jsGet "relays" (loadedSettings (SettingsParsed (VObj legacyFile))) =
        Some (VObj rs') ∧
      jsKeys rs' = ["1"; "2"; "5"] ∧
      (∀ k, k ∉ ["1"; "2"; "3"; "4"] →
            jsGet k rs' =
            jsGet k [("1", VObj [("onTimeMs", VNum 3000);
                                 ("delayMs", VNum 0)]);
                     ("2", VObj [("onTimeMs", VNum 3000);
                                 ("delayMs", VNum 500);
                                 ("enabled", VBool false)]);
                     ("5", VObj [("onTimeMs", VNum 1)])]).
Proof.
  assert (Hnd : NoDup (jsKeys legacyFile)) by compute_done.
  assert (Hload : loadSettings (SettingsParsed (VObj legacyFile)) =
                  Loaded (loadedSettings (SettingsParsed (VObj legacyFile))))
    by (vm_compute; reflexivity).
  split; [exact Hnd|]. split; [reflexivity|]. split; [exact Hload|].
  split; [vm_compute; reflexivity|].
  destruct (legacy_relays_defaulted legacyFile _ _ Hnd eq_refl Hload)
    as (rs' & Hrel & Hkeys & Hother & _).
  exists rs'. split; [exact Hrel|]. split; [exact Hkeys|]. exact Hother.
Defined.

Lemma loaded_settings_shape_witness :
  loadSettings (SettingsParsed (VObj legacyFile)) =
    Loaded (loadedSettings (SettingsParsed (VObj legacyFile)))
  ∧ (∀ k, k ∈ jsKeys initialSettingsValue →
          is_Some (jsGet k (loadedSettings
                              (SettingsParsed (VObj legacyFile)))))
  ∧ jsGet "testRelay" (loadedSettings (SettingsParsed (VObj legacyFile))) =
      Some clearedTestValue.
Proof.
  assert (Hload : loadSettings (SettingsParsed (VObj legacyFile)) =
                  Loaded (loadedSettings (SettingsParsed (VObj legacyFile))))
    by (vm_compute; reflexivity).
  split; [exact Hload|].
  split; [|vm_compute; reflexivity].
  exact (proj1 (loaded_settings_shape _ _ Hload)).
Defined.

(* ------------------------------------------------------------------ *)
(** ** The main block in double arithmetic *)

(** ** Double arithmetic on whole numbers *)

(** Sample computations: [0.1 + 0.2] is [0.30000000000000004]; the sum
    [1762051200000 + 100.0001] is rounded to [1762051200100]; an overflow
    gives an infinity and [0 * Infinity] is [NaN]; [7.5 % 2] is [1.5];
    [2^53 + 1] is not a double. *)
Example F64_samples :
  F64.add (F64.Fin 3602879701896397 (-55)) (F64.Fin 3602879701896397 (-54))
  = F64.Fin 5404319552844596 (-54)
  ∧ F64.add (F64.ofZ 1762051200000) (F64.Fin 3518440727320409 (-45))
    = F64.Fin 7217361715609600 (-12)
  ∧ F64.ltb (F64.ofZ 100) (F64.Fin 3518440727320409 (-45)) = true
  ∧ F64.mul (F64.Fin 1 1000) (F64.Fin 3 23) = F64.Inf false
  ∧ F64.mul (F64.ofZ 0) (F64.Inf false) = F64.NaN
  ∧ F64.rem (F64.Fin 15 (-1)) (F64.ofZ 2) = F64.Fin 3 (-1)
  ∧ F64.ofZ 9007199254740993 = F64.Fin 4503599627370496 1.
Proof. vm_compute. repeat split. Qed.

(** The two fractional triggers, run: 100 ms after the start the loop
    body still computes on for the first relay of the first trigger (it
    is inside its window) while the completion check already succeeds;
    the first relay of the second trigger is off 524293 ms after the
    start, off again 4096 ms later and on 8192 ms later. *)
Example fractional_runs :
  Dbl.relayState (1762051200000 + 100) 1762051200000
    (Dbl.Relay.mk (F64.Fin 3518440727320409 (-45)) (F64.ofZ 0) (F64.ofZ 0)
                  true) = true
  ∧ Dbl.mainTrigger (1762051200000 + 100) true (Some fractionalDurationTrigger)
    = (allOff, false, None)
  ∧ stateOf "1" (Dbl.mainStates (1762051200000 + 524293) true
                   (Some fractionalDelayTrigger)) = false
  ∧ stateOf "1" (Dbl.mainStates (1762051200000 + 528389) true
                   (Some fractionalDelayTrigger)) = false
  ∧ stateOf "1" (Dbl.mainStates (1762051200000 + 532485) true
                   (Some fractionalDelayTrigger)) = true.
Proof. vm_compute. repeat split. Qed.

Lemma round_whole n : - 2 ^ 53 < n < 2 ^ 53 → F64.round n 0 = F64.Fin n 0.
Proof.
  intros Hn. unfold F64.round.
  destruct (Z.eqb_spec n 0) as [->|Hne]; [done|].
  assert (Z.log2 (Z.abs n) < 53) as Hlog.
  { apply Z.log2_lt_pow2; lia. }
  assert (0 ≤ Z.log2 (Z.abs n)) as Hpos by apply Z.log2_nonneg.
  rewrite (proj2 (Z.ltb_ge 0 _)) by lia.
  rewrite (proj2 (Z.eqb_neq n 0)) by done.
  by rewrite (proj2 (Z.leb_gt 1024 _)) by lia.
Qed.

Lemma ofZ_whole n : - 2 ^ 53 < n < 2 ^ 53 → F64.ofZ n = F64.Fin n 0.
Proof. apply round_whole. Qed.

Lemma add_whole a b :
  - 2 ^ 53 < a + b < 2 ^ 53 →
  F64.add (F64.Fin a 0) (F64.Fin b 0) = F64.Fin (a + b) 0.
Proof.
  intros H. unfold F64.add. change (Z.min 0 0) with 0.
  change (2 ^ (0 - 0)) with 1. rewrite !Z.mul_1_r. by apply round_whole.
Qed.

Lemma sub_whole a b :
  - 2 ^ 53 < a - b < 2 ^ 53 →
  F64.sub (F64.Fin a 0) (F64.Fin b 0) = F64.Fin (a - b) 0.
Proof.
  intros H. unfold F64.sub, F64.opp. rewrite add_whole; [done | lia].
Qed.

Lemma mul_whole a b :
  - 2 ^ 53 < a * b < 2 ^ 53 →
  F64.mul (F64.Fin a 0) (F64.Fin b 0) = F64.Fin (a * b) 0.
Proof. intros H. unfold F64.mul. by apply round_whole. Qed.

Lemma rem_whole a b :
  b ≠ 0 → F64.rem (F64.Fin a 0) (F64.Fin b 0) = F64.Fin (Z.rem a b) 0.
Proof.
  intros Hb. unfold F64.rem. rewrite (proj2 (Z.eqb_neq b 0)) by done.
  change (Z.min 0 0) with 0. change (2 ^ (0 - 0)) with 1.
  by rewrite !Z.mul_1_r.
Qed.

Lemma ltb_whole a b : F64.ltb (F64.Fin a 0) (F64.Fin b 0) = (a <? b).
Proof.
  unfold F64.ltb. change (Z.min 0 0) with 0. change (2 ^ (0 - 0)) with 1.
  by rewrite !Z.mul_1_r.
Qed.

Lemma gtb_whole a b : F64.gtb (F64.Fin a 0) (F64.Fin b 0) = (a >? b).
Proof. unfold F64.gtb. rewrite ltb_whole. symmetry. apply Z.gtb_ltb. Qed.

Lemma geb_whole a b : F64.geb (F64.Fin a 0) (F64.Fin b 0) = (a >=? b).
Proof.
  unfold F64.geb. rewrite ltb_whole, Z.geb_leb. symmetry. apply Z.leb_antisym.
Qed.

(** ** The whole-millisecond model is the double computation *)

Lemma relayState_whole now ts c :
  wholeMs now → wholeMs ts → wholeConfig c →
  Dbl.relayState now ts (doubleRelay c) = relayState now ts c.
Proof.
  unfold wholeConfig, wholeMs. intros Hnow Hts (Ho & Hd & Hp).
  unfold Dbl.relayState, relayState, doubleRelay.
  cbn [Dbl.Relay.enabled Dbl.Relay.onTimeMs Dbl.Relay.delayMs
       Dbl.Relay.pulseMs].
  destruct (Relay.enabled c); [|done]. cbn [negb]. cbv zeta.
  rewrite !ofZ_whole by lia.
  rewrite sub_whole, add_whole by lia.
  rewrite geb_whole, ltb_whole, gtb_whole.
  destruct ((now - ts >=? Relay.delayMs c)
            && (now - ts <? Relay.delayMs c + Relay.onTimeMs c)); [|done].
  destruct (Z.gtb_spec (Relay.pulseMs c) 0) as [Hpos|Hnp]; [|done].
  rewrite mul_whole, sub_whole by lia.
  rewrite rem_whole by lia. by rewrite ltb_whole.
Qed.

Lemma relayFinished_whole now ts c :
  wholeMs now → wholeMs ts → wholeConfig c →
  Dbl.relayFinished now ts (doubleRelay c) = relayFinished now ts c.
Proof.
  unfold wholeConfig, wholeMs. intros Hnow Hts (Ho & Hd & Hp).
  unfold Dbl.relayFinished, relayFinished, doubleRelay.
  cbn [Dbl.Relay.enabled Dbl.Relay.onTimeMs Dbl.Relay.delayMs
       Dbl.Relay.pulseMs].
  destruct (Relay.enabled c); [|done]. cbn [negb].
  rewrite !ofZ_whole by lia. rewrite !add_whole by lia.
  apply geb_whole.
Qed.

Lemma jsGet_doubleRelays k cfg :
  jsGet k (doubleRelays cfg) = doubleRelay <$> jsGet k cfg.
Proof.
  unfold doubleRelays. induction cfg as [|[k0 c0] cfg IH]; simpl; [done|].
  by case_bool_decide.
Qed.

Lemma jsKeys_doubleRelays cfg : jsKeys (doubleRelays cfg) = jsKeys cfg.
Proof.
  unfold doubleRelays, jsKeys. rewrite map_map. by apply map_ext.
Qed.

Lemma relayLoop_whole now ts cfg st :
  wholeMs now → wholeMs ts → wholeRelays cfg →
  Dbl.relayLoop now ts (doubleRelays cfg) st = relayLoop now ts cfg st.
Proof.
  intros Hnow Hts Hcfg. unfold Dbl.relayLoop, relayLoop.
  rewrite jsKeys_doubleRelays. generalize (jsKeys cfg) as ks.
  intros ks. revert st. induction ks as [|k ks IH]; intros st; simpl; [done|].
  rewrite jsGet_doubleRelays.
  destruct (jsGet k cfg) as [c|] eqn:Hk; simpl; [|apply IH].
  rewrite relayState_whole by eauto. apply IH.
Qed.

Lemma allFinished_whole now ts cfg :
  wholeMs now → wholeMs ts → wholeRelays cfg →
  Dbl.allEnabledTriggerRelaysFinished now ts (doubleRelays cfg)
  = allEnabledTriggerRelaysFinished now ts cfg.
Proof.
  intros Hnow Hts Hcfg.
  unfold Dbl.allEnabledTriggerRelaysFinished, allEnabledTriggerRelaysFinished.
  rewrite jsKeys_doubleRelays. generalize (jsKeys cfg) as ks.
  induction ks as [|k ks IH]; simpl; [done|].
  rewrite jsGet_doubleRelays, IH.
  destruct (jsGet k cfg) as [c|] eqn:Hk; simpl; [|done].
  by rewrite relayFinished_whole by eauto.
Qed.


(** ** The double block, relay by relay *)

Lemma Dbl_relayLoop_fold now ts cfg k ks st :
  jsGet k
    (foldl (fun st relayId =>
              match jsGet relayId cfg with
              | Some config => jsSet relayId (Dbl.relayState now ts config) st
              | None => st
              end) st ks)
  = match jsGet k cfg with
    | Some c => if bool_decide (k ∈ ks) then Some (Dbl.relayState now ts c)
                else jsGet k st
    | None => jsGet k st
    end.
Proof.
  revert st. induction ks as [|k0 ks IH]; intros st; cbn [foldl].
  - destruct (jsGet k cfg); [|done]. case_bool_decide as Hin; [|done].
    by apply elem_of_nil in Hin.
  - rewrite IH. destruct (jsGet k cfg) as [c|] eqn:Hk.
    + destruct (decide (k = k0)) as [->|Hne].
      * rewrite Hk, jsGet_set_eq.
        rewrite (bool_decide_true (k0 ∈ k0 :: ks))
          by (apply elem_of_cons; by left).
        by case_bool_decide.
      * assert (jsGet k (match jsGet k0 cfg with
                         | Some config =>
                             jsSet k0 (Dbl.relayState now ts config) st
                         | None => st
                         end) = jsGet k st) as ->.
        { destruct (jsGet k0 cfg); [|done]. by apply jsGet_set_ne. }
        apply (f_equal (fun b : bool => if b then _ else _)).
        apply bool_decide_ext. rewrite elem_of_cons. intuition congruence.
    + destruct (jsGet k0 cfg) as [c0|] eqn:Hk0; [|done].
      apply jsGet_set_ne. congruence.
Qed.

Lemma Dbl_relayLoop_get now ts cfg k st :
  jsGet k (Dbl.relayLoop now ts cfg st)
  = match jsGet k cfg with
    | Some c => Some (Dbl.relayState now ts c)
    | None => jsGet k st
    end.
Proof.
  unfold Dbl.relayLoop. rewrite Dbl_relayLoop_fold.
  destruct (jsGet k cfg) as [c|] eqn:Hk; [|done].
  rewrite bool_decide_true; [done|]. apply jsGet_keys. by rewrite Hk.
Qed.

Lemma Dbl_allFinished_true now ts cfg :
  Dbl.allEnabledTriggerRelaysFinished now ts cfg = true ↔
  ∀ k c, jsGet k cfg = Some c → Dbl.relayFinished now ts c = true.
Proof.
  unfold Dbl.allEnabledTriggerRelaysFinished. rewrite forallb_forall. split.
  - intros H k c Hk. specialize (H k).
    rewrite Hk in H. apply H. apply list_elem_of_In, jsGet_keys. by rewrite Hk.
  - intros H k _. destruct (jsGet k cfg) eqn:Hk; [by eapply H | done].
Qed.

Lemma Dbl_mainTrigger_enabled now tr :
  Dbl.mainTrigger now true (Some tr) =
  if Dbl.allEnabledTriggerRelaysFinished now (Dbl.Trigger.timestamp tr)
       (Dbl.Trigger.relayConfig tr)
  then (allOff, false, None)
  else (Dbl.relayLoop now (Dbl.Trigger.timestamp tr)
          (Dbl.Trigger.relayConfig tr) allOff, true, Some tr).
Proof. reflexivity. Qed.

(** The state the block leaves for a relay of the snapshot whose
    durations are whole milliseconds is the one the whole-millisecond
    loop body computes. *)
Lemma Dbl_mainStates_whole now tr k c :
  wholeMs now → wholeMs (Dbl.Trigger.timestamp tr) → wholeConfig c →
  jsGet k (Dbl.Trigger.relayConfig tr) = Some (doubleRelay c) →
  stateOf k (Dbl.mainStates now true (Some tr))
  = relayState now (Dbl.Trigger.timestamp tr) c.
Proof.
  intros Hnow Hts Hc Hk. unfold Dbl.mainStates.
  rewrite Dbl_mainTrigger_enabled.
  destruct (Dbl.allEnabledTriggerRelaysFinished _ _ _) eqn:Hfin; simpl.
  - rewrite stateOf_allOff. symmetry. apply relayFinished_off.
    rewrite <- relayFinished_whole by done.
    by apply (proj1 (Dbl_allFinished_true _ _ _) Hfin k).
  - unfold stateOf. rewrite Dbl_relayLoop_get, Hk.
    by rewrite relayState_whole.
Qed.

Lemma Dbl_relayState_disabled now ts dc :
  Dbl.Relay.enabled dc = false → Dbl.relayState now ts dc = false.
Proof. intros H. unfold Dbl.relayState. by rewrite H. Qed.

Lemma Dbl_relayFinished_disabled now ts dc :
  Dbl.Relay.enabled dc = false → Dbl.relayFinished now ts dc = true.
Proof. intros H. unfold Dbl.relayFinished. by rewrite H. Qed.

(** C1 (amended). Per-relay main-trigger computation, on the block in
    double arithmetic: with an active trigger and the alarm enabled, a
    relay 1 to 4 of the snapshot that is enabled and whose three durations
    are whole milliseconds ([now] and the trigger's start being whole
    milliseconds too, all of magnitude at most [2^51]) is on exactly when
    the elapsed time lies in [[delayMs, delayMs + onTimeMs)] and, for
    [pulseMs = p > 0], [(elapsed - delayMs) mod 2p < p], and it is off
    outside the window, whatever the durations of the other relays; a
    disabled relay is off whatever the time and whatever its durations;
    without a trigger or with the alarm disabled, the main-trigger states
    are the all-off object. *)
Theorem main_trigger_relay_state (now : Z) (alarmEnabled : bool)
    (activeTrigger : option Dbl.Trigger.t) :
  (∀ tr k c,
     activeTrigger = Some tr → alarmEnabled = true →
     k ∈ jsKeys allOff →
     jsGet k (Dbl.Trigger.relayConfig tr) = Some (doubleRelay c) →
     wholeMs now → wholeMs (Dbl.Trigger.timestamp tr) → wholeConfig c →
     (Relay.enabled c = true →
      (stateOf k (Dbl.mainStates now alarmEnabled activeTrigger) = true ↔
       mainOn (now - Dbl.Trigger.timestamp tr) c)) ∧
     (Relay.enabled c = true →
      ¬ inWindow (now - Dbl.Trigger.timestamp tr) c →
      stateOf k (Dbl.mainStates now alarmEnabled activeTrigger) = false))
  ∧ (∀ tr k dc,
       activeTrigger = Some tr →
       k ∈ jsKeys allOff →
       jsGet k (Dbl.Trigger.relayConfig tr) = Some dc →
       Dbl.Relay.enabled dc = false →
       stateOf k (Dbl.mainStates now alarmEnabled activeTrigger) = false)
  ∧ (activeTrigger = None ∨ alarmEnabled = false →
     Dbl.mainStates now alarmEnabled activeTrigger = allOff
     ∧ ∀ k, stateOf k (Dbl.mainStates now alarmEnabled activeTrigger) = false).
Proof.
  split; [|split].
  - intros tr k c -> -> _ Hk Hnow Hts Hc.
    rewrite (Dbl_mainStates_whole now tr k c) by done.
    split.
    + intros Hen. rewrite relayState_true. intuition.
    + intros Hen Hout. apply not_true_is_false. rewrite relayState_true.
      unfold mainOn. intuition.
  - intros tr k dc -> _ Hk Hen. unfold Dbl.mainStates.
    destruct alarmEnabled; [|apply stateOf_allOff].
    rewrite Dbl_mainTrigger_enabled.
    destruct (Dbl.allEnabledTriggerRelaysFinished _ _ _); simpl;
      [apply stateOf_allOff|].
    unfold stateOf. rewrite Dbl_relayLoop_get, Hk.
    by rewrite Dbl_relayState_disabled.
  - intros H.
    assert (Dbl.mainStates now alarmEnabled activeTrigger = allOff) as ->.
    { unfold Dbl.mainStates, Dbl.mainTrigger.
      destruct activeTrigger; [|done]. destruct H as [H|H]; [done|by rewrite H]. }
    split; [done | apply stateOf_allOff].
Qed.

(** C1 as stated fails where a duration is not a whole number of
    milliseconds: a relay is off inside its exact window (the rounded
    end of the trigger has come), and another is on in the second half
    of its exact period (the rounded time in the window is a multiple of
    the period). *)
Lemma main_trigger_counterexample :
  ¬ (∀ now tr k dc,
       jsGet k (Dbl.Trigger.relayConfig tr) = Some dc →
       Dbl.Relay.enabled dc = true →
       exactOn (now - Dbl.Trigger.timestamp tr) dc →
       stateOf k (Dbl.mainStates now true (Some tr)) = true)
  ∧ ¬ (∀ now tr k dc,
         jsGet k (Dbl.Trigger.relayConfig tr) = Some dc →
         Dbl.Relay.enabled dc = true →
         stateOf k (Dbl.mainStates now true (Some tr)) = true →
         exactOn (now - Dbl.Trigger.timestamp tr) dc).
Proof.
  split.
  - intros H.
    specialize (H (1762051200000 + 100) fractionalDurationTrigger "1" _
                  eq_refl eq_refl).
    assert (stateOf "1" (Dbl.mainStates (1762051200000 + 100) true
                           (Some fractionalDurationTrigger)) = true) as Hon;
      [|by vm_compute in Hon].
    apply H. unfold exactOn. cbv zeta.
    split; [vm_compute; congruence|]. split; [vm_compute; reflexivity|].
    intros Hp. by vm_compute in Hp.
  - intros H.
    specialize (H (1762051200000 + 532485) fractionalDelayTrigger "1" _
                  eq_refl eq_refl eq_refl) as (_ & _ & Hphase).
    cbv zeta in Hphase.
    assert (0 < F64.toQ (F64.ofZ 4096))%Q as Hp by (vm_compute; reflexivity).
    specialize (Hphase Hp). by vm_compute in Hphase.
Qed.

(** ** Lifecycle of the trigger in double arithmetic *)

Lemma wholeTrigger_relays h tr k c :
  wholeTrigger h tr →
  jsGet k (readRelays h (Trigger.relayConfig tr)) = Some c → wholeConfig c.
Proof. intros [_ H]. apply H. Qed.

(** X25. On whole milliseconds the state model is the code's
    arithmetic: when [now], the trigger's start and the durations of its
    snapshot are whole numbers of magnitude at most [2^51], the main
    block in double arithmetic, run on the trigger of a state, computes
    the relay states, the [newTriggerActive] flag and the trigger that the
    state model's block computes. *)
Theorem main_block_whole_ms now h s :
  wholeMs now →
  (∀ tr, activeTrigger s = Some tr → wholeTrigger h tr) →
  Dbl.mainTrigger now (alarmEnabled s) (doubleTrigger h <$> activeTrigger s)
  = ((mainTrigger now h s).1,
     doubleTrigger h <$> activeTrigger (mainTrigger now h s).2).
Proof.
  intros Hnow Hwhole. unfold Dbl.mainTrigger, mainTrigger.
  destruct (activeTrigger s) as [tr|] eqn:Htr; simpl; [|by rewrite Htr].
  destruct (Hwhole tr eq_refl) as [Hts Hcfg].
  destruct (alarmEnabled s); simpl; [|by rewrite Htr].
  rewrite allFinished_whole, relayLoop_whole by done.
  destruct (allEnabledTriggerRelaysFinished _ _ _); simpl; [done|].
  by rewrite Htr.
Qed.

(** C2 (amended). ActiveTrigger lifecycle: in a state with the alarm
    enabled, whose trigger holds whole-millisecond durations ([now], the
    start and the durations of magnitude at most [2^51]), the main block
    in double arithmetic clears the trigger exactly when
    [startedAt + delayMs + onTimeMs <= now] for every enabled relay of its
    snapshot (disabled relays never delay this); a trigger that is not
    cleared is left as it was; when the block clears the trigger it
    leaves every relay off and [newTriggerActive] false; the evaluation
    of the state model clears the trigger exactly when the block does,
    and when no test override is in flight at that evaluation every
    relay state is off and [triggerActive] is false. *)
Theorem trigger_cleared_when_finished (now : Z) (w : World) (tr : Trigger.t) :
  activeTrigger (alarmSettings w) = Some tr →
  alarmEnabled (alarmSettings w) = true →
  wholeMs now → wholeTrigger (heap w) tr →
  let block := Dbl.mainTrigger now true (Some (doubleTrigger (heap w) tr)) in
  let w' := (calculateAndBroadcastRelayStates now w).1 in
  (block.2 = None ↔
   ∀ k c, jsGet k (readRelays (heap w) (Trigger.relayConfig tr)) = Some c →
          Relay.enabled c = true →
          Trigger.timestamp tr + Relay.delayMs c + Relay.onTimeMs c ≤ now)
  ∧ (block.2 ≠ None → block.2 = Some (doubleTrigger (heap w) tr))
  ∧ (block.2 = None → block.1 = (allOff, false))
  ∧ (activeTrigger (alarmSettings w') = None ↔ block.2 = None)
  ∧ (activeTrigger (alarmSettings w') ≠ None →
     activeTrigger (alarmSettings w') = Some tr)
  ∧ (activeTrigger (alarmSettings w') = None →
     ¬ testInFlight now (testRelay (alarmSettings w)) →
     (∀ k, stateOf k (currentRelayStates (alarmSettings w')) = false) ∧
     triggerActive (alarmSettings w') = false).
Proof.
  intros Htr Hen Hnow [Hts Hcfg] block w'. subst block w'.
  destruct (calc_trigger_lifecycle now w tr Htr Hen) as (Hiff & Hkeep & Hoff).
  rewrite Dbl_mainTrigger_enabled.
  cbn [doubleTrigger Dbl.Trigger.relayConfig Dbl.Trigger.timestamp].
  rewrite allFinished_whole, relayLoop_whole by done.
  rewrite <- finished_spec in *.
  pose proof (Hkeep) as Hkeep'. cbv zeta in Hiff, Hkeep', Hoff.
  destruct (allEnabledTriggerRelaysFinished _ _ _) eqn:Hfin; simpl.
  - assert (activeTrigger
              (alarmSettings (calculateAndBroadcastRelayStates now w).1)
            = None) as Hnone by by apply Hiff.
    split; [done|]. split; [done|]. split; [done|]. split; [done|].
    split; [done|]. intros _. by apply Hoff.
  - assert (activeTrigger
              (alarmSettings (calculateAndBroadcastRelayStates now w).1)
            ≠ None) as Hsome.
    { intros Hnone. by apply Hiff in Hnone. }
    split; [done|]. split; [done|]. split; [done|].
    split; [split; [done | done]|]. split; [done|]. done.
Qed.

Lemma geb_ofZ_mono a b y :
  - 2 ^ 53 < a → a ≤ b → b < 2 ^ 53 →
  F64.geb (F64.ofZ a) y = true → F64.geb (F64.ofZ b) y = true.
Proof.
  intros Ha Hab Hb. rewrite !ofZ_whole by lia.
  destruct y as [|neg|m e]; [done|done|].
  unfold F64.geb, F64.ltb. cbv zeta.
  rewrite !negb_true_iff, !Z.ltb_ge.
  assert (0 ≤ 2 ^ (0 - Z.min 0 e)) as Hpow by (apply Z.pow_nonneg; lia).
  intros Hge. etrans; [exact Hge|]. by apply Z.mul_le_mono_nonneg_r.
Qed.

Lemma Dbl_relayFinished_mono now now' ts dc :
  wholeMs now → wholeMs now' → now ≤ now' →
  Dbl.relayFinished now ts dc = true → Dbl.relayFinished now' ts dc = true.
Proof.
  unfold wholeMs. intros Hnow Hnow' Hle. unfold Dbl.relayFinished.
  destruct (Dbl.Relay.enabled dc); [|done]. cbn [negb].
  apply geb_ofZ_mono; lia.
Qed.

(** X2. Completion is final: in double arithmetic and whatever the
    durations, once the completion check of a trigger succeeds at some
    instant it succeeds at every later one; and from then on the loop
    body computes off for every relay of the snapshot whose durations are
    whole milliseconds. *)
Theorem completion_is_final (now now' ts : Z) (cfg : obj Dbl.Relay.t) :
  wholeMs now → wholeMs now' → now ≤ now' →
  Dbl.allEnabledTriggerRelaysFinished now ts cfg = true →
  Dbl.allEnabledTriggerRelaysFinished now' ts cfg = true
  ∧ ∀ k c, jsGet k cfg = Some (doubleRelay c) →
           wholeMs ts → wholeConfig c →
           Dbl.relayState now' ts (doubleRelay c) = false.
Proof.
  intros Hnow Hnow' Hle Hfin.
  assert (Dbl.allEnabledTriggerRelaysFinished now' ts cfg = true) as Hfin'.
  { apply Dbl_allFinished_true. intros k dc Hk.
    apply (Dbl_relayFinished_mono now now'); [done..|].
    by apply (proj1 (Dbl_allFinished_true now ts cfg) Hfin k). }
  split; [done|]. intros k c Hk Hts Hc.
  rewrite relayState_whole by done. apply relayFinished_off.
  rewrite <- relayFinished_whole by done.
  by apply (proj1 (Dbl_allFinished_true now' ts cfg) Hfin' k).
Qed.

(** X1. Inside the active window, a pulsing relay whose durations are
    whole milliseconds is, in double arithmetic, a square wave of half
    period [pulseMs]: [pulseMs] later its state is the opposite, and
    [2 * pulseMs] later it is the same. *)
Theorem pulse_square_wave (now ts : Z) (c : Relay.t) :
  wholeMs now → wholeMs (now + 2 * Relay.pulseMs c) → wholeMs ts →
  wholeConfig c →
  Relay.enabled c = true → 0 < Relay.pulseMs c →
  inWindow (now - ts) c →
  (inWindow (now + Relay.pulseMs c - ts) c →
   Dbl.relayState (now + Relay.pulseMs c) ts (doubleRelay c)
   = negb (Dbl.relayState now ts (doubleRelay c)))
  ∧ (inWindow (now + 2 * Relay.pulseMs c - ts) c →
     Dbl.relayState (now + 2 * Relay.pulseMs c) ts (doubleRelay c)
     = Dbl.relayState now ts (doubleRelay c)).
Proof.
  intros Hnow Hnow2 Hts Hc Hen Hp Hwin.
  assert (wholeMs (now + Relay.pulseMs c)) as Hnow1.
  { unfold wholeMs in *. lia. }
  rewrite !relayState_whole by done.
  by apply relayState_square_wave.
Qed.

Lemma wholeRelays_default : wholeRelays defaultRelays.
Proof.
  intros k c Hk. apply jsGet_elem_of in Hk.
  unfold defaultRelays in Hk.
  repeat (apply elem_of_cons in Hk as [Hk|Hk];
          [simplify_eq; repeat split; simpl; lia|]).
  by apply elem_of_nil in Hk.
Qed.

Lemma main_trigger_relay_state_witness :
  "1" ∈ jsKeys allOff
  ∧ jsGet "1" (Dbl.Trigger.relayConfig orderedTrigger)
    = Some (doubleRelay (Relay.mk 5000 0 0 true))
  ∧ wholeMs 100 ∧ wholeMs (Dbl.Trigger.timestamp orderedTrigger)
  ∧ wholeConfig (Relay.mk 5000 0 0 true)
  ∧ mainOn (100 - 0) (Relay.mk 5000 0 0 true)
  ∧ stateOf "1" (Dbl.mainStates 100 true (Some orderedTrigger)) = true.
Proof.
  assert ("1" ∈ jsKeys allOff) as Hin by (apply elem_of_cons; by left).
  assert (wholeMs 100) as Hnow by (unfold wholeMs; lia).
  assert (wholeMs (Dbl.Trigger.timestamp orderedTrigger)) as Hts
    by (unfold wholeMs; simpl; lia).
  assert (wholeConfig (Relay.mk 5000 0 0 true)) as Hc
    by (unfold wholeConfig, wholeMs; simpl; lia).
  assert (mainOn (100 - 0) (Relay.mk 5000 0 0 true)) as Hon.
  { unfold mainOn, inWindow. simpl. lia. }
  split; [exact Hin|]. split; [reflexivity|]. split; [exact Hnow|].
  split; [exact Hts|]. split; [exact Hc|]. split; [exact Hon|].
  exact (proj2 (proj1 (proj1 (main_trigger_relay_state 100 true
                                (Some orderedTrigger))
                         orderedTrigger "1" (Relay.mk 5000 0 0 true)
                         eq_refl eq_refl Hin eq_refl Hnow Hts Hc)
                  eq_refl) Hon).
Defined.

Lemma wholeTrigger_ordered :
  wholeTrigger (heap orderedWorld) (Trigger.mk order 0 9%nat).
Proof.
  split; [unfold wholeMs; simpl; lia|].
  assert (readRelays (heap orderedWorld) 9%nat = defaultRelays) as Heq
    by (vm_compute; reflexivity).
  cbn [Trigger.relayConfig]. rewrite Heq. exact wholeRelays_default.
Qed.

Lemma trigger_cleared_when_finished_witness :
  activeTrigger (alarmSettings orderedWorld) = Some (Trigger.mk order 0 9%nat)
  ∧ alarmEnabled (alarmSettings orderedWorld) = true
  ∧ wholeMs 8000
  ∧ wholeTrigger (heap orderedWorld) (Trigger.mk order 0 9%nat)
  ∧ (Dbl.mainTrigger 8000 true
       (Some (doubleTrigger (heap orderedWorld) (Trigger.mk order 0 9%nat)))).1
    = (allOff, false)
  ∧ activeTrigger
      (alarmSettings (calculateAndBroadcastRelayStates 8000 orderedWorld).1)
    = None.
Proof.
  assert (wholeMs 8000) as Hnow by (unfold wholeMs; lia).
  pose proof wholeTrigger_ordered as Hwhole.
  destruct (trigger_cleared_when_finished 8000 orderedWorld
              (Trigger.mk order 0 9%nat) eq_refl eq_refl Hnow Hwhole)
    as (Hiff & _ & Hoff & Hsame & _).
  assert ((Dbl.mainTrigger 8000 true
             (Some (doubleTrigger (heap orderedWorld)
                      (Trigger.mk order 0 9%nat)))).2 = None) as Hcleared
    by (vm_compute; reflexivity).
  split; [reflexivity|]. split; [reflexivity|]. split; [exact Hnow|].
  split; [exact Hwhole|]. split; [exact (Hoff Hcleared)|].
  exact (proj2 Hsame Hcleared).
Defined.

Lemma completion_is_final_witness :
  wholeMs 8000 ∧ wholeMs 8100 ∧ 8000 ≤ 8100
  ∧ Dbl.allEnabledTriggerRelaysFinished 8000 0 (doubleRelays defaultRelays)
    = true
  ∧ Dbl.allEnabledTriggerRelaysFinished 8100 0 (doubleRelays defaultRelays)
    = true.
Proof.
  assert (wholeMs 8000) as H1 by (unfold wholeMs; lia).
  assert (wholeMs 8100) as H2 by (unfold wholeMs; lia).
  assert (8000 ≤ 8100) as Hle by lia.
  split; [exact H1|]. split; [exact H2|]. split; [exact Hle|].
  split; [reflexivity|].
  exact (proj1 (completion_is_final 8000 8100 0
                  (doubleRelays defaultRelays) H1 H2 Hle eq_refl)).
Defined.

Lemma pulse_square_wave_witness :
  wholeMs 1050 ∧ wholeMs (1050 + 2 * 200) ∧ wholeMs 0
  ∧ wholeConfig (Relay.mk 2000 1000 200 true)
  ∧ inWindow (1050 - 0) (Relay.mk 2000 1000 200 true)
  ∧ inWindow (1050 + 200 - 0) (Relay.mk 2000 1000 200 true)
  ∧ Dbl.relayState (1050 + 200) 0 (doubleRelay (Relay.mk 2000 1000 200 true))
    = negb (Dbl.relayState 1050 0
              (doubleRelay (Relay.mk 2000 1000 200 true))).
Proof.
  assert (wholeMs 1050) as Hn by (unfold wholeMs; lia).
  assert (wholeMs (1050 + 2 * 200)) as Hn2 by (unfold wholeMs; lia).
  assert (wholeMs 0) as Hts by (unfold wholeMs; lia).
  assert (wholeConfig (Relay.mk 2000 1000 200 true)) as Hc
    by (unfold wholeConfig, wholeMs; simpl; lia).
  assert (inWindow (1050 - 0) (Relay.mk 2000 1000 200 true)) as H1.
  { unfold inWindow. simpl. lia. }
  assert (inWindow (1050 + 200 - 0) (Relay.mk 2000 1000 200 true)) as H2.
  { unfold inWindow. simpl. lia. }
  assert (0 < Relay.pulseMs (Relay.mk 2000 1000 200 true)) as Hp.
  { simpl. lia. }
  split; [exact Hn|]. split; [exact Hn2|]. split; [exact Hts|].
  split; [exact Hc|]. split; [exact H1|]. split; [exact H2|].
  exact (proj1 (pulse_square_wave 1050 0 (Relay.mk 2000 1000 200 true)
                  Hn Hn2 Hts Hc eq_refl Hp H1) H2).
Defined.

Lemma main_block_whole_ms_witness :
  wholeMs 100
  ∧ (∀ tr, activeTrigger (alarmSettings orderedWorld) = Some tr →
           wholeTrigger (heap orderedWorld) tr)
  ∧ Dbl.mainTrigger 100 (alarmEnabled (alarmSettings orderedWorld))
      (doubleTrigger (heap orderedWorld)
         <$> activeTrigger (alarmSettings orderedWorld))
    = ((mainTrigger 100 (heap orderedWorld) (alarmSettings orderedWorld)).1,
       doubleTrigger (heap orderedWorld)
         <$> activeTrigger
               (mainTrigger 100 (heap orderedWorld)
                  (alarmSettings orderedWorld)).2).
Proof.
  assert (wholeMs 100) as Hnow by (unfold wholeMs; lia).
  assert (∀ tr, activeTrigger (alarmSettings orderedWorld) = Some tr →
                wholeTrigger (heap orderedWorld) tr) as Hwhole.
  { intros tr Htr.
    assert (tr = Trigger.mk order 0 9%nat) as ->
      by (vm_compute in Htr; congruence).
    exact wholeTrigger_ordered. }
  split; [exact Hnow|]. split; [exact Hwhole|].
  exact (main_block_whole_ms 100 (heap orderedWorld)
           (alarmSettings orderedWorld) Hnow Hwhole).
Defined.
